(** * obsidian-timetracker: a shallow embedding of the record store,
      the slot-grid drag arithmetic and the pomodoro timer.

    Sources embedded:
    - [src/storage.ts]          (module [Storage])
    - [src/utils/time.ts]       (module [Time])
    - [src/components/WeekGrid.ts], drag handlers (module [WeekGrid])
    - the pomodoro timer class  (module [Pomodoro])

    JavaScript strings are sequences of code units; this development
    covers the code units 0..255 (Latin-1), represented by [ascii].
    JavaScript integers are represented by [Z]. *)

From Stdlib Require Import ZArith NArith List Ascii String Bool Lia DecimalString.
From Stdlib Require DecimalPos.
From stdpp Require Import base option list strings.

Local Open Scope char_scope.
Local Open Scope list_scope.

Abbreviation str := (list ascii).

Definition LF : ascii := "010".

(** A string literal of the source, as a list of code units. *)
Definition lit (s : string) : str := list_ascii_of_string s.

(* ================================================================== *)
(** * JavaScript string primitives used by the sources *)
(* ================================================================== *)
Module Js.

Definition code (c : ascii) : N := N_of_ascii c.

Definition in_range (lo hi : N) (c : ascii) : bool :=
  ((lo <=? code c) && (code c <=? hi))%N.

(** [\d] *)
Definition is_digit (c : ascii) : bool := in_range 48 57 c.

(** [\w] = [A-Za-z0-9_] (no unicode flag) *)
Definition is_word (c : ascii) : bool :=
  is_digit c || in_range 65 90 c || in_range 97 122 c || (code c =? 95)%N.

(** [\s] and the characters removed by [trim]: TAB, LF, VT, FF, CR,
    SPACE and NBSP are the ones below 256. *)
Definition is_space (c : ascii) : bool :=
  in_range 9 13 c || (code c =? 32)%N || (code c =? 160)%N.

(** The characters [.] refuses: LF and CR are the ones below 256. *)
Definition is_line_terminator (c : ascii) : bool :=
  (code c =? 10)%N || (code c =? 13)%N.

(** [toLowerCase] on one code unit: A-Z, and the Latin-1 capitals
    0xC0..0xDE except the multiplication sign 0xD7. *)
Definition lower_char (c : ascii) : ascii :=
  if in_range 65 90 c || (in_range 192 222 c && negb (code c =? 215)%N)
  then ascii_of_N (code c + 32)
  else c.

Definition toLowerCase (s : str) : str := lower_char <$> s.

(** [trimStart], [trimEnd], [trim] *)
Fixpoint trimStart (s : str) : str :=
  match s with
  | c :: s' => if is_space c then trimStart s' else s
  | [] => []
  end.

Fixpoint trimEnd (s : str) : str :=
  match s with
  | [] => []
  | c :: s' =>
      match trimEnd s' with
      | [] => if is_space c then [] else [c]
      | t => c :: t
      end
  end.

Definition trim (s : str) : str := trimEnd (trimStart s).

(** [s.split(sep)] for a one-character separator: never empty. *)
Fixpoint split (sep : ascii) (s : str) : list str :=
  match s with
  | [] => [[]]
  | c :: s' =>
      if decide (c = sep) then [] :: split sep s'
      else match split sep s' with
           | l :: ls => (c :: l) :: ls
           | [] => [[c]]
           end
  end.

(** [parts.join(sep)] *)
Fixpoint join (sep : str) (parts : list str) : str :=
  match parts with
  | [] => []
  | [p] => p
  | p :: ps => p ++ sep ++ join sep ps
  end.

(** [s.startsWith(p)] and [s.includes(needle)] *)
Fixpoint startsWith (p s : str) : bool :=
  match p, s with
  | [], _ => true
  | _ :: _, [] => false
  | a :: p', b :: s' => bool_decide (a = b) && startsWith p' s'
  end.

Fixpoint includes (s needle : str) : bool :=
  startsWith needle s ||
  match s with
  | [] => false
  | _ :: s' => includes s' needle
  end.

Fixpoint endsWith_char (c : ascii) (s : str) : bool :=
  match s with
  | [] => false
  | [x] => bool_decide (x = c)
  | _ :: s' => endsWith_char c s'
  end.

(** ** Regular expressions with the [g] flag.

    A regular expression is represented by its matcher: the length of
    the match that begins at the head of the input, when there is one.
    None of the expressions of the sources matches the empty string. *)
Definition matcher := str → option nat.

Fixpoint take_while (p : ascii → bool) (s : str) : str :=
  match s with
  | c :: s' => if p c then c :: take_while p s' else []
  | [] => []
  end.

(** [s.replace(re, "")] with a global [re]: [skip] counts the code
    units of the current match that are still to be dropped. *)
Fixpoint replace_g (m : matcher) (skip : nat) (s : str) : str :=
  match s with
  | [] => []
  | c :: s' =>
      match skip with
      | S k => replace_g m k s'
      | O =>
          match m s with
          | Some (S k) => replace_g m k s'
          | _ => c :: replace_g m 0 s'
          end
      end
  end.

(** [s.match(re)] with a global [re]: the matched substrings, left to
    right ([null] is the empty list). *)
Fixpoint match_g (m : matcher) (skip : nat) (s : str) : list str :=
  match s with
  | [] => []
  | _ :: s' =>
      match skip with
      | S k => match_g m k s'
      | O =>
          match m s with
          | Some (S k) => take (S k) s :: match_g m k s'
          | _ => match_g m 0 s'
          end
      end
  end.

(** [/#\w+/] : a hash and the longest non-empty run of word characters. *)
Definition re_tag : matcher := λ s,
  match s with
  | c :: s' =>
      if decide (c = "#") then
        match length (take_while is_word s') with
        | O => None
        | S n => Some (S (S n))
        end
      else None
  | [] => None
  end.

(** [/lit/i] for a literal [pat] given in lower case. *)
Definition re_lit_i (pat : str) : matcher := λ s,
  if bool_decide (toLowerCase (take (length pat) s) = pat)
  then Some (length pat) else None.

(** [String(n)] for an integer [n]: its decimal digits, after a minus
    sign when it is negative.  (From [10 ^ 21] on the source writes an
    exponent; the numbers written in this development are far
    below.) *)
Definition String_of_Z (n : Z) : str :=
  lit (NilZero.string_of_int (Z.to_int n)).

(** [s.padStart(n, "0")] *)
Definition padStart0 (n : nat) (s : str) : str :=
  repeat "0" (n - length s) ++ s.

(** The value of a decimal digit. *)
Definition digit_val (c : ascii) : Z := Z.of_N (code c) - 48.

(** [Number(s)] on the runs of decimal digits (and on the empty string,
    which is 0), where it is the integer the digits stand for; that is
    exact up to fifteen digits, and the runs read in the statements
    below are shorter.  Every other argument is outside this model:
    [None] stands for NaN and also for the strings that the source
    reads as a number of another form (with a sign, between white
    space, with a fraction or an exponent, in another base).  No
    statement below concludes anything from [None]. *)
Definition Number (s : str) : option Z :=
  if forallb is_digit s
  then Some (fold_left (λ acc c, 10 * acc + digit_val c)%Z s 0%Z)
  else None.

(** The order [<] of strings: code unit by code unit. *)
Fixpoint str_lt (a b : str) : bool :=
  match a, b with
  | _, [] => false
  | [], _ :: _ => true
  | x :: a', y :: b' =>
      if (code x <? code y)%N then true
      else if (code y <? code x)%N then false
      else str_lt a' b'
  end.

End Js.

(* ================================================================== *)
(** * src/utils/time.ts *)
(* ================================================================== *)
Module Time.
Import Js.
Local Open Scope Z_scope.

(** [parseTimeToMinutes]: [timeStr.split(":").map(Number)], then
    [hours * 60 + minutes]; a missing part is [undefined], the sum NaN. *)
Definition parseTimeToMinutes (timeStr : str) : option Z :=
  match split ":" timeStr with
  | h :: m :: _ =>
      hours ← Number h; minutes ← Number m; Some (hours * 60 + minutes)
  | _ => None
  end.

(** [minutesToTime]: [%] is the remainder that keeps the sign of the
    dividend ([Z.rem]), [Math.floor] of a quotient is [Z.div].  The
    source computes the quotient in double precision; its floor is the
    integer quotient for integers of moderate size, and the statements
    about this function bound its argument by [2 ^ 31]. *)
Definition minutesToTime (minutes : Z) : str :=
  let hours := Z.rem (minutes / 60) 24 in
  let mins := Z.rem minutes 60 in
  padStart0 2 (String_of_Z hours) ++ lit ":" ++ padStart0 2 (String_of_Z mins).

Definition slotToTime (slot : Z) : str :=
  let minutes := slot * 15 in
  minutesToTime minutes.

Definition timeToSlot (timeStr : str) : option Z :=
  minutes ← parseTimeToMinutes timeStr; Some (minutes / 15).

(** [roundToSlot]: [Math.round(minutes / 15) * 15]; halves round up.
    The source rounds a quotient in double precision, which is the
    rounding of the exact quotient for integers of moderate size; the
    statements about this function bound its argument by [2 ^ 31]. *)
Definition roundToSlot (minutes : Z) : Z := (2 * minutes + 15) / 30 * 15.

(** [formatSeconds] *)
Definition formatSeconds (seconds : Z) : str :=
  let hrs := seconds / 3600 in
  let mins := Z.rem seconds 3600 / 60 in
  let secs := Z.rem seconds 60 in
  if 0 <? hrs
  then padStart0 2 (String_of_Z hrs) ++ lit ":" ++ padStart0 2 (String_of_Z mins)
         ++ lit ":" ++ padStart0 2 (String_of_Z secs)
  else padStart0 2 (String_of_Z mins) ++ lit ":" ++ padStart0 2 (String_of_Z secs).

(** [formatDuration]: the hours are a floor, the minutes a remainder
    with the sign of the dividend. *)
Definition formatDuration (minutes : Z) : str :=
  let hours := minutes / 60 in
  let mins := Z.rem minutes 60 in
  if hours =? 0 then String_of_Z mins ++ lit "m"
  else if mins =? 0 then String_of_Z hours ++ lit "h"
  else String_of_Z hours ++ lit "h " ++ String_of_Z mins ++ lit "m".

(** ** Dates

    The functions below read and write a [Date] through its local
    calendar fields only.  A valid date is represented by these
    fields: the number of its local calendar day, counted from
    Thursday 1 January 1970, and the milliseconds on the wall clock
    since the midnight of that day.

    [setDate] and [setHours] ask for a wall-clock time on a calendar
    day.  Where the time zone has that time, the date has these fields
    afterwards; where it has not (an hour that a change of offset
    skips, as the midnight of 8 September 2024 in Santiago, or a day
    that is skipped whole) the date that results is another one.
    Which one is the business of the time zone: [norm day ms] below,
    the date that results from asking for [ms] on [day], is a parameter
    of the functions. *)
Record Date := mkDate {
  dayNumber : Z;
  msOfDay : Z;
}.

(** [date.getDay()]: 0 is Sunday. *)
Definition getDay (date : Date) : Z := (dayNumber date + 4) mod 7.

Section Zone.
Variable norm : Z → Z → Date.

(** [d.setDate(date.getDate() + k)] for [d] a copy of [date] *)
Definition addDays (k : Z) (date : Date) : Date :=
  norm (dayNumber date + k) (msOfDay date).

(** [d.setHours(0, 0, 0, 0)] *)
Definition setHours0 (d : Date) : Date := norm (dayNumber d) 0.

Definition getWeekStart (date : Date) (weekStartDay : Z) : Date :=
  let d := date in
  let day := getDay d in
  let diff := Z.rem (day - weekStartDay + 7) 7 in
  let d := addDays (- diff) d in
  let d := setHours0 d in
  d.

Definition getWeekDates (date : Date) (weekStartDay : Z) : list Date :=
  let start := getWeekStart date weekStartDay in
  (λ i, addDays i start) <$> [0; 1; 2; 3; 4; 5; 6].

Definition get7DaysFrom (date : Date) : list Date :=
  (λ i, setHours0 (addDays i date)) <$> [0; 1; 2; 3; 4; 5; 6].

End Zone.

End Time.

(* ================================================================== *)
(** * src/types.ts and src/storage.ts *)
(* ================================================================== *)
Module Storage.
Import Js.

Record TimeEntry := mkTimeEntry {
  id : str;
  date : str;
  startTime : str;
  endTime : str;
  description : str;
  tags : list str;
  isPomodoro : bool;
  isBreak : bool;
}.

(** [interface ParsedEntry extends TimeEntry] *)
Record ParsedEntry := mkParsed {
  te :> TimeEntry;
  originalLine : str;
}.

(** [Partial<TimeEntry>]: an absent key is [None]. *)
Record PartialEntry := mkPartial {
  u_id : option str;
  u_date : option str;
  u_startTime : option str;
  u_endTime : option str;
  u_description : option str;
  u_tags : option (list str);
  u_isPomodoro : option bool;
  u_isBreak : option bool;
}.

(** ** The entry grammar

    [ENTRY_REGEX] reads, anchored at both ends: a date [\d{4}-\d{2}-\d{2}]
    (group 1), [\s+], a time [\d{2}:\d{2}] (group 2), a dash between
    optional white space, a time (group 3), a pipe between optional
    white space, and any run of characters other than line terminators
    (group 4).

    Every choice point of this expression is decided by the next code
    unit, so matching is a left-to-right scan. *)

(** [\d{n}] *)
Definition re_digits (n : nat) (s : str) : option (str * str) :=
  let d := take n s in
  if bool_decide (length d = n) && forallb is_digit d
  then Some (d, drop n s) else None.

(** one literal code unit *)
Definition re_char (c : ascii) (s : str) : option str :=
  match s with
  | x :: s' => if decide (x = c) then Some s' else None
  | [] => None
  end.

(** [\d{4}-\d{2}-\d{2}] *)
Definition re_date (s : str) : option (str * str) :=
  '(y, s) ← re_digits 4 s;
  s ← re_char "-" s;
  '(m, s) ← re_digits 2 s;
  s ← re_char "-" s;
  '(d, s) ← re_digits 2 s;
  Some (y ++ "-" :: m ++ "-" :: d, s).

(** [\d{2}:\d{2}] *)
Definition re_time (s : str) : option (str * str) :=
  '(h, s) ← re_digits 2 s;
  s ← re_char ":" s;
  '(m, s) ← re_digits 2 s;
  Some (h ++ ":" :: m, s).

(** [\s+] *)
Definition re_spaces1 (s : str) : option str :=
  match s with
  | c :: s' => if is_space c then Some (trimStart s') else None
  | [] => None
  end.

(** group 4 up to the end: the rest of the input, which holds no line
    terminator *)
Definition re_rest (s : str) : option str :=
  if forallb (λ c, negb (is_line_terminator c)) s then Some s else None.

(** The four groups of a match. *)
Definition ENTRY_REGEX (s : str) : option (str * str * str * str) :=
  '(date, s) ← re_date s;
  s ← re_spaces1 s;
  '(startTime, s) ← re_time s;
  s ← re_char "-" (trimStart s);
  '(endTime, s) ← re_time (trimStart s);
  s ← re_char "|" (trimStart s);
  descriptionPart ← re_rest (trimStart s);
  Some (date, startTime, endTime, descriptionPart).

(** [generateStableId]: the template string without its [:] and [-]. *)
Definition generateStableId (date startTime endTime : str) : str :=
  filter (λ c, ¬ (c = ":" ∨ c = "-"))
         (date ++ lit "_" ++ startTime ++ lit "_" ++ endTime).

Record Description := mkDescription {
  d_description : str;
  d_tags : list str;
  d_isPomodoro : bool;
  d_isBreak : bool;
}.

Definition parseDescription (desc : str) : Description :=
  let tagMatches := match_g re_tag 0 desc in
  let tags := drop 1 <$> tagMatches in
  let isPomodoro := includes desc (lit "(pomodoro)") in
  let isBreak :=
    bool_decide (trim (toLowerCase desc) = lit "break")
    || includes (toLowerCase desc) (lit "(break)") in
  let description :=
    trim (replace_g (re_lit_i (lit "(break)")) 0
           (replace_g (re_lit_i (lit "(pomodoro)")) 0
             (replace_g re_tag 0 desc))) in
  mkDescription description tags isPomodoro isBreak.

(** The body of the loop of [parseContent] on one line. *)
Definition parseLine (line : str) : option ParsedEntry :=
  let trimmed := trim line in
  match trimmed with
  | [] => None
  | _ =>
      '(date, startTime, endTime, descriptionPart) ← ENTRY_REGEX trimmed;
      let d := parseDescription descriptionPart in
      Some (mkParsed
              (mkTimeEntry (generateStableId date startTime endTime)
                           date startTime endTime
                           (d_description d) (d_tags d)
                           (d_isPomodoro d) (d_isBreak d))
              trimmed)
  end.

Definition parseContent (content : str) : list ParsedEntry :=
  omap parseLine (split LF content).

Definition formatEntry (entry : TimeEntry) : str :=
  let desc := description entry in
  let desc :=
    match tags entry with
    | [] => desc
    | _ => desc ++ lit " " ++ join (lit " ") ((λ t, "#" :: t) <$> tags entry)
    end in
  let desc := if isPomodoro entry then desc ++ lit " (pomodoro)" else desc in
  let desc :=
    if isBreak entry && negb (includes (toLowerCase desc) (lit "break"))
    then lit "Break" else desc in
  date entry ++ lit " " ++ startTime entry ++ lit " - " ++ endTime entry
    ++ lit " | " ++ desc.

(** [lines.findIndex(l => l.trim() === oldLine)] *)
Definition findLine (target : str) (lines : list str) : option nat :=
  fst <$> list_find (λ l, trim l = target) lines.

Definition replaceLineInContent (content oldLine newLine : str) : str :=
  let lines := split LF content in
  let lines :=
    match findLine oldLine lines with
    | Some index => <[index := newLine]> lines
    | None => lines
    end in
  join [LF] lines.

Definition removeLineFromContent (content lineToRemove : str) : str :=
  let lines := split LF content in
  let lines :=
    match findLine lineToRemove lines with
    | Some index => delete index lines
    | None => lines
    end in
  join [LF] lines.

Definition appendLineToContent (content newLine : str) : str :=
  match content with
  | [] => newLine
  | _ =>
      let content :=
        if endsWith_char LF content then content else content ++ [LF] in
      content ++ newLine
  end.

(** ** The store and its collaborators

    [file] is the content of the vault file at [settings.filePath]
    ([None]: no such file); [write_fails] tells whether the vault
    refuses writes; [notices] collects the user-visible notices.  The
    awaits of the source run one after the other, so the operations
    are state transformers. *)
Record Store := mkStore {
  entries : list ParsedEntry;
  file : option str;
  write_fails : bool;
  isSaving : bool;
  notices : list str;
}.

Definition set_entries (es : list ParsedEntry) (st : Store) : Store :=
  mkStore es (file st) (write_fails st) (isSaving st) (notices st).

Definition readFile (st : Store) : option str := file st.

(** [writeFile]: the flag is set, the vault call either stores the
    content or throws, which is caught and reported.  The flag is
    cleared by a timer, 100 ms later ([savingTimeout]). *)
Definition writeFile (content : str) (st : Store) : Store :=
  if write_fails st
  then mkStore (entries st) (file st) (write_fails st) true
               (notices st ++ [lit "Failed to save time entries"])
  else mkStore (entries st) (Some content) (write_fails st) true (notices st).

Definition savingTimeout (st : Store) : Store :=
  mkStore (entries st) (file st) (write_fails st) false (notices st).

Definition loadEntries (st : Store) : Store :=
  match file st with
  | None => set_entries [] st
  | Some content => set_entries (parseContent content) st
  end.

(** [this.entries.findIndex(e => e.id === id)] *)
Definition findIndex (i : str) (es : list ParsedEntry) : option (nat * ParsedEntry) :=
  list_find (λ e : ParsedEntry, id e = i) es.

(** [{ ...oldEntry, ...updates }] *)
Definition merge (old : TimeEntry) (u : PartialEntry) : TimeEntry :=
  mkTimeEntry (default (id old) (u_id u))
              (default (date old) (u_date u))
              (default (startTime old) (u_startTime u))
              (default (endTime old) (u_endTime u))
              (default (description old) (u_description u))
              (default (tags old) (u_tags u))
              (default (isPomodoro old) (u_isPomodoro u))
              (default (isBreak old) (u_isBreak u)).

Definition with_id (i : str) (e : TimeEntry) : TimeEntry :=
  mkTimeEntry i (date e) (startTime e) (endTime e) (description e)
              (tags e) (isPomodoro e) (isBreak e).

Definition addEntry (entry : TimeEntry) (st : Store) : Store * ParsedEntry :=
  let newEntry :=
    with_id (generateStableId (date entry) (startTime entry) (endTime entry)) entry in
  let formattedLine := formatEntry newEntry in
  let newEntry := mkParsed newEntry formattedLine in
  let content := default [] (readFile st) in
  let content := appendLineToContent content formattedLine in
  let st := writeFile content st in
  (set_entries (entries st ++ [newEntry]) st, newEntry).

Definition updateEntry (i : str) (updates : PartialEntry) (st : Store) : Store :=
  match findIndex i (entries st) with
  | None => st
  | Some (index, oldEntry) =>
      let oldLine := originalLine oldEntry in
      let updated := merge oldEntry updates in
      let updated :=
        with_id (generateStableId (date updated) (startTime updated) (endTime updated))
                updated in
      let newLine := formatEntry updated in
      let updated := mkParsed updated newLine in
      let st :=
        match readFile st with
        | Some content => writeFile (replaceLineInContent content oldLine newLine) st
        | None => st
        end in
      set_entries (<[index := updated]> (entries st)) st
  end.

Definition deleteEntry (i : str) (st : Store) : Store :=
  match findIndex i (entries st) with
  | None => st
  | Some (index, entry) =>
      let lineToRemove := originalLine entry in
      let st :=
        match readFile st with
        | Some content => writeFile (removeLineFromContent content lineToRemove) st
        | None => st
        end in
      set_entries (delete index (entries st)) st
  end.

Definition getEntriesForDate (d : str) (st : Store) : list ParsedEntry :=
  filter (λ e : ParsedEntry, date e = d) (entries st).

(** One step of the reduction of [getTotalMinutesForDate]. *)
Definition entryMinutes (e : TimeEntry) : option Z :=
  startMinutes ← Time.parseTimeToMinutes (startTime e);
  endMinutes ← Time.parseTimeToMinutes (endTime e);
  Some (endMinutes - startMinutes)%Z.

Definition getTotalMinutesForDate (d : str) (st : Store) : option Z :=
  foldl (λ total (e : ParsedEntry),
           t ← total; m ← entryMinutes e; Some (t + m)%Z)
        (Some 0%Z) (getEntriesForDate d st).

(** [a <= b] on strings *)
Definition str_le (a b : str) : bool := negb (str_lt b a).

Definition getEntriesForDateRange (startDate endDate : str) (st : Store)
  : list ParsedEntry :=
  filter (λ e : ParsedEntry,
            str_le startDate (date e) = true ∧ str_le (date e) endDate = true)
         (entries st).

End Storage.

(* ================================================================== *)
(** * src/components/WeekGrid.ts: drag to move, drag to resize *)
(* ================================================================== *)
Module WeekGrid.
Import Storage.
Local Open Scope Z_scope.

Inductive DragMode := move | resize_top | resize_bottom.

Record DragState := mkDrag {
  isDragging : bool;
  entry : option TimeEntry;
  mode : DragMode;
  initialMouseY : Z;
  initialStartSlot : Z;
  initialEndSlot : Z;
  dayIndex : Z;
}.

(** [Math.round(deltaY / slotHeight)] with [slotHeight = 15]: halves
    round up. *)
Definition deltaSlotsOf (deltaY : Z) : Z := (2 * deltaY + 15) / 30.

(** The slots computed by [handleDragMove] *)
Definition dragSlots (m : DragMode) (initialStartSlot initialEndSlot deltaSlots : Z)
  : Z * Z :=
  let newStartSlot := initialStartSlot in
  let newEndSlot := initialEndSlot in
  match m with
  | move =>
      let newStartSlot := Z.max 0 (Z.min 95 (initialStartSlot + deltaSlots)) in
      let duration := initialEndSlot - initialStartSlot in
      let newEndSlot := Z.min 96 (newStartSlot + duration) in
      let newStartSlot := newEndSlot - duration in
      (newStartSlot, newEndSlot)
  | resize_top =>
      let newStartSlot :=
        Z.max 0 (Z.min (initialEndSlot - 1) (initialStartSlot + deltaSlots)) in
      (newStartSlot, newEndSlot)
  | resize_bottom =>
      let newEndSlot :=
        Z.max (initialStartSlot + 1) (Z.min 96 (initialEndSlot + deltaSlots)) in
      (newStartSlot, newEndSlot)
  end.

(** The text of a [gridRow] style: the template [`${a} / ${b}`]. *)
Definition gridRowText (a b : Z) : str :=
  Js.String_of_Z a ++ lit " / " ++ Js.String_of_Z b.

(** The element of the dragged entry, when the grid shows it, is
    represented by the text of its [gridRow] style.  The style is taken
    to keep the text it is given; that is so for rows other than 0,
    which is no grid line (the rows of the statements are from 2
    on). *)
Definition handleDragMove (clientY : Z) (ds : DragState) (el : option str)
  : option str :=
  match entry ds, el with
  | Some _, Some _ =>
      let deltaY := clientY - initialMouseY ds in
      let deltaSlots := deltaSlotsOf deltaY in
      let '(newStartSlot, newEndSlot) :=
        dragSlots (mode ds) (initialStartSlot ds) (initialEndSlot ds) deltaSlots in
      Some (gridRowText (newStartSlot + 2) (newEndSlot + 2))
  | _, _ => el
  end.

(** The pattern of [handleDragEnd], tried at the start of [s]: a run of
    digits (group 1), optional white space, a slash, optional white
    space, a run of digits (group 2).  Digits, white space and the
    slash exclude one another, so every greedy run is decided by the
    next code unit. *)
Definition re_gridRow (s : str) : option (str * str) :=
  let m1 := Js.take_while Js.is_digit s in
  match m1 with
  | [] => None
  | _ =>
      match Js.trimStart (drop (length m1) s) with
      | "/"%char :: s' =>
          let m2 := Js.take_while Js.is_digit (Js.trimStart s') in
          match m2 with
          | [] => None
          | _ => Some (m1, m2)
          end
      | _ => None
      end
  end.

(** [gridRow.match(...)]: the pattern is not anchored, the match is the
    leftmost one. *)
Fixpoint match_gridRow (s : str) : option (str * str) :=
  match re_gridRow s with
  | Some m => Some m
  | None =>
      match s with
      | _ :: s' => match_gridRow s'
      | [] => None
      end
  end.

Definition stop_dragging (ds : DragState) : DragState :=
  mkDrag false (entry ds) (mode ds) (initialMouseY ds)
         (initialStartSlot ds) (initialEndSlot ds) (dayIndex ds).

(** The update [handleDragEnd] hands to the store, if any.  [parseInt]
    of a run of digits is the number [Number] reads from it. *)
Definition dragUpdate (ds : DragState) (el : option str)
  : option (str * PartialEntry) :=
  match entry ds, el with
  | Some e, Some gridRow =>
      '(m1, m2) ← match_gridRow gridRow;
      n1 ← Js.Number m1;
      n2 ← Js.Number m2;
      let newStartSlot := n1 - 2 in
      let newEndSlot := n2 - 2 in
      if negb (newStartSlot =? initialStartSlot ds)
         || negb (newEndSlot =? initialEndSlot ds)
      then Some (id e,
                 mkPartial None None
                           (Some (Time.slotToTime newStartSlot))
                           (Some (Time.slotToTime newEndSlot))
                           None None None None)
      else None
  | _, _ => None
  end.

(** [handleDragEnd]: after an update the grid is rendered again, which
    loads the records from the file ([render] calls [loadEntries]). *)
Definition handleDragEnd (ds : DragState) (el : option str) (st : Store)
  : DragState * Store :=
  match dragUpdate ds el with
  | Some (i, updates) => (stop_dragging ds, loadEntries (updateEntry i updates st))
  | None => (stop_dragging ds, st)
  end.

(** ** Painting a new entry *)
Record PaintState := mkPaint {
  isPainting : bool;
  p_dayIndex : Z;
  startSlot : Z;
  endSlot : Z;
}.

(** [handleCellMouseDown], for the left button ([button = 0]) *)
Definition handleCellMouseDown (button : Z) (dayIndex slot : Z)
    (ds : DragState) (ps : PaintState) : PaintState :=
  if negb (button =? 0) then ps
  else if isDragging ds then ps
  else mkPaint true dayIndex slot slot.

(** [handlePaintMove]: [y] is the pointer position inside the grid; the
    header is 40 high, a slot 15. *)
Definition handlePaintMove (y : Z) (ps : PaintState) : PaintState :=
  let headerHeight := 40 in
  let slotHeight := 15 in
  let slot := (y - headerHeight) / slotHeight in
  let clampedSlot := Z.max 0 (Z.min 95 slot) in
  mkPaint (isPainting ps) (p_dayIndex ps) (startSlot ps) clampedSlot.

(** [handlePaintEnd]: the day and the span handed to the inline editor *)
Definition handlePaintEnd (ps : PaintState) : PaintState * (Z * Z * Z) :=
  let minSlot := Z.min (startSlot ps) (endSlot ps) in
  let maxSlot := Z.max (startSlot ps) (endSlot ps) + 1 in
  (mkPaint false (p_dayIndex ps) (startSlot ps) (endSlot ps),
   (p_dayIndex ps, minSlot, maxSlot)).

(** The tags and the description read from a typed text, as
    [createEntry] and the confirmation of an edit do. *)
Definition textTags (text : str) : list str :=
  drop 1 <$> Js.match_g Js.re_tag 0 text.

Definition textDescription (text : str) : str :=
  Js.trim (Js.replace_g Js.re_tag 0 text).

(** [createEntry]; [date] is [formatDate(this.weekDates[dayIndex])].
    The result is the store after the grid is rendered again, which
    loads the records from the file, and the record [addEntry]
    returned. *)
Definition createEntry (date : str) (startSlot endSlot : Z) (description : str)
    (st : Store) : Store * ParsedEntry :=
  let startTime := Time.slotToTime startSlot in
  let endTime := Time.slotToTime endSlot in
  let tags := textTags description in
  let '(st, newEntry) :=
    addEntry (mkTimeEntry [] date startTime endTime
                          (textDescription description) tags false false) st in
  (loadEntries st, newEntry).

(** The text [handleEditEntry] puts in the editor *)
Definition existingText (e : TimeEntry) : str :=
  description e ++
  match tags e with
  | [] => []
  | _ => lit " " ++ Js.join (lit " ") ((λ t, "#" :: t) <$> tags e)
  end.

(** [onConfirm] of that editor; the grid is rendered again afterwards,
    which loads the records from the file. *)
Definition confirmEdit (e : TimeEntry) (text : str) (st : Store) : Store :=
  let tags := textTags text in
  loadEntries
    (updateEntry (id e)
       (mkPartial None None None None (Some (textDescription text)) (Some tags) None None)
       st).

(** [handleResizeStart] and [handleDragStart], for an entry of a day
    that is shown.  Slots that are no numbers are outside this model. *)
Definition startDrag (m : DragMode) (e : TimeEntry) (clientY dayIndex : Z)
  : option DragState :=
  s0 ← Time.timeToSlot (startTime e);
  e0 ← Time.timeToSlot (endTime e);
  Some (mkDrag true (Some e) m clientY s0 e0 dayIndex).

(** The [gridRow] that [createTimeEntryElement] gives the element of an
    entry: the start rounded down and the end rounded up to a slot.
    Times that are no numbers are outside this model. *)
Definition entryGridRow (e : TimeEntry) : option str :=
  startMinutes ← Time.parseTimeToMinutes (startTime e);
  endMinutes ← Time.parseTimeToMinutes (endTime e);
  let startSlot := startMinutes / 15 in
  let endSlot := - (- endMinutes / 15) in
  Some (gridRowText (startSlot + 2) (endSlot + 2)).

End WeekGrid.

(* ================================================================== *)
(** * The pomodoro timer *)
(* ================================================================== *)
Module Pomodoro.
Local Open Scope Z_scope.

Inductive TimerState := idle | running | paused.
Inductive TimerMode := work | break | longBreak.

Record PomodoroTimerOptions := mkOptions {
  workMinutes : Z;
  breakMinutes : Z;
  longBreakMinutes : Z;
  pomodorosBeforeLongBreak : Z;
}.

(** The calls of the two callbacks of the options, in order.  Dates
    are milliseconds. *)
Inductive Event :=
| onTick (remainingSeconds : Z) (mode : TimerMode)
| onComplete (mode : TimerMode) (startTime : option Z) (endTime : Z).

Record PomodoroTimer := mkTimer {
  options : PomodoroTimerOptions;
  state : TimerState;
  mode : TimerMode;
  remainingSeconds : Z;
  startTime : option Z;
  intervalId : bool;  (* whether an interval is installed *)
  completedPomodoros : Z;
}.

Definition getDurationForMode (o : PomodoroTimerOptions) (m : TimerMode) : Z :=
  match m with
  | work => workMinutes o * 60
  | break => breakMinutes o * 60
  | longBreak => longBreakMinutes o * 60
  end.

Definition new (o : PomodoroTimerOptions) : PomodoroTimer :=
  mkTimer o idle work (workMinutes o * 60) None false 0.

Definition start (now : Z) (t : PomodoroTimer) : PomodoroTimer :=
  match state t with
  | running => t
  | _ =>
      let full := getDurationForMode (options t) (mode t) in
      let startTime :=
        if remainingSeconds t <? full
        then now - (full - remainingSeconds t) * 1000
        else now in
      mkTimer (options t) running (mode t) (remainingSeconds t)
              (Some startTime) true (completedPomodoros t)
  end.

Definition pause (t : PomodoroTimer) : PomodoroTimer :=
  match state t with
  | running =>
      mkTimer (options t) paused (mode t) (remainingSeconds t)
              (startTime t) false (completedPomodoros t)
  | _ => t
  end.

Definition stop (t : PomodoroTimer) : PomodoroTimer :=
  mkTimer (options t) idle work (getDurationForMode (options t) work)
          None false (completedPomodoros t).

Definition reset (t : PomodoroTimer) : PomodoroTimer :=
  let t := stop t in
  mkTimer (options t) (state t) (mode t) (remainingSeconds t)
          (startTime t) (intervalId t) 0.

Definition complete (now : Z) (t : PomodoroTimer) : PomodoroTimer * list Event :=
  let endTime := now in
  let ev := onComplete (mode t) (startTime t) endTime in
  let '(mode', completed') :=
    match mode t with
    | work =>
        let completed := completedPomodoros t + 1 in
        if completed >=? pomodorosBeforeLongBreak (options t)
        then (longBreak, 0)
        else (break, completed)
    | _ => (work, completedPomodoros t)
    end in
  (mkTimer (options t) idle mode'
           (getDurationForMode (options t) mode') None false completed',
   [ev]).

Definition tick (now : Z) (t : PomodoroTimer) : PomodoroTimer * list Event :=
  let t := mkTimer (options t) (state t) (mode t) (remainingSeconds t - 1)
                   (startTime t) (intervalId t) (completedPomodoros t) in
  let ev := onTick (remainingSeconds t) (mode t) in
  if remainingSeconds t <=? 0
  then let '(t, evs) := complete now t in (t, ev :: evs)
  else (t, [ev]).

(** [Partial<PomodoroTimerOptions>], the numbers of it *)
Record PartialOptions := mkPartialOptions {
  o_workMinutes : option Z;
  o_breakMinutes : option Z;
  o_longBreakMinutes : option Z;
  o_pomodorosBeforeLongBreak : option Z;
}.

Definition updateOptions (p : PartialOptions) (t : PomodoroTimer) : PomodoroTimer :=
  let o := mkOptions (default (workMinutes (options t)) (o_workMinutes p))
                     (default (breakMinutes (options t)) (o_breakMinutes p))
                     (default (longBreakMinutes (options t)) (o_longBreakMinutes p))
                     (default (pomodorosBeforeLongBreak (options t))
                              (o_pomodorosBeforeLongBreak p)) in
  mkTimer o (state t) (mode t)
          (match state t with
           | idle => getDurationForMode o (mode t)
           | _ => remainingSeconds t
           end)
          (startTime t) (intervalId t) (completedPomodoros t).

Definition setStartTimeOffset (now minutesAgo : Z) (t : PomodoroTimer) : PomodoroTimer :=
  match state t, startTime t with
  | running, Some _ =>
      mkTimer (options t) (state t) (mode t) (remainingSeconds t)
              (Some (now - minutesAgo * 60 * 1000)) (intervalId t)
              (completedPomodoros t)
  | _, _ => t
  end.

Definition getFormattedTime (t : PomodoroTimer) : str :=
  Time.formatSeconds (remainingSeconds t).

(** What can happen to a timer: the calls of its public methods, and the
    firing of its interval, which only an installed interval does. *)
Inductive Op :=
| OpStart (now : Z)
| OpPause
| OpStop
| OpReset
| OpTick (now : Z)
| OpUpdateOptions (p : PartialOptions)
| OpSetStartTimeOffset (now minutesAgo : Z).

Definition step (op : Op) (t : PomodoroTimer) : PomodoroTimer * list Event :=
  match op with
  | OpStart now => (start now t, [])
  | OpPause => (pause t, [])
  | OpStop => (stop t, [])
  | OpReset => (reset t, [])
  | OpTick now => if intervalId t then tick now t else (t, [])
  | OpUpdateOptions p => (updateOptions p t, [])
  | OpSetStartTimeOffset now minutesAgo => (setStartTimeOffset now minutesAgo t, [])
  end.

Fixpoint run (ops : list Op) (t : PomodoroTimer) : PomodoroTimer * list Event :=
  match ops with
  | [] => (t, [])
  | op :: ops =>
      let '(t, evs) := step op t in
      let '(t, evs') := run ops t in
      (t, evs ++ evs')
  end.

End Pomodoro.

(* ================================================================== *)
(** * Vocabulary of the statements, and the examples they are tried on *)
(* ================================================================== *)
Section TimerVocabulary.
Import Pomodoro.
Local Open Scope Z_scope.

(** A fresh timer with the default settings: 25, 5 and 15 minutes, four
    pomodoros before the long break. *)
Definition timer4 : PomodoroTimer := new (mkOptions 25 5 15 4).

(** One work session followed by its break, both run to completion. *)
Definition work_then_break (t : PomodoroTimer) : PomodoroTimer :=
  (complete 0 (complete 0 t).1).1.

End TimerVocabulary.

Section DragVocabulary.
Local Open Scope Z_scope.

(** [clamp x lo hi] as the specification understands it. *)
Definition clamp (x lo hi : Z) : Z :=
  if x <? lo then lo else if hi <? x then hi else x.

End DragVocabulary.

Section StoreVocabulary.
Import Js Storage WeekGrid.

(** The fields of the grammar: a whole string that the date pattern,
    or the time pattern, of [ENTRY_REGEX] accepts. *)
Definition is_date (d : str) : Prop := re_date d = Some (d, []).
Definition is_time (t : str) : Prop := re_time t = Some (t, []).

(** [n] decimal digits. *)
Definition digits (n : nat) (d : str) : Prop :=
  length d = n ∧ Forall (λ c, is_digit c = true) d.

(** A line is an entry line when its trimmed text matches the
    grammar. *)
Definition is_entry_line (l : str) : Prop := is_Some (ENTRY_REGEX (trim l)).

(** A store of one record, with its file, and a drag of that record by
    its lower edge. *)
Definition meeting : ParsedEntry :=
  mkParsed (mkTimeEntry (lit "20250121_1100_1230") (lit "2025-01-21")
                        (lit "11:00") (lit "12:30") (lit "Meeting") [] false false)
           (lit "2025-01-21 11:00 - 12:30 | Meeting").

Definition store1 : Store :=
  mkStore [meeting] (Some (lit "2025-01-21 11:00 - 12:30 | Meeting")) false false [].

Definition drag1 : DragState :=
  mkDrag true (Some (te meeting)) resize_bottom 0 44 50 1.

(** A text of white space only. *)
Definition blank (s : str) : Prop := Forall (λ c, is_space c = true) s.

(** A text that contains [pat] in some letter case. *)
Definition contains_ci (pat s : str) : Prop :=
  ∃ p m q, s = p ++ m ++ q ∧ toLowerCase m = pat.

(** A description part that is [break] between blanks, in some letter
    case. *)
Definition is_break_text (desc : str) : Prop :=
  ∃ l m r, desc = l ++ m ++ r ∧ blank l ∧ blank r ∧ toLowerCase m = lit "break".

(** A matcher whose matches hold no space: the text after a space has
    no say in a match that begins before it. *)
Definition space_local (m : matcher) : Prop :=
  (∀ q b, m (q ++ " " :: b) = m q) ∧ (∀ q n, m q = Some n → n ≤ length q).

(** A non-empty text that begins and ends with a visible character. *)
Definition solid (s : str) : Prop :=
  ∃ c0 s0 c1 s1,
    s = c0 :: s0 ∧ s = s1 ++ [c1] ∧ is_space c0 = false ∧ is_space c1 = false.

(** A text without line terminator, as group 4 of the grammar wants it. *)
Definition one_line (s : str) : Prop :=
  forallb (λ c, negb (is_line_terminator c)) s = true.

(** A tag that the encoding can carry: a non-empty word. *)
Definition tag_ok (t : str) : bool :=
  negb (bool_decide (t = [])) && forallb is_word t.

(** The records that survive the round trip: the identifier is the
    generated one; date and times are well-formed; the description is
    trimmed, of one line, and holds no tag and no marker in any letter
    case; the tags are words; and the record is a break exactly when
    it is the bare text [break]. *)
Record plain_entry (e : TimeEntry) : Prop := mk_plain {
  pe_id : id e = generateStableId (date e) (startTime e) (endTime e);
  pe_date : is_date (date e);
  pe_start : is_time (startTime e);
  pe_end : is_time (endTime e);
  pe_trimmed : trim (description e) = description e;
  pe_one_line : one_line (description e);
  pe_no_tag : match_g re_tag 0 (description e) = [];
  pe_no_pomodoro :
    includes (toLowerCase (description e)) (lit "(pomodoro)") = false;
  pe_no_break :
    includes (toLowerCase (description e)) (lit "(break)") = false;
  pe_tags : forallb tag_ok (tags e) = true;
  pe_isBreak :
    isBreak e =
      bool_decide (toLowerCase (description e) = lit "break")
      && bool_decide (tags e = []) && negb (isPomodoro e);
}.

(** The pomodoro marker of the encoding, when the flag is set. *)
Definition pom_seg (p : bool) : list str :=
  if p then [lit "(pomodoro)"] else [].

(** What follows the description in the encoding, piece by piece. *)
Definition segments (T : list str) (P : bool) : list str :=
  ((λ t, "#" :: t) <$> T) ++ pom_seg P.

(** The description as a piece of the line, when there is one. *)
Definition first_seg (D : str) : list str :=
  match D with [] => [] | _ => [D] end.

(** The text [formatEntry] writes after the pipe, unless it writes
    [Break]. *)
Definition encoded (D : str) (T : list str) (P : bool) : str :=
  join (lit " ") (D :: segments T P).

(** The description part as group 4 of the grammar sees it. *)
Definition rest_of (D : str) (T : list str) (P : bool) : str :=
  join (lit " ") (first_seg D ++ segments T P).

(** The three replacements of [parseDescription], one after the other. *)
Definition strip (s : str) : str :=
  replace_g (re_lit_i (lit "(break)")) 0
    (replace_g (re_lit_i (lit "(pomodoro)")) 0 (replace_g re_tag 0 s)).



End StoreVocabulary.

Section TimeVocabulary.
Import Js Time.
Local Open Scope Z_scope.

(** The seconds a clock text stands for: [MM:SS] or [HH:MM:SS]. *)
Definition readClock (s : str) : option Z :=
  match Number <$> split ":" s with
  | [Some a; Some b] => Some (a * 60 + b)
  | [Some a; Some b; Some c] => Some (a * 3600 + b * 60 + c)
  | _ => None
  end.

(** A number below 100 as [String(n).padStart(2, "0")] writes it. *)
Definition pad2 (n : Z) : str := padStart0 2 (String_of_Z n).

(** The ten digits. *)
Definition digit_chars : list ascii :=
  ["0"; "1"; "2"; "3"; "4"; "5"; "6"; "7"; "8"; "9"]%char.

End TimeVocabulary.

Section ParseVocabulary.
Import Js Storage.

(** What every record read from a file satisfies. *)
Definition parsed_ok (e : ParsedEntry) : Prop :=
  is_date (date e) ∧ is_time (startTime e) ∧ is_time (endTime e) ∧
  id e = generateStableId (date e) (startTime e) (endTime e) ∧
  trim (description e) = description e ∧
  forallb tag_ok (tags e) = true ∧
  trim (originalLine e) = originalLine e ∧
  is_Some (ENTRY_REGEX (originalLine e)).

(** A record and a file that holds its line under a heading. *)
Definition deep_work : ParsedEntry :=
  mkParsed (mkTimeEntry (lit "20250121_1300_1330") (lit "2025-01-21")
              (lit "13:00") (lit "13:30") (lit "Deep work") [lit "dev"] true false)
           (lit "2025-01-21 13:00-13:30|Deep work #dev (pomodoro)").

Definition log_file : str :=
  lit "# Log" ++ LF :: lit "  2025-01-21 13:00-13:30|Deep work #dev (pomodoro) ".

Definition log_store : Store := mkStore [deep_work] (Some log_file) false false [].

(** The records in memory are the ones a reload would read. *)
Definition in_sync (st : Store) : Prop :=
  entries st = parseContent (default [] (file st)).

(** The record [updateEntry] stores: the old one with the updates, under
    the identifier generated from its new fields. *)
Definition mergedEntry (old : TimeEntry) (updates : PartialEntry) : TimeEntry :=
  let m := merge old updates in
  with_id (generateStableId (date m) (startTime m) (endTime m)) m.

(** The record [addEntry] stores. *)
Definition addedEntry (e : TimeEntry) : TimeEntry :=
  with_id (generateStableId (date e) (startTime e) (endTime e)) e.

(** A plain record whose line does not end in a blank. *)
Definition writable_entry (e : TimeEntry) : Prop :=
  plain_entry e ∧ (description e ≠ [] ∨ tags e ≠ [] ∨ isPomodoro e = true).

End ParseVocabulary.

Section QueryVocabulary.
Import Js Storage.
Local Open Scope Z_scope.

(** The number a run of digits stands for, as [Number] reads it. *)
Definition digitsValue (s : str) : Z :=
  fold_left (λ acc c, 10 * acc + digit_val c) s 0.

(** A date as one number: year, month and day side by side. *)
Definition dateKey (d : str) : option Z :=
  match split "-" d with
  | [y; m; dd] =>
      y ← Number y; m ← Number m; dd ← Number dd; Some (y * 10000 + m * 100 + dd)
  | _ => None
  end.

End QueryVocabulary.

Section TimerStateVocabulary.
Import Pomodoro.
Local Open Scope Z_scope.

(** What holds of a timer whatever is done with it: an interval is
    installed exactly while it runs, a start time is recorded exactly
    while it is not idle, and an idle timer shows the full duration of
    its mode. *)
Definition timer_ok (t : PomodoroTimer) : Prop :=
  (intervalId t = true ↔ state t = running) ∧
  (startTime t = None ↔ state t = idle) ∧
  (state t = idle → remainingSeconds t = getDurationForMode (options t) (mode t)).

(** An operation that leaves the number [n] of pomodoros before the
    long break as it is: a call of [updateOptions] does when it does
    not give the number or gives [n] again, every other operation
    does. *)
Definition keeps_count_setting (n : Z) (op : Op) : Prop :=
  match op with
  | OpUpdateOptions p =>
      o_pomodorosBeforeLongBreak p = None ∨ o_pomodorosBeforeLongBreak p = Some n
  | _ => True
  end.

(** The timer with other remaining seconds. *)
Definition set_remaining (r : Z) (t : PomodoroTimer) : PomodoroTimer :=
  mkTimer (options t) (state t) (mode t) r (startTime t) (intervalId t)
          (completedPomodoros t).

(** The tick events of [k] ticks from [r] remaining seconds. *)
Definition tickEvents (r : Z) (m : TimerMode) (k : nat) : list Event :=
  (λ j : nat, onTick (r - 1 - Z.of_nat j) m) <$> seq 0 k.

End TimerStateVocabulary.

Section GridVocabulary.
Import Js Time Storage WeekGrid.
Local Open Scope Z_scope.

(** The pointer moves of one paint gesture, in order. *)
Definition paintMoves (ys : list Z) (ps : PaintState) : PaintState :=
  foldl (λ ps y, handlePaintMove y ps) ps ys.

(** The update that snaps a span of minutes to the slots around it. *)
Definition snapUpdate (startMinutes endMinutes : Z) : PartialEntry :=
  mkPartial None None
            (Some (slotToTime (startMinutes / 15)))
            (Some (slotToTime (endMinutes / 15 + 1)))
            None None None None.

(** A record whose times are off the slot boundaries. *)
Definition standup : TimeEntry :=
  mkTimeEntry (lit "20250121_0905_0950") (lit "2025-01-21") (lit "09:05") (lit "09:50")
              (lit "Standup") [lit "team"] false false.

End GridVocabulary.

Section TextVocabulary.
Import Js Time.
Local Open Scope Z_scope.

(** The integer a decimal text stands for, with its sign. *)
Definition readSigned (s : str) : option Z :=
  match s with
  | [] => None
  | "-"%char :: t => match t with [] => None | _ => Z.opp <$> Number t end
  | _ => Number s
  end.

(** The minutes one part of a duration text stands for: a number and
    its unit. *)
Definition readPart (s : str) : option Z :=
  match reverse s with
  | "h"%char :: n => (λ h, h * 60) <$> readSigned (reverse n)
  | "m"%char :: n => readSigned (reverse n)
  | _ => None
  end.

(** The minutes a duration text stands for: the sum of its parts. *)
Definition readDuration (s : str) : option Z :=
  foldr (λ p acc, a ← acc; x ← readPart p; Some (x + a)) (Some 0) (split " " s).

(** The text begins with a word character. *)
Definition starts_word (s : str) : bool :=
  match s with
  | c :: _ => is_word c
  | [] => false
  end.

(** A text in which no hash is followed by a word character. *)
Fixpoint tagfree (s : str) : bool :=
  match s with
  | c :: s' => negb (bool_decide (c = "#"%char) && starts_word s') && tagfree s'
  | [] => true
  end.

End TextVocabulary.

Section ZoneVocabulary.
Import Time.
Local Open Scope Z_scope.

(** A time zone in which every wall-clock time of every day exists. *)
Definition plain_zone (day ms : Z) : Date := mkDate day ms.

(** A time zone in which the first hour of day 19974 (Sunday
    8 September 2024) is skipped: a time asked for in that hour
    results an hour later. *)
Definition skipped_midnight_zone (day ms : Z) : Date :=
  if (day =? 19974) && (0 <=? ms) && (ms <? 3600000)
  then mkDate day (ms + 3600000)
  else mkDate day ms.

(** A time zone that skips no day: what is asked for on a day results
    on that day. *)
Definition keeps_days (norm : Z → Z → Date) : Prop :=
  ∀ day ms, dayNumber (norm day ms) = day.

(** A time zone in which every day begins at midnight. *)
Definition has_midnights (norm : Z → Z → Date) : Prop :=
  ∀ day, norm day 0 = mkDate day 0.

(** The days a [Date] can hold, a week away from both ends: the range
    is a hundred million days either side of 1 January 1970. *)
Definition day_in_range (date : Date) : Prop :=
  -99999990 <= dayNumber date <= 99999990.

End ZoneVocabulary.

Section BreakVocabulary.
Import Js Storage.

(** A break as the timer logs it and a reload reads it. *)
Definition short_break : ParsedEntry :=
  mkParsed (mkTimeEntry (lit "20250121_1400_1410") (lit "2025-01-21")
                        (lit "14:00") (lit "14:10") (lit "Break") [] false true)
           (lit "2025-01-21 14:00 - 14:10 | Break").

(** A store that holds this break, in memory and in its file. *)
Definition break_store : Store :=
  mkStore [short_break] (Some (lit "2025-01-21 14:00 - 14:10 | Break")) false false [].

End BreakVocabulary.

(* ================================================================== *)
(** * The pomodoro cycle *)
(* ================================================================== *)
Section PomodoroFacts.
Import Pomodoro.
Local Open Scope Z_scope.

Lemma complete_emits now t :
  (complete now t).2 = [onComplete (mode t) (startTime t) now].
Proof.
  unfold complete.
  destruct (mode t); [destruct (_ >=? _)|..]; reflexivity.
Qed.

(** C4. Completion of a work session counts it and leads to the long
    break (count back to 0) once the count reaches the configured
    number, to the short break otherwise; completion of either break
    leads back to work and keeps the count.  The remaining seconds are
    the full duration of the new mode, which is sixty times the minutes
    configured for it, and the timer is idle, with no interval
    installed. *)
Theorem complete_transition (now : Z) (t : PomodoroTimer) :
  let t' := (complete now t).1 in
  (mode t = work →
     (completedPomodoros t + 1 >= pomodorosBeforeLongBreak (options t) →
        mode t' = longBreak ∧ completedPomodoros t' = 0) ∧
     (completedPomodoros t + 1 < pomodorosBeforeLongBreak (options t) →
        mode t' = break ∧ completedPomodoros t' = completedPomodoros t + 1)) ∧
  (mode t = break ∨ mode t = longBreak →
     mode t' = work ∧ completedPomodoros t' = completedPomodoros t) ∧
  remainingSeconds t' = getDurationForMode (options t) (mode t') ∧
  (mode t' = work → remainingSeconds t' = workMinutes (options t) * 60) ∧
  (mode t' = break → remainingSeconds t' = breakMinutes (options t) * 60) ∧
  (mode t' = longBreak → remainingSeconds t' = longBreakMinutes (options t) * 60) ∧
  options t' = options t ∧
  state t' = idle ∧ intervalId t' = false ∧ startTime t' = None.
Proof.
  unfold complete; cbn zeta.
  destruct (mode t) eqn:Hm.
  - destruct (Z.geb_spec (completedPomodoros t + 1)
                         (pomodorosBeforeLongBreak (options t))) as [Hge|Hlt];
      cbn; intuition (first [discriminate | lia | exfalso; lia]).
  - cbn; intuition discriminate.
  - cbn; intuition discriminate.
Qed.

Lemma complete_transition_witness :
  mode (complete 1500000 (start 0 timer4)).1 = break ∧
  completedPomodoros (complete 1500000 (start 0 timer4)).1 = 1 ∧
  remainingSeconds (complete 1500000 (start 0 timer4)).1 = 300.
Proof.
  destruct (complete_transition 1500000 (start 0 timer4))
    as (Hw & _ & _ & _ & Hb & _).
  destruct (Hw eq_refl) as [_ Hlt].
  destruct Hlt as [Hm Hc]; [vm_compute; reflexivity|].
  split; [exact Hm|]. split; [exact Hc|].
  rewrite (Hb Hm). reflexivity.
Defined.

(** The last tick of a running timer completes it. *)
Lemma tick_completes now t :
  state t = running → remainingSeconds t <= 1 →
  ∃ t0, tick now t = (let '(t', evs) := complete now t0 in
                      (t', onTick (remainingSeconds t - 1) (mode t) :: evs))
        ∧ mode t0 = mode t ∧ completedPomodoros t0 = completedPomodoros t
        ∧ options t0 = options t.
Proof.
  intros _ Hr. unfold tick. cbn [remainingSeconds mode].
  destruct (Z.leb_spec (remainingSeconds t - 1) 0); [|lia].
  eexists; split; [reflexivity|]. done.
Qed.

(** With four pomodoros before the long break: the first three work
    completions lead to the short break, the fourth to the long break
    with the count back to 0, the fifth to the short break again. *)
Lemma pomodoro_cycle_of_four :
  let t1 := (complete 0 timer4).1 in
  let t2 := (complete 0 (work_then_break timer4)).1 in
  let t3 := (complete 0 (work_then_break (work_then_break timer4))).1 in
  let t4 := (complete 0 (work_then_break (work_then_break (work_then_break timer4)))).1 in
  let t5 := (complete 0 (complete 0 t4).1).1 in
  (mode t1, completedPomodoros t1) = (break, 1) ∧
  (mode t2, completedPomodoros t2) = (break, 2) ∧
  (mode t3, completedPomodoros t3) = (break, 3) ∧
  (mode t4, completedPomodoros t4) = (longBreak, 0) ∧
  (mode t5, completedPomodoros t5) = (break, 1).
Proof. vm_compute. done. Qed.

End PomodoroFacts.

(* ================================================================== *)
(** * Slot arithmetic of the drag handlers *)
(* ================================================================== *)
Section DragFacts.
Import WeekGrid.
Local Open Scope Z_scope.

Lemma max_min_clamp x lo hi : lo <= hi → Z.max lo (Z.min hi x) = clamp x lo hi.
Proof.
  intros Hle. unfold clamp.
  destruct (Z.ltb_spec x lo), (Z.ltb_spec hi x); lia.
Qed.

(** C5. A move of a span inside the day keeps its duration and stays
    inside the day: the start is clamped to 0..95, the end is cut at
    96 and the start is taken back from the end. *)
Theorem move_keeps_duration (initialStart initialEnd delta : Z) :
  0 <= initialStart < initialEnd ∧ initialEnd <= 96 →
  let duration := initialEnd - initialStart in
  let newEnd := Z.min 96 (clamp (initialStart + delta) 0 95 + duration) in
  let newStart := newEnd - duration in
  dragSlots move initialStart initialEnd delta = (newStart, newEnd) ∧
  newEnd - newStart = initialEnd - initialStart ∧
  0 <= newStart < newEnd ∧ newEnd <= 96.
Proof.
  intros [[H0 Hlt] H96]. cbn zeta. unfold dragSlots.
  rewrite max_min_clamp by lia.
  split; [reflexivity|].
  unfold clamp.
  destruct (Z.ltb_spec (initialStart + delta) 0),
           (Z.ltb_spec 95 (initialStart + delta)); lia.
Qed.

Lemma move_keeps_duration_witness :
  dragSlots move 90 95 10 = (91, 96).
Proof.
  destruct (move_keeps_duration 90 95 10) as [H _]; [lia|].
  exact H.
Defined.

(** C6. Resizing at the top keeps the end and yields a start in
    0..end-1; resizing at the bottom keeps the start and yields an end
    in start+1..96: at least one slot always remains. *)
Theorem resize_keeps_one_slot (initialStart initialEnd delta : Z) :
  0 <= initialStart < initialEnd ∧ initialEnd <= 96 →
  (let newStart := clamp (initialStart + delta) 0 (initialEnd - 1) in
   dragSlots resize_top initialStart initialEnd delta = (newStart, initialEnd) ∧
   0 <= newStart < initialEnd) ∧
  (let newEnd := clamp (initialEnd + delta) (initialStart + 1) 96 in
   dragSlots resize_bottom initialStart initialEnd delta = (initialStart, newEnd) ∧
   initialStart < newEnd ∧ newEnd <= 96).
Proof.
  intros [[H0 Hlt] H96]. cbn zeta. unfold dragSlots.
  rewrite !max_min_clamp by lia.
  split; (split; [reflexivity|]); unfold clamp;
    repeat match goal with |- context [?a <? ?b] => destruct (Z.ltb_spec a b) end;
    lia.
Qed.

Lemma resize_keeps_one_slot_witness :
  dragSlots resize_top 40 44 100 = (43, 44) ∧
  dragSlots resize_bottom 40 44 (-100) = (40, 41).
Proof.
  split.
  - destruct (resize_keeps_one_slot 40 44 100) as [[H _] _]; [lia|exact H].
  - destruct (resize_keeps_one_slot 40 44 (-100)) as [_ [H _]]; [lia|exact H].
Defined.

(** What [handleDragMove] writes on the element is the pair above,
    shifted by the header row. *)
Lemma handleDragMove_gridRow clientY ds e el :
  entry ds = Some e →
  handleDragMove clientY ds (Some el) =
    let '(a, b) := dragSlots (mode ds) (initialStartSlot ds) (initialEndSlot ds)
                             (deltaSlotsOf (clientY - initialMouseY ds)) in
    Some (gridRowText (a + 2) (b + 2)).
Proof. intros He. unfold handleDragMove. rewrite He. reflexivity. Qed.

End DragFacts.

(* ================================================================== *)
(** * Code units *)
(* ================================================================== *)
Section CharFacts.
Import Js.

Ltac by_cases c :=
  destruct c as [[] [] [] [] [] [] [] []]; vm_compute; try done;
  intuition discriminate.

Lemma digit_not_sep c : is_digit c = true → c ≠ ":" ∧ c ≠ "-" ∧ c ≠ "_".
Proof. by_cases c. Qed.

Lemma digit_not_space c : is_digit c = true → is_space c = false.
Proof. by_cases c. Qed.

Lemma word_not_space c : is_word c = true → is_space c = false.
Proof. by_cases c. Qed.

Lemma word_not_special c :
  is_word c = true → c ≠ "#" ∧ c ≠ "(" ∧ c ≠ ")" ∧ c ≠ " ".
Proof. by_cases c. Qed.

Lemma lower_space c : is_space (lower_char c) = is_space c.
Proof. by_cases c. Qed.

Lemma lower_eq_paren c : lower_char c = "(" ↔ c = "(".
Proof. by_cases c. Qed.

Lemma space_not_terminator c : is_space c = false → is_line_terminator c = false.
Proof. by_cases c. Qed.

End CharFacts.

(* ================================================================== *)
(** * Identifiers *)
(* ================================================================== *)
Section IdFacts.
Import Js Storage.

Lemma re_digits_Some n s d r :
  re_digits n s = Some (d, r) → s = d ++ r ∧ digits n d.
Proof.
  unfold re_digits. case_bool_decide as Hlen; cbn [andb]; [|done].
  destruct (forallb is_digit (take n s)) eqn:Hd; [|done].
  intros [= <- <-]. rewrite take_drop. repeat split; [done|].
  apply Forall_forall. intros c Hc.
  rewrite forallb_forall in Hd. apply Hd. by apply list_elem_of_In.
Qed.

Lemma re_digits_app n d r : digits n d → re_digits n (d ++ r) = Some (d, r).
Proof.
  intros [Hlen Hd]. unfold re_digits.
  rewrite take_app_length', drop_app_length' by done.
  rewrite bool_decide_eq_true_2 by done. cbn [andb].
  replace (forallb is_digit d) with true; [done|].
  symmetry. apply forallb_forall. intros c Hc.
  rewrite Forall_forall in Hd. apply Hd. by apply list_elem_of_In.
Qed.

Lemma re_char_Some c s r : re_char c s = Some r → s = c :: r.
Proof. destruct s as [|x s]; cbn; [done|]. case_decide; naive_solver. Qed.

Lemma re_date_Some s d r :
  re_date s = Some (d, r) →
  s = d ++ r ∧
  ∃ y m dd, d = y ++ "-" :: m ++ "-" :: dd ∧ digits 4 y ∧ digits 2 m ∧ digits 2 dd.
Proof.
  unfold re_date. intros H.
  destruct (re_digits 4 s) as [[y s1]|] eqn:E1; [|done]. cbn in H.
  destruct (re_char "-" s1) as [s2|] eqn:E2; [|done]. cbn in H.
  destruct (re_digits 2 s2) as [[m s3]|] eqn:E3; [|done]. cbn in H.
  destruct (re_char "-" s3) as [s4|] eqn:E4; [|done]. cbn in H.
  destruct (re_digits 2 s4) as [[dd s5]|] eqn:E5; [|done]. cbn in H.
  injection H as <- <-.
  apply re_digits_Some in E1 as [-> ?], E3 as [-> ?], E5 as [-> ?].
  apply re_char_Some in E2 as ->, E4 as ->.
  split; [by rewrite <- !app_assoc; cbn; rewrite <- !app_assoc|].
  by exists y, m, dd.
Qed.

Lemma re_time_Some s t r :
  re_time s = Some (t, r) →
  s = t ++ r ∧ ∃ h m, t = h ++ ":" :: m ∧ digits 2 h ∧ digits 2 m.
Proof.
  unfold re_time. intros H.
  destruct (re_digits 2 s) as [[h s1]|] eqn:E1; [|done]. cbn in H.
  destruct (re_char ":" s1) as [s2|] eqn:E2; [|done]. cbn in H.
  destruct (re_digits 2 s2) as [[m s3]|] eqn:E3; [|done]. cbn in H.
  injection H as <- <-.
  apply re_digits_Some in E1 as [-> ?], E3 as [-> ?].
  apply re_char_Some in E2 as ->.
  split; [by rewrite <- !app_assoc|]. by exists h, m.
Qed.

Lemma re_date_app y m dd r :
  digits 4 y → digits 2 m → digits 2 dd →
  re_date ((y ++ "-" :: m ++ "-" :: dd) ++ r) = Some (y ++ "-" :: m ++ "-" :: dd, r).
Proof.
  intros Hy Hm Hd. unfold re_date.
  rewrite <- app_assoc, re_digits_app by done. cbn.
  rewrite decide_True by done. cbn.
  rewrite <- app_assoc, re_digits_app by done. cbn.
  rewrite decide_True by done. cbn.
  by rewrite re_digits_app.
Qed.

Lemma re_time_app h m r :
  digits 2 h → digits 2 m →
  re_time ((h ++ ":" :: m) ++ r) = Some (h ++ ":" :: m, r).
Proof.
  intros Hh Hm. unfold re_time.
  rewrite <- app_assoc, re_digits_app by done. cbn.
  rewrite decide_True by done. cbn.
  by rewrite re_digits_app.
Qed.

Lemma is_date_app d r : is_date d → re_date (d ++ r) = Some (d, r).
Proof.
  intros H. apply re_date_Some in H as [_ (y & m & dd & -> & ? & ? & ?)].
  by apply re_date_app.
Qed.

Lemma is_time_app t r : is_time t → re_time (t ++ r) = Some (t, r).
Proof.
  intros H. apply re_time_Some in H as [_ (h & m & -> & ? & ?)].
  by apply re_time_app.
Qed.

Local Abbreviation id_keeps := (λ c : ascii, ¬ (c = ":" ∨ c = "-")).

Lemma filter_digits n d : digits n d → filter id_keeps d = d.
Proof.
  intros [_ Hd]. induction Hd as [|c d Hc _ IH]; [done|].
  rewrite filter_cons_True, IH; [done|].
  apply digit_not_sep in Hc as (? & ? & ?). intros [?|?]; done.
Qed.

Lemma generateStableId_digits y m dd sh sm eh em :
  digits 4 y → digits 2 m → digits 2 dd →
  digits 2 sh → digits 2 sm → digits 2 eh → digits 2 em →
  generateStableId (y ++ "-" :: m ++ "-" :: dd) (sh ++ ":" :: sm) (eh ++ ":" :: em)
  = y ++ m ++ dd ++ "_" :: sh ++ sm ++ "_" :: eh ++ em.
Proof.
  intros Hy Hm Hdd Hsh Hsm Heh Hem. unfold generateStableId.
  cbn [lit list_ascii_of_string].
  repeat first
    [ rewrite filter_app
    | rewrite filter_cons_False by (intros H; apply H; by (left + right))
    | rewrite filter_cons_True by (intros [?|?]; discriminate) ].
  rewrite (filter_digits _ _ Hy), (filter_digits _ _ Hm), (filter_digits _ _ Hdd),
    (filter_digits _ _ Hsh), (filter_digits _ _ Hsm),
    (filter_digits _ _ Heh), (filter_digits _ _ Hem).
  by rewrite <- !app_assoc.
Qed.

(** C10. On well-formed fields the identifier determines the date,
    the start and the end, and conversely. *)
Theorem generateStableId_injective (d1 s1 e1 d2 s2 e2 : str) :
  is_date d1 → is_time s1 → is_time e1 →
  is_date d2 → is_time s2 → is_time e2 →
  generateStableId d1 s1 e1 = generateStableId d2 s2 e2
  ↔ d1 = d2 ∧ s1 = s2 ∧ e1 = e2.
Proof.
  intros Hd1 Hs1 He1 Hd2 Hs2 He2.
  split; [|by intros (-> & -> & ->)].
  apply re_date_Some in Hd1 as [_ (y1 & m1 & dd1 & -> & Hy1 & Hm1 & Hdd1)].
  apply re_date_Some in Hd2 as [_ (y2 & m2 & dd2 & -> & Hy2 & Hm2 & Hdd2)].
  apply re_time_Some in Hs1 as [_ (sh1 & sm1 & -> & Hsh1 & Hsm1)].
  apply re_time_Some in Hs2 as [_ (sh2 & sm2 & -> & Hsh2 & Hsm2)].
  apply re_time_Some in He1 as [_ (eh1 & em1 & -> & Heh1 & Hem1)].
  apply re_time_Some in He2 as [_ (eh2 & em2 & -> & Heh2 & Hem2)].
  rewrite !generateStableId_digits by done. intros H.
  destruct Hy1, Hy2, Hm1, Hm2, Hdd1, Hdd2, Hsh1, Hsh2, Hsm1, Hsm2,
           Heh1, Heh2, Hem1, Hem2.
  repeat match type of H with
         | ?a ++ _ = ?b ++ _ =>
             apply app_inj_1 in H as [-> H]; [|congruence]
         | _ :: _ = _ :: _ => injection H as H
         end.
  by subst.
Qed.

Lemma generateStableId_injective_witness :
  generateStableId (lit "2025-01-21") (lit "11:00") (lit "12:30")
  = generateStableId (lit "2025-01-22") (lit "11:00") (lit "12:30")
  ↔ lit "2025-01-21" = lit "2025-01-22" ∧ lit "11:00" = lit "11:00"
    ∧ lit "12:30" = lit "12:30".
Proof.
  apply (generateStableId_injective (lit "2025-01-21") (lit "11:00") (lit "12:30")
           (lit "2025-01-22") (lit "11:00") (lit "12:30")); reflexivity.
Defined.

End IdFacts.

(* ================================================================== *)
(** * Lines of the file *)
(* ================================================================== *)
Section LineFacts.
Import Js Storage.

Lemma split_nonempty sep s : split sep s ≠ [].
Proof.
  destruct s as [|c s]; cbn; [done|].
  case_decide; [done|]. by destruct (split sep s).
Qed.

Lemma join_cons2 sep p q ps : join sep (p :: q :: ps) = p ++ sep ++ join sep (q :: ps).
Proof. reflexivity. Qed.

Lemma join_split sep s : join [sep] (split sep s) = s.
Proof.
  induction s as [|c s IH]; cbn [split]; [done|].
  pose proof (split_nonempty sep s) as Hne.
  case_decide as Hc.
  - subst c. destruct (split sep s) as [|l ls]; [done|].
    by rewrite join_cons2, IH.
  - destruct (split sep s) as [|l ls]; [done|].
    destruct ls as [|l' ls]; cbn in *; by rewrite <- IH.
Qed.

Lemma split_free sep s : sep ∉ s → split sep s = [s].
Proof.
  induction s as [|c s IH]; [done|]. intros Hn.
  apply not_elem_of_cons in Hn as [Hc Hs]. cbn.
  rewrite decide_False by done. by rewrite IH.
Qed.

Lemma split_app_sep sep l s :
  sep ∉ l → split sep (l ++ sep :: s) = l :: split sep s.
Proof.
  induction l as [|c l IH]; intros Hn; cbn.
  - by rewrite decide_True.
  - apply not_elem_of_cons in Hn as [Hc Hl].
    rewrite decide_False by done. by rewrite IH.
Qed.

(** Lines that hold no line feed are the lines of their join. *)
Lemma split_join sep ls :
  ls ≠ [] → Forall (λ l, sep ∉ l) ls → split sep (join [sep] ls) = ls.
Proof.
  intros Hne Hls. induction Hls as [|l ls Hl Hls IH]; [done|].
  destruct ls as [|l' ls]; [by apply split_free|].
  rewrite join_cons2. cbn [app]. rewrite split_app_sep by done.
  by rewrite IH.
Qed.

Lemma split_lines_free sep s : Forall (λ l, sep ∉ l) (split sep s).
Proof.
  induction s as [|c s IH]; cbn.
  - repeat constructor. apply not_elem_of_nil.
  - case_decide.
    + constructor; [apply not_elem_of_nil | done].
    + destruct (split sep s) as [|l ls]; inversion IH; subst.
      * repeat constructor. by intros ?%list_elem_of_singleton.
      * constructor; [|done]. by intros [?|?]%elem_of_cons.
Qed.

Lemma findLine_None target lines :
  findLine target lines = None ↔ ∀ l, l ∈ lines → trim l ≠ target.
Proof.
  unfold findLine. rewrite fmap_None, list_find_None, Forall_forall. done.
Qed.

Lemma findLine_Some target lines i :
  findLine target lines = Some i →
  ∃ l, lines = take i lines ++ l :: drop (S i) lines ∧ trim l = target
       ∧ (∀ x, x ∈ take i lines → trim x ≠ target) ∧ i < length lines.
Proof.
  unfold findLine. intros ([j l] & Hf & [= ->])%fmap_Some.
  apply list_find_Some in Hf as (Hl & Ht & Hpre).
  exists l. split_and!; [by rewrite take_drop_middle | done | | by eapply lookup_lt_Some].
  intros x (k & Hk & Hlt)%elem_of_take. by eapply Hpre.
Qed.

(** C2, as amended.  Either no line has the target as its trimmed
    text and both operations return the content as it is; or the
    lines are [pre], one line [l] with that trimmed text, and [post],
    no line of [pre] has it, and the results are the lines
    [pre], the new line, [post], respectively [pre], [post], joined
    again: every other line is kept as it is and where it is.  When
    the target matches the grammar, the one line that is replaced or
    removed is an entry line. *)
Theorem line_edit_frame (content target newLine : str) :
  ((∀ l, l ∈ split LF content → trim l ≠ target) ∧
   replaceLineInContent content target newLine = content ∧
   removeLineFromContent content target = content)
  ∨
  (∃ pre l post,
     split LF content = pre ++ l :: post ∧
     trim l = target ∧
     (∀ x, x ∈ pre → trim x ≠ target) ∧
     replaceLineInContent content target newLine = join [LF] (pre ++ newLine :: post) ∧
     removeLineFromContent content target = join [LF] (pre ++ post) ∧
     (LF ∉ newLine →
        split LF (replaceLineInContent content target newLine) = pre ++ newLine :: post) ∧
     (pre ++ post ≠ [] →
        split LF (removeLineFromContent content target) = pre ++ post) ∧
     (is_Some (ENTRY_REGEX target) → is_entry_line l)).
Proof.
  unfold replaceLineInContent, removeLineFromContent. cbn zeta.
  destruct (findLine target (split LF content)) as [i|] eqn:Hf.
  - right. apply findLine_Some in Hf as (l & Hsplit & Ht & Hpre & Hi).
    pose proof (split_lines_free LF content) as Hfree.
    rewrite insert_take_drop, delete_take_drop by done.
    set (pre := take i (split LF content)) in *.
    set (post := drop (S i) (split LF content)) in *.
    rewrite Hsplit in Hfree.
    apply Forall_app in Hfree as [Hfpre Hfpost].
    apply Forall_cons in Hfpost as [_ Hfpost].
    exists pre, l, post. split_and!; try done.
    + intros Hnew. apply split_join; [by destruct pre|].
      apply Forall_app. split; [done|]. by constructor.
    + intros Hne. apply split_join; [done|]. by apply Forall_app.
    + unfold is_entry_line. by rewrite Ht.
  - left. pose proof (proj1 (findLine_None _ _) Hf) as Hno.
    by rewrite join_split.
Qed.

Lemma line_edit_frame_witness :
  split LF (replaceLineInContent
              (lit "# Log" ++ LF :: lit " 2025-01-21 11:00 - 12:30 | Meeting " ++ LF :: lit "tail")
              (lit "2025-01-21 11:00 - 12:30 | Meeting")
              (lit "2025-01-21 11:00 - 12:45 | Meeting"))
  = [lit "# Log"; lit "2025-01-21 11:00 - 12:45 | Meeting"; lit "tail"].
Proof.
  destruct (line_edit_frame
              (lit "# Log" ++ LF :: lit " 2025-01-21 11:00 - 12:30 | Meeting " ++ LF :: lit "tail")
              (lit "2025-01-21 11:00 - 12:30 | Meeting")
              (lit "2025-01-21 11:00 - 12:45 | Meeting"))
    as [[Hno _]|_].
  - exfalso.
    apply (Hno (lit " 2025-01-21 11:00 - 12:30 | Meeting ")); [|reflexivity].
    vm_compute. apply list_elem_of_further, list_elem_of_here.
  - vm_compute. reflexivity.
Defined.

(** C2 as stated fails for a target that is no entry line: the line
    of a heading is replaced, and removed, like any other. *)
Lemma heading_line_is_edited :
  ENTRY_REGEX (trim (lit "# Notes")) = None ∧
  split LF (lit "# Notes" ++ LF :: lit "text") !! 0%nat = Some (lit "# Notes") ∧
  replaceLineInContent (lit "# Notes" ++ LF :: lit "text") (lit "# Notes") (lit "x")
    = lit "x" ++ LF :: lit "text" ∧
  removeLineFromContent (lit "# Notes" ++ LF :: lit "text") (lit "# Notes")
    = lit "text".
Proof. vm_compute. done. Qed.

End LineFacts.

(* ================================================================== *)
(** * The store: unknown identifiers, and spans that end the day *)
(* ================================================================== *)
Section StoreFacts.
Import Js Time Storage WeekGrid.
Local Open Scope Z_scope.

Lemma findIndex_None i es :
  (∀ e : ParsedEntry, e ∈ es → id e ≠ i) → findIndex i es = None.
Proof.
  intros H. unfold findIndex. apply list_find_None, Forall_forall.
  intros e He. by apply H.
Qed.

(** C3. With no record of that identifier, [updateEntry] and
    [deleteEntry] return the store as it is: same records, same file,
    same flag, no notice. *)
Theorem unknown_id_noop (i : str) (updates : PartialEntry) (st : Store) :
  (∀ e : ParsedEntry, e ∈ entries st → id e ≠ i) →
  updateEntry i updates st = st ∧ deleteEntry i st = st.
Proof.
  intros H. unfold updateEntry, deleteEntry.
  by rewrite findIndex_None.
Qed.

Lemma unknown_id_noop_witness :
  updateEntry (lit "20250121_0900_1000")
              (mkPartial None None None None (Some (lit "x")) None None None) store1
    = store1
  ∧ deleteEntry (lit "20250121_0900_1000") store1 = store1.
Proof.
  apply unknown_id_noop.
  intros e He. apply list_elem_of_singleton in He. subst e. discriminate.
Defined.

Lemma slotToTime_table :
  forallb (λ n : nat,
             let s := Z.of_nat n in
             str_lt (lit "00:00") (slotToTime s)
             && bool_decide (parseTimeToMinutes (slotToTime s) = Some (15 * s)))
          (seq 1 95) = true.
Proof. vm_compute. reflexivity. Qed.

Lemma slotToTime_inside s :
  0 < s < 96 →
  str_lt (lit "00:00") (slotToTime s) = true ∧
  parseTimeToMinutes (slotToTime s) = Some (15 * s).
Proof.
  intros Hs. pose proof slotToTime_table as H.
  rewrite forallb_forall in H.
  specialize (H (Z.to_nat s)). cbn zeta in H.
  rewrite Z2Nat.id in H by lia.
  apply andb_prop in H as [H1 H2].
  - split; [done|]. by apply bool_decide_eq_true in H2.
  - apply in_seq. lia.
Qed.

End StoreFacts.

(* ================================================================== *)
(** * Trimming, lower case and substrings *)
(* ================================================================== *)
Section StringFacts.
Import Js.

Lemma blank_nil : blank [].
Proof. constructor. Qed.

Lemma trimStart_blank_app l s : blank l → trimStart (l ++ s) = trimStart s.
Proof. induction 1 as [|c l Hc _ IH]; cbn; [done|]. by rewrite Hc. Qed.

Lemma trimStart_head c s : is_space c = false → trimStart (c :: s) = c :: s.
Proof. intros H. cbn. by rewrite H. Qed.

Lemma trimStart_split s : ∃ l, blank l ∧ s = l ++ trimStart s.
Proof.
  induction s as [|c s (l & Hl & IH)]; [exists []; split; [apply blank_nil|done]|].
  cbn. destruct (is_space c) eqn:Hc.
  - exists (c :: l). split; [by constructor|]. cbn. by rewrite <- IH.
  - exists []. split; [apply blank_nil|done].
Qed.

Lemma trimEnd_app s r :
  trimEnd (s ++ r) = match trimEnd r with [] => trimEnd s | _ :: _ => s ++ trimEnd r end.
Proof.
  induction s as [|c s IH]; cbn [app trimEnd].
  - by destruct (trimEnd r).
  - rewrite IH. destruct (trimEnd r) as [|x t]; [done|].
    by destruct s.
Qed.

Lemma trimEnd_blank r : blank r → trimEnd r = [].
Proof. induction 1 as [|c r Hc _ IH]; cbn; [done|]. by rewrite IH, Hc. Qed.

Lemma trimEnd_split s : ∃ r, blank r ∧ s = trimEnd s ++ r.
Proof.
  induction s as [|c s (r & Hr & IH)]; [exists []; split; [apply blank_nil|done]|].
  cbn. destruct (trimEnd s) as [|x t] eqn:Et.
  - destruct (is_space c) eqn:Hc.
    + exists (c :: r). cbn in IH. subst s. split; [by constructor|done].
    + exists r. split; [done|]. cbn. by f_equal.
  - exists r. split; [done|]. cbn. by f_equal.
Qed.

Lemma trimEnd_snoc s c : is_space c = false → trimEnd (s ++ [c]) = s ++ [c].
Proof. intros Hc. rewrite trimEnd_app. cbn. by rewrite Hc. Qed.

Lemma trimEnd_cons c s : trimEnd s ≠ [] → trimEnd (c :: s) = c :: trimEnd s.
Proof. intros H. cbn. by destruct (trimEnd s). Qed.

Lemma lower_blank s : blank (toLowerCase s) ↔ blank s.
Proof.
  unfold blank, toLowerCase. rewrite Forall_fmap.
  apply Forall_proper; [|done]. intros c. cbn. by rewrite lower_space.
Qed.

Lemma trimStart_lower s : trimStart (toLowerCase s) = toLowerCase (trimStart s).
Proof.
  induction s as [|c s IH]; [done|]. cbn. rewrite lower_space.
  by destruct (is_space c).
Qed.

Lemma trimEnd_lower s : trimEnd (toLowerCase s) = toLowerCase (trimEnd s).
Proof.
  induction s as [|c s IH]; [done|]. cbn [toLowerCase fmap list_fmap trimEnd].
  fold (toLowerCase s). rewrite IH, lower_space.
  destruct (trimEnd s); [by destruct (is_space c)|done].
Qed.

Lemma trim_lower s : trim (toLowerCase s) = toLowerCase (trim s).
Proof. unfold trim. by rewrite trimStart_lower, trimEnd_lower. Qed.

(** [trim s = t], for a text [t] that begins and ends with visible
    characters, says that [s] is [t] between blanks. *)
Lemma trim_eq_iff s t c0 t0 c1 t1 :
  t = c0 :: t0 → t = t1 ++ [c1] → is_space c0 = false → is_space c1 = false →
  trim s = t ↔ ∃ l r, s = l ++ t ++ r ∧ blank l ∧ blank r.
Proof.
  intros H0 H1 Hc0 Hc1. split.
  - intros Ht. destruct (trimStart_split s) as (l & Hl & Hs).
    destruct (trimEnd_split (trimStart s)) as (r & Hr & Hs').
    fold (trim s) in Hs'. rewrite Ht in Hs'.
    exists l, r. by rewrite <- Hs'.
  - intros (l & r & -> & Hl & Hr). unfold trim.
    rewrite trimStart_blank_app by done.
    assert (E : trimStart (t ++ r) = t ++ r).
    { rewrite H0. cbn [app]. by apply trimStart_head. }
    rewrite E, trimEnd_app, trimEnd_blank by done.
    rewrite H1. by apply trimEnd_snoc.
Qed.

Lemma startsWith_iff p s : startsWith p s = true ↔ ∃ q, s = p ++ q.
Proof.
  revert s. induction p as [|a p IH]; intros s; cbn.
  - split; [by exists s|done].
  - destruct s as [|b s]; [split; [done|by intros [? ?]]|].
    rewrite andb_true_iff, bool_decide_eq_true, IH. split.
    + intros [-> [q ->]]. by exists q.
    + intros [q [= -> ->]]. split; [done|by exists q].
Qed.

Lemma includes_iff s pat : includes s pat = true ↔ ∃ p q, s = p ++ pat ++ q.
Proof.
  induction s as [|c s IH]; cbn [includes].
  - rewrite orb_false_r, startsWith_iff. split.
    + intros [q ->]. by exists [], q.
    + intros (p & q & H). symmetry in H.
      apply app_eq_nil in H as [-> H]. by exists q.
  - rewrite orb_true_iff, startsWith_iff, IH. split.
    + intros [[q ->]|(p & q & ->)]; [by exists [], q|by exists (c :: p), q].
    + intros ([|x p] & q & H); [left; by exists q|].
      injection H as -> ->. right. by exists p, q.
Qed.

Lemma includes_elem s c pat : includes s (c :: pat) = true → c ∈ s.
Proof.
  intros (p & q & ->)%includes_iff. apply elem_of_app. right. by left.
Qed.

Lemma includes_lower s pat :
  includes s pat = true → includes (toLowerCase s) (toLowerCase pat) = true.
Proof.
  intros (p & q & ->)%includes_iff. apply includes_iff.
  exists (toLowerCase p), (toLowerCase q). unfold toLowerCase.
  by rewrite !fmap_app.
Qed.

Lemma includes_lower_iff s pat :
  includes (toLowerCase s) pat = true ↔ contains_ci pat s.
Proof.
  rewrite includes_iff. unfold contains_ci, toLowerCase. split.
  - intros (p & q & H).
    apply fmap_app_inv in H as (p' & r & -> & Hr & ->).
    symmetry in Hr. apply fmap_app_inv in Hr as (m & q' & -> & -> & ->).
    by exists p', m, q'.
  - intros (p & m & q & -> & <-). exists (lower_char <$> p), (lower_char <$> q).
    by rewrite !fmap_app.
Qed.

End StringFacts.

(* ================================================================== *)
(** * Markers of the description *)
(* ================================================================== *)
Section MarkerFacts.
Import Js Storage.

(** C7. A marker that is not all in lower case is removed from the
    description, but the pomodoro flag is not set: on the line below
    the record comes out as no pomodoro, described as [Deep work]. *)
Theorem capitalised_pomodoro_marker_is_lost :
  (λ e : ParsedEntry, (description e, tags e, isPomodoro e, isBreak e))
    <$> parseLine (lit "2025-01-21 13:00 - 13:30 | Deep work #dev (Pomodoro)")
  = Some (lit "Deep work", [lit "dev"], false, false).
Proof. vm_compute. reflexivity. Qed.

(** The marker in lower case sets the flag. *)
Lemma lower_pomodoro_marker_sets_flag desc :
  (∃ p q, desc = p ++ lit "(pomodoro)" ++ q) →
  d_isPomodoro (parseDescription desc) = true.
Proof. intros H. cbn. by apply includes_iff. Qed.

Lemma isBreak_iff desc :
  d_isBreak (parseDescription desc) = true
  ↔ is_break_text desc ∨ contains_ci (lit "(break)") desc.
Proof.
  cbn [parseDescription d_isBreak].
  rewrite orb_true_iff, bool_decide_eq_true, includes_lower_iff.
  apply or_iff_compat_r.
  rewrite (trim_eq_iff _ (lit "break") "b" (lit "reak") "k" (lit "brea"))
    by reflexivity.
  unfold is_break_text, toLowerCase. split.
  - intros (l & r & H & Hl & Hr).
    apply fmap_app_inv in H as (l' & x & -> & Hx & ->).
    symmetry in Hx. apply fmap_app_inv in Hx as (m & r' & Hm & -> & ->).
    exists l', m, r'. split_and!; [done|by apply lower_blank..|done].
  - intros (l & m & r & -> & Hl & Hr & Hm).
    exists (lower_char <$> l), (lower_char <$> r).
    rewrite !fmap_app, Hm. split_and!; [done|by apply lower_blank..].
Qed.

(** The rule the code applies: the record of a line that matches the
    grammar is a break exactly when the whole description part, tags
    included, is [break] between blanks in some letter case, or
    contains [(break)] in some letter case. *)
Lemma isBreak_of_parsed_line (line date startTime endTime desc : str) :
  ENTRY_REGEX (trim line) = Some (date, startTime, endTime, desc) →
  ∃ e : ParsedEntry,
    parseLine line = Some e ∧
    (isBreak e = true ↔ is_break_text desc ∨ contains_ci (lit "(break)") desc).
Proof.
  intros Hre. unfold parseLine.
  destruct (trim line) as [|c t] eqn:Ht; [done|].
  rewrite Hre. cbn [mbind option_bind].
  eexists. split; [reflexivity|].
  cbn [te isBreak]. apply isBreak_iff.
Qed.

(** C8.  The break test reads the description part with its tags,
    while the description of the record is what is left once the tags
    are taken out.  On the line below, the text after tag extraction,
    trimmed, is [break], and so is the description of the record, yet
    the record is no break.  The store meets such lines through its own
    operations: when the editor adds a tag to a break, the record in
    memory is still a break, the line written for it is
    [Break #rest], and the record loaded from that line is none. *)
Theorem tagged_break_loses_flag :
  trim (toLowerCase (replace_g re_tag 0 (lit "break #rest"))) = lit "break" ∧
  (λ e : ParsedEntry, (description e, tags e, isBreak e))
    <$> parseLine (lit "2025-01-21 14:00 - 14:10 | break #rest")
  = Some (lit "break", [lit "rest"], false) ∧
  entries break_store = parseContent (lit "2025-01-21 14:00 - 14:10 | Break") ∧
  (let edit :=
     mkPartial None None None None
               (Some (WeekGrid.textDescription (lit "Break #rest")))
               (Some (WeekGrid.textTags (lit "Break #rest"))) None None in
   (λ e : ParsedEntry, (description e, tags e, isBreak e))
     <$> entries (updateEntry (id short_break) edit break_store)
   = [(lit "Break", [lit "rest"], true)]) ∧
  file (WeekGrid.confirmEdit short_break (lit "Break #rest") break_store)
  = Some (lit "2025-01-21 14:00 - 14:10 | Break #rest") ∧
  (λ e : ParsedEntry, (description e, tags e, isBreak e))
    <$> entries (WeekGrid.confirmEdit short_break (lit "Break #rest") break_store)
  = [(lit "Break", [lit "rest"], false)].
Proof. vm_compute. done. Qed.

End MarkerFacts.

(* ================================================================== *)
(** * Global matching across blanks *)
(* ================================================================== *)
Section RegexFacts.
Import Js.

Lemma replace_g_space m k a b :
  space_local m → k ≤ length a →
  replace_g m k (a ++ " " :: b) = replace_g m k a ++ " " :: replace_g m 0 b.
Proof.
  intros [Hloc Hlen]. revert k. induction a as [|c a IH]; intros k Hk.
  - destruct k; [|cbn in Hk; lia]. cbn [app replace_g].
    change (m (" " :: b)) with (m ([] ++ " " :: b)).
    rewrite (Hloc [] b). destruct (m []) as [[|n]|] eqn:E; [done| |done].
    apply Hlen in E. cbn in E. lia.
  - cbn [app replace_g]. destruct k as [|k].
    + rewrite app_comm_cons, Hloc.
      destruct (m (c :: a)) as [[|n]|] eqn:E.
      * by rewrite IH by lia.
      * apply Hlen in E. cbn in E. by rewrite IH by lia.
      * by rewrite IH by lia.
    + cbn in Hk. by rewrite IH by lia.
Qed.

Lemma match_g_space m k a b :
  space_local m → k ≤ length a →
  match_g m k (a ++ " " :: b) = match_g m k a ++ match_g m 0 b.
Proof.
  intros [Hloc Hlen]. revert k. induction a as [|c a IH]; intros k Hk.
  - destruct k; [|cbn in Hk; lia]. cbn [app match_g].
    change (m (" " :: b)) with (m ([] ++ " " :: b)).
    rewrite (Hloc [] b). destruct (m []) as [[|n]|] eqn:E; [done| |done].
    apply Hlen in E. cbn in E. lia.
  - cbn [app match_g]. destruct k as [|k].
    + rewrite app_comm_cons, Hloc.
      destruct (m (c :: a)) as [[|n]|] eqn:E.
      * by rewrite IH by lia.
      * apply Hlen in E. cbn in E. rewrite IH by lia.
        rewrite <- !app_comm_cons. f_equal. cbn [take]. f_equal.
        apply take_app_le. lia.
      * by rewrite IH by lia.
    + cbn in Hk. by rewrite IH by lia.
Qed.

Lemma replace_g_join m segs :
  space_local m →
  replace_g m 0 (join (lit " ") segs) = join (lit " ") (replace_g m 0 <$> segs).
Proof.
  intros Hm. cbn [lit list_ascii_of_string].
  induction segs as [|p [|q ps] IH]; [done..|].
  rewrite join_cons2. cbn [app].
  rewrite replace_g_space by (done || lia). rewrite IH. done.
Qed.

Lemma match_g_join m segs :
  space_local m →
  match_g m 0 (join (lit " ") segs) = concat (match_g m 0 <$> segs).
Proof.
  intros Hm. cbn [lit list_ascii_of_string].
  induction segs as [|p [|q ps] IH]; [done|cbn; by rewrite app_nil_r|].
  rewrite join_cons2. cbn [app].
  rewrite match_g_space by (done || lia). rewrite IH. done.
Qed.

Lemma startsWith_space pat q b :
  " " ∉ pat → startsWith pat (q ++ " " :: b) = startsWith pat q.
Proof.
  revert q. induction pat as [|x pat IH]; intros q Hn; [done|].
  apply not_elem_of_cons in Hn as [Hx Hn].
  destruct q as [|y q]; cbn.
  - by rewrite bool_decide_eq_false_2.
  - by rewrite IH.
Qed.

Lemma includes_space pat a b :
  " " ∉ pat → includes (a ++ " " :: b) pat = includes a pat || includes b pat.
Proof.
  intros Hn. induction a as [|c a IH]; cbn [app includes].
  - pose proof (startsWith_space pat [] b Hn) as H. cbn [app] in H.
    rewrite H. by rewrite orb_false_r.
  - rewrite app_comm_cons, startsWith_space, IH by done.
    by rewrite orb_assoc.
Qed.

Lemma includes_join pat segs :
  " " ∉ pat → pat ≠ [] →
  includes (join (lit " ") segs) pat = existsb (λ s, includes s pat) segs.
Proof.
  intros Hn Hp. cbn [lit list_ascii_of_string].
  induction segs as [|p [|q ps] IH].
  - cbn. by destruct pat.
  - cbn [join existsb]. by rewrite orb_false_r.
  - rewrite join_cons2. cbn [app].
    rewrite includes_space, IH by done. done.
Qed.

Lemma take_while_space q b :
  take_while is_word (q ++ " " :: b) = take_while is_word q.
Proof. induction q as [|c q IH]; cbn; [done|]. by rewrite IH. Qed.

Lemma take_while_length p s : length (take_while p s) ≤ length s.
Proof. induction s as [|c s IH]; cbn; [done|]. destruct (p c); cbn; lia. Qed.

Lemma take_while_all (p : ascii → bool) s :
  Forall (λ c, p c = true) s → take_while p s = s.
Proof. induction 1 as [|c s Hc _ IH]; cbn; [done|]. by rewrite Hc, IH. Qed.

Lemma re_tag_local : space_local re_tag.
Proof.
  split.
  - intros [|c q] b; cbn; [done|].
    case_decide; [|done]. by rewrite take_while_space.
  - intros [|c q] n; cbn; [done|].
    case_decide; [|done].
    pose proof (take_while_length is_word q).
    destruct (length (take_while is_word q)); [done|].
    intros [= <-]. lia.
Qed.

Lemma re_lit_i_local pat : " " ∉ pat → space_local (re_lit_i pat).
Proof.
  intros Hn. split.
  - intros q b. unfold re_lit_i.
    destruct (decide (length pat ≤ length q)) as [Hle|Hgt].
    + by rewrite take_app_le.
    + rewrite take_app_ge by lia.
      destruct (length pat - length q) as [|d] eqn:Hd; [lia|]. cbn [take].
      rewrite !bool_decide_eq_false_2; [done| |].
      * intros H. apply (f_equal length) in H.
        unfold toLowerCase in H. rewrite length_fmap, length_take in H. lia.
      * intros H. apply Hn. rewrite <- H. unfold toLowerCase.
        rewrite fmap_app. apply elem_of_app. right. by left.
  - intros q n. unfold re_lit_i. case_bool_decide as H; [|done].
    intros [= <-]. apply (f_equal length) in H.
    unfold toLowerCase in H. rewrite length_fmap, length_take in H. lia.
Qed.

Lemma match_nil_replace m s : match_g m 0 s = [] → replace_g m 0 s = s.
Proof.
  induction s as [|c s IH]; [done|]. cbn.
  destruct (m (c :: s)) as [[|k]|]; [|done|]; intros H; by rewrite IH.
Qed.

Lemma replace_g_skip_all m s : replace_g m (length s) s = [].
Proof. by induction s. Qed.

Lemma match_g_skip_all m s : match_g m (length s) s = [].
Proof. by induction s. Qed.

Lemma replace_lit_absent pat s :
  includes (toLowerCase s) pat = false → replace_g (re_lit_i pat) 0 s = s.
Proof.
  induction s as [|c s IH]; [done|].
  cbn [toLowerCase fmap list_fmap includes]. fold (toLowerCase s).
  intros [Hs Hi]%orb_false_elim. cbn [replace_g].
  destruct (re_lit_i pat (c :: s)) as [[|k]|] eqn:E; [by rewrite IH| |by rewrite IH].
  unfold re_lit_i in E. case_bool_decide as Hp; [|done].
  exfalso. apply not_true_iff_false in Hs. apply Hs.
  change (lower_char c :: toLowerCase s) with (toLowerCase (c :: s)).
  apply startsWith_iff. exists (toLowerCase (drop (length pat) (c :: s))).
  transitivity (toLowerCase (take (length pat) (c :: s) ++ drop (length pat) (c :: s)));
    [by rewrite take_drop|].
  unfold toLowerCase in *. by rewrite fmap_app, Hp.
Qed.

(** One tag of the encoding: a hash and a word. *)
Lemma re_tag_word t :
  t ≠ [] → Forall (λ c, is_word c = true) t →
  re_tag ("#" :: t) = Some (S (length t)).
Proof.
  intros Hne Hw. cbn. rewrite decide_True by done.
  rewrite take_while_all by done. by destruct t.
Qed.

Lemma replace_tag_word t :
  t ≠ [] → Forall (λ c, is_word c = true) t → replace_g re_tag 0 ("#" :: t) = [].
Proof.
  intros Hne Hw. cbn [replace_g]. rewrite re_tag_word by done.
  apply replace_g_skip_all.
Qed.

Lemma match_tag_word t :
  t ≠ [] → Forall (λ c, is_word c = true) t → match_g re_tag 0 ("#" :: t) = ["#" :: t].
Proof.
  intros Hne Hw. cbn [match_g]. rewrite re_tag_word by done.
  rewrite match_g_skip_all, take_ge; [done|cbn; lia].
Qed.

End RegexFacts.

(* ================================================================== *)
(** * Texts without outer blanks, texts of one line *)
(* ================================================================== *)
Section ShapeFacts.
Import Js Storage.

Lemma solid_trimStart s r : solid s → trimStart (s ++ r) = s ++ r.
Proof. intros (c0 & s0 & _ & _ & -> & _ & H0 & _). cbn. by rewrite H0. Qed.

Lemma solid_trimEnd s : solid s → trimEnd s = s.
Proof. intros (_ & _ & c1 & s1 & _ & -> & _ & H1). by apply trimEnd_snoc. Qed.

Lemma solid_trim s : solid s → trim s = s.
Proof.
  intros H. unfold trim. rewrite <- (app_nil_r s) at 1.
  rewrite solid_trimStart, app_nil_r by done. by apply solid_trimEnd.
Qed.

Lemma solid_app s x t : solid s → solid t → solid (s ++ x ++ t).
Proof.
  intros (c0 & s0 & _ & _ & -> & _ & H0 & _) (_ & _ & c1 & t1 & _ & -> & _ & H1).
  exists c0, (s0 ++ x ++ t1 ++ [c1]), c1, ((c0 :: s0) ++ x ++ t1).
  split_and!; [done| |done..]. by rewrite <- !app_assoc.
Qed.

Lemma solid_join segs : segs ≠ [] → Forall solid segs → solid (join (lit " ") segs).
Proof.
  intros Hne H. induction H as [|p segs Hp Hs IH]; [done|].
  destruct segs as [|q ps]; [done|].
  rewrite join_cons2. apply solid_app; [done|]. by apply IH.
Qed.

Lemma trimStart_length s : length (trimStart s) ≤ length s.
Proof. induction s as [|c s IH]; cbn; [done|]. destruct (is_space c); cbn; lia. Qed.

Lemma trimEnd_length s : length (trimEnd s) ≤ length s.
Proof.
  induction s as [|c s IH]; cbn; [done|].
  destruct (trimEnd s); [destruct (is_space c)|]; cbn in *; lia.
Qed.

Lemma trimEnd_last s c t : trimEnd s = t ++ [c] → is_space c = false.
Proof.
  revert t. induction s as [|x s IH]; intros t; cbn; [by destruct t|].
  destruct (trimEnd s) as [|y u] eqn:E.
  - destruct (is_space x) eqn:Hx; [by destruct t|].
    destruct t as [|? [|]]; intros [=]. by subst.
  - destruct t as [|z t]; [by destruct u|].
    intros [= -> Hu]. by eapply IH.
Qed.

(** The texts that [trim] leaves as they are. *)
Lemma trim_fixed s : trim s = s → s = [] ∨ solid s.
Proof.
  intros Ht. destruct s as [|c0 s0] eqn:Es; [by left|right].
  rewrite <- Es in *.
  assert (H0 : is_space c0 = false).
  { destruct (is_space c0) eqn:H0; [|done]. exfalso.
    apply (f_equal length) in Ht. unfold trim in Ht.
    pose proof (trimEnd_length (trimStart s)). rewrite Es in *. cbn in *.
    rewrite H0 in *. pose proof (trimStart_length s0). lia. }
  assert (Hs : trimStart s = s) by (rewrite Es; by apply trimStart_head).
  unfold trim in Ht. rewrite Hs in Ht.
  destruct (exists_last (l:=s)) as (s1 & c1 & E1); [by rewrite Es|].
  exists c0, s0, c1, s1. split_and!; [done..|].
  eapply trimEnd_last. rewrite Ht. exact E1.
Qed.

Lemma one_line_app s t : one_line (s ++ t) ↔ one_line s ∧ one_line t.
Proof. unfold one_line. by rewrite forallb_app, andb_true_iff. Qed.

Lemma one_line_cons c s : one_line (c :: s) ↔ is_line_terminator c = false ∧ one_line s.
Proof. unfold one_line. cbn. by rewrite andb_true_iff, negb_true_iff. Qed.

Lemma one_line_visible s : Forall (λ c, is_space c = false) s → one_line s.
Proof.
  induction 1 as [|c s Hc _ IH]; [done|].
  apply one_line_cons. split; [by apply space_not_terminator|done].
Qed.

Lemma one_line_trimStart s : one_line s → one_line (trimStart s).
Proof.
  induction s as [|c s IH]; [done|]. intros H. cbn.
  destruct (is_space c); [|done]. apply IH. by apply one_line_cons in H as [_ ?].
Qed.

Lemma one_line_join segs : Forall one_line segs → one_line (join (lit " ") segs).
Proof.
  induction 1 as [|p segs Hp Hs IH]; [done|].
  destruct segs as [|q ps]; [done|].
  rewrite join_cons2. apply one_line_app. split; [done|].
  apply one_line_app. by split.
Qed.

Lemma one_line_no_LF s : one_line s → LF ∉ s.
Proof.
  unfold one_line. rewrite forallb_forall. intros H Hin.
  apply list_elem_of_In, H in Hin. done.
Qed.

Lemma digits_visible n d : digits n d → Forall (λ c, is_space c = false) d.
Proof. intros [_ H]. eapply Forall_impl; [exact H|]. apply digit_not_space. Qed.

Lemma is_date_visible d : is_date d → Forall (λ c, is_space c = false) d.
Proof.
  intros (_ & y & m & dd & -> & Hy & Hm & Hd)%re_date_Some.
  apply digits_visible in Hy, Hm, Hd.
  repeat first [apply Forall_app; split | apply Forall_cons; split]; done.
Qed.

Lemma is_time_visible t : is_time t → Forall (λ c, is_space c = false) t.
Proof.
  intros (_ & h & m & -> & Hh & Hm)%re_time_Some.
  apply digits_visible in Hh, Hm.
  repeat first [apply Forall_app; split | apply Forall_cons; split]; done.
Qed.

Lemma is_time_head t r : is_time t → trimStart (t ++ r) = t ++ r.
Proof.
  intros H. pose proof (is_time_visible t H) as Hv.
  apply re_time_Some in H as (_ & h & m & -> & [Hh _] & _).
  destruct h as [|c h]; [done|]. apply Forall_cons in Hv as [Hc _].
  cbn. by rewrite Hc.
Qed.

End ShapeFacts.

(* ================================================================== *)
(** * Encoding a record and decoding the line again *)
(* ================================================================== *)
Section RoundTrip.
Import Js Storage.

Lemma join_snoc sep l x : l ≠ [] → join sep (l ++ [x]) = join sep l ++ sep ++ x.
Proof.
  induction l as [|p [|q ps] IH]; [done|reflexivity|]. intros _.
  change ((p :: q :: ps) ++ [x]) with (p :: (q :: ps) ++ [x]).
  change (join sep (p :: (q :: ps) ++ [x]))
    with (p ++ sep ++ join sep ((q :: ps) ++ [x])).
  rewrite IH by done. rewrite join_cons2. by rewrite <- !app_assoc.
Qed.

Lemma encoded_eq (D : str) (T : list str) (P : bool) :
  (let d1 := match T with
             | [] => D
             | _ => D ++ lit " " ++ join (lit " ") ((λ t, "#" :: t) <$> T)
             end in
   if P then d1 ++ lit " (pomodoro)" else d1)
  = encoded D T P.
Proof.
  unfold encoded, segments, pom_seg. destruct T as [|t T], P; cbn zeta.
  - reflexivity.
  - reflexivity.
  - rewrite app_comm_cons, join_snoc by done.
    rewrite fmap_cons, join_cons2. by rewrite <- !app_assoc.
  - by rewrite app_nil_r.
Qed.

Lemma tag_ok_spec t :
  tag_ok t = true ↔ t ≠ [] ∧ Forall (λ c, is_word c = true) t.
Proof.
  unfold tag_ok. rewrite andb_true_iff, negb_true_iff, bool_decide_eq_false.
  rewrite forallb_forall, Forall_forall.
  by setoid_rewrite list_elem_of_In.
Qed.

Lemma tags_ok_spec T :
  forallb tag_ok T = true ↔ Forall (λ t, t ≠ [] ∧ Forall (λ c, is_word c = true) t) T.
Proof.
  rewrite forallb_forall, Forall_forall. setoid_rewrite <- list_elem_of_In.
  by setoid_rewrite tag_ok_spec.
Qed.

Lemma tag_seg_solid t :
  t ≠ [] → Forall (λ c, is_word c = true) t → solid ("#" :: t).
Proof.
  intros Hne Hw. destruct (exists_last Hne) as (t1 & c1 & ->).
  exists "#", (t1 ++ [c1]), c1, ("#" :: t1). split_and!; [done..|].
  apply word_not_space. rewrite Forall_app, Forall_singleton in Hw. tauto.
Qed.

Lemma tag_seg_one_line t : Forall (λ c, is_word c = true) t → one_line ("#" :: t).
Proof.
  intros Hw. apply one_line_visible. constructor; [done|].
  eapply Forall_impl; [exact Hw|]. apply word_not_space.
Qed.

Lemma pom_solid : solid (lit "(pomodoro)").
Proof. by exists "(", (lit "pomodoro)"), ")", (lit "(pomodoro"). Qed.

Lemma segments_solid T P : forallb tag_ok T = true → Forall solid (segments T P).
Proof.
  intros HT%tags_ok_spec. unfold segments. apply Forall_app. split.
  - apply Forall_fmap. eapply Forall_impl; [exact HT|].
    intros t [? ?]. by apply tag_seg_solid.
  - destruct P; repeat constructor. apply pom_solid.
Qed.

Lemma segments_one_line T P : forallb tag_ok T = true → Forall one_line (segments T P).
Proof.
  intros HT%tags_ok_spec. unfold segments. apply Forall_app. split.
  - apply Forall_fmap. eapply Forall_impl; [exact HT|].
    intros t [? ?]. by apply tag_seg_one_line.
  - destruct P; repeat constructor.
Qed.

Lemma first_seg_solid D : D = [] ∨ solid D → Forall solid (first_seg D).
Proof.
  intros [->|H]; [constructor|].
  destruct D; [constructor|]. by repeat constructor.
Qed.

Lemma rest_of_shape D T P :
  D = [] ∨ solid D → forallb tag_ok T = true →
  rest_of D T P = [] ∨ solid (rest_of D T P).
Proof.
  intros HD HT. unfold rest_of.
  destruct (first_seg D ++ segments T P) as [|x l] eqn:E; [by left|right].
  rewrite <- E. apply solid_join; [by rewrite E|].
  apply Forall_app. split; [by apply first_seg_solid|by apply segments_solid].
Qed.

Lemma encoded_trim D T P :
  D = [] ∨ solid D → forallb tag_ok T = true →
  trimStart (encoded D T P) = rest_of D T P ∧
  trimEnd (encoded D T P) = encoded D T P.
Proof.
  intros HD HT. pose proof (segments_solid T P HT) as Hs.
  unfold encoded, rest_of. destruct HD as [->|HD].
  - cbn [first_seg app]. destruct (segments T P) as [|q ps] eqn:E; [done|].
    rewrite join_cons2. cbn [lit list_ascii_of_string app].
    assert (HJ : solid (join [" "] (q :: ps))) by (by apply (solid_join (q :: ps))).
    split.
    + cbn [trimStart is_space]. rewrite <- (app_nil_r (join _ _)) at 1.
      change (is_space " ") with true. cbn iota.
      rewrite solid_trimStart by done. by rewrite app_nil_r.
    + rewrite trimEnd_cons; rewrite solid_trimEnd by done; [done|].
      destruct HJ as (? & ? & _ & _ & -> & _). done.
  - assert (HJ : solid (join (lit " ") (D :: segments T P))).
    { apply solid_join; [done|]. by constructor. }
    split; [|by apply solid_trimEnd].
    rewrite <- (app_nil_r (join _ _)) at 1.
    rewrite solid_trimStart, app_nil_r by done.
    destruct HD as (c0 & s0 & _ & _ & -> & _). done.
Qed.

Lemma encoded_one_line D T P :
  one_line D → forallb tag_ok T = true → one_line (encoded D T P).
Proof.
  intros HD HT. apply one_line_join. constructor; [done|].
  by apply segments_one_line.
Qed.

Lemma pomodoro_no_space : " " ∉ lit "(pomodoro)".
Proof. apply (bool_decide_unpack _). vm_compute. exact I. Qed.

Lemma break_no_space : " " ∉ lit "(break)".
Proof. apply (bool_decide_unpack _). vm_compute. exact I. Qed.

Lemma pomodoro_local : space_local (re_lit_i (lit "(pomodoro)")).
Proof. apply re_lit_i_local, pomodoro_no_space. Qed.

Lemma break_local : space_local (re_lit_i (lit "(break)")).
Proof. apply re_lit_i_local, break_no_space. Qed.

Lemma strip_join segs : strip (join (lit " ") segs) = join (lit " ") (strip <$> segs).
Proof.
  unfold strip.
  rewrite (replace_g_join _ _ re_tag_local), (replace_g_join _ _ pomodoro_local),
    (replace_g_join _ _ break_local).
  by rewrite <- !list_fmap_compose.
Qed.

Lemma strip_plain D :
  match_g re_tag 0 D = [] →
  includes (toLowerCase D) (lit "(pomodoro)") = false →
  includes (toLowerCase D) (lit "(break)") = false →
  strip D = D.
Proof.
  intros Ht Hp Hb. unfold strip.
  by rewrite (match_nil_replace _ _ Ht), (replace_lit_absent _ _ Hp),
    (replace_lit_absent _ _ Hb).
Qed.

Lemma strip_segments T P :
  forallb tag_ok T = true →
  strip <$> segments T P = replicate (length (segments T P)) [].
Proof.
  intros HT%tags_ok_spec. unfold segments.
  rewrite fmap_app, length_app, replicate_add. f_equal.
  - induction HT as [|t T [Hne Hw] _ IH]; [done|].
    rewrite !fmap_cons. cbn [length replicate]. f_equal; [|done].
    unfold strip. by rewrite replace_tag_word.
  - by destruct P.
Qed.

Lemma join_blanks k : blank (join (lit " ") (replicate k [])).
Proof.
  induction k as [|[|k] IH]; [constructor..|].
  change (replicate (S (S k)) []) with (@nil ascii :: [] :: replicate k []).
  rewrite join_cons2. by constructor.
Qed.

Lemma trim_blank b : blank b → trim b = [].
Proof.
  intros Hb. unfold trim. rewrite <- (app_nil_r b).
  by rewrite trimStart_blank_app.
Qed.

Lemma trim_solid_blank D b : solid D → blank b → trim (D ++ b) = D.
Proof.
  intros HD Hb. unfold trim. rewrite solid_trimStart by done.
  rewrite trimEnd_app, trimEnd_blank by done. by apply solid_trimEnd.
Qed.

Lemma trim_first_blanks D k :
  D = [] ∨ solid D →
  trim (join (lit " ") (first_seg D ++ replicate k [])) = D.
Proof.
  intros [->|HD].
  - cbn [first_seg app]. apply trim_blank, join_blanks.
  - assert (first_seg D = [D]) as ->.
    { destruct HD as (? & ? & _ & _ & -> & _). done. }
    destruct k as [|k]; [by apply solid_trim|].
    change ([D] ++ replicate (S k) []) with (D :: [] :: replicate k []).
    rewrite join_cons2. apply trim_solid_blank; [done|].
    apply Forall_app. split; [by repeat constructor|].
    apply (join_blanks (S k)).
Qed.

(** The description that comes back. *)
Lemma description_back D T P :
  D = [] ∨ solid D →
  match_g re_tag 0 D = [] →
  includes (toLowerCase D) (lit "(pomodoro)") = false →
  includes (toLowerCase D) (lit "(break)") = false →
  forallb tag_ok T = true →
  trim (strip (rest_of D T P)) = D.
Proof.
  intros HD Ht Hp Hb HT. unfold rest_of.
  rewrite strip_join, fmap_app, strip_segments by done.
  assert (strip <$> first_seg D = first_seg D) as ->.
  { destruct D; [done|]. cbn [first_seg fmap list_fmap]. by rewrite strip_plain. }
  by apply trim_first_blanks.
Qed.

(** The tags that come back. *)
Lemma tags_back D T P :
  match_g re_tag 0 D = [] → forallb tag_ok T = true →
  drop 1 <$> match_g re_tag 0 (rest_of D T P) = T.
Proof.
  intros Ht HT%tags_ok_spec. unfold rest_of, segments.
  rewrite (match_g_join _ _ re_tag_local), !fmap_app, !concat_app.
  assert (concat (match_g re_tag 0 <$> first_seg D) = []) as ->.
  { destruct D; [done|]. cbn [first_seg fmap list_fmap concat]. by rewrite Ht. }
  assert (concat (match_g re_tag 0 <$> pom_seg P) = []) as -> by (by destruct P).
  rewrite app_nil_l, app_nil_r.
  induction HT as [|t T [Hne Hw] _ IH]; [done|].
  rewrite !fmap_cons. cbn [concat]. rewrite match_tag_word by done.
  cbn [app fmap list_fmap drop]. by f_equal.
Qed.

Lemma existsb_none {A} (f : A → bool) l :
  Forall (λ x, f x = false) l → existsb f l = false.
Proof. induction 1 as [|x l Hx _ IH]; [done|]. cbn. by rewrite Hx, IH. Qed.

Lemma includes_absent_lower s pat :
  toLowerCase pat = pat → includes (toLowerCase s) pat = false → includes s pat = false.
Proof.
  intros Hpat H. apply not_true_iff_false. intros Hi.
  apply includes_lower in Hi. rewrite Hpat in Hi. congruence.
Qed.

Lemma tag_seg_no_paren t pat :
  Forall (λ c, is_word c = true) t → includes ("#" :: t) ("(" :: pat) = false.
Proof.
  intros Hw. apply not_true_iff_false. intros [H|H]%includes_elem%elem_of_cons; [done|].
  rewrite Forall_forall in Hw. apply Hw, word_not_special in H. tauto.
Qed.

(** The pomodoro flag that comes back. *)
Lemma isPomodoro_back D T P :
  includes (toLowerCase D) (lit "(pomodoro)") = false →
  forallb tag_ok T = true →
  includes (rest_of D T P) (lit "(pomodoro)") = P.
Proof.
  intros Hp HT%tags_ok_spec. unfold rest_of, segments.
  rewrite includes_join by (apply pomodoro_no_space || done).
  rewrite !existsb_app.
  assert (existsb (λ s, includes s (lit "(pomodoro)")) (first_seg D) = false) as ->.
  { destruct D; [done|]. cbn [first_seg existsb].
    rewrite includes_absent_lower; done. }
  rewrite existsb_none.
  - by destruct P.
  - apply Forall_fmap. eapply Forall_impl; [exact HT|].
    intros t [_ Hw]. by apply tag_seg_no_paren.
Qed.

Lemma lower_join segs :
  toLowerCase (join (lit " ") segs) = join (lit " ") (toLowerCase <$> segs).
Proof.
  induction segs as [|p [|q ps] IH]; [done..|].
  rewrite !fmap_cons in *. rewrite !join_cons2, <- IH. unfold toLowerCase.
  by rewrite !fmap_app.
Qed.

Lemma elem_join c seg segs : seg ∈ segs → c ∈ seg → c ∈ join (lit " ") segs.
Proof.
  intros Hs Hc. induction segs as [|p [|q ps] IH]; [by apply elem_of_nil in Hs| |].
  - by apply list_elem_of_singleton in Hs as ->.
  - rewrite join_cons2. apply elem_of_app.
    apply elem_of_cons in Hs as [->|Hs]; [by left|right].
    apply elem_of_app. right. by apply IH.
Qed.

Lemma lower_not_break s c :
  c ∈ s → lower_char c = c → c ∉ lit "break" → toLowerCase s ≠ lit "break".
Proof.
  intros Hc Hl Hn H. apply Hn. rewrite <- H, <- Hl.
  by apply list_elem_of_fmap_2.
Qed.

Lemma tag_seg_lower_no_paren t pat :
  Forall (λ c, is_word c = true) t →
  includes (toLowerCase ("#" :: t)) ("(" :: pat) = false.
Proof.
  intros Hw. apply not_true_iff_false. intros H%includes_elem.
  apply list_elem_of_fmap in H as (c & Hc & Hin). symmetry in Hc.
  apply lower_eq_paren in Hc as ->.
  apply elem_of_cons in Hin as [?|Hin]; [done|].
  rewrite Forall_forall in Hw. apply Hw, word_not_special in Hin. tauto.
Qed.

(** The break flag that comes back. *)
Lemma isBreak_back D T P :
  D = [] ∨ solid D →
  includes (toLowerCase D) (lit "(break)") = false →
  forallb tag_ok T = true →
  bool_decide (trim (toLowerCase (rest_of D T P)) = lit "break")
  || includes (toLowerCase (rest_of D T P)) (lit "(break)")
  = bool_decide (toLowerCase D = lit "break") && bool_decide (T = []) && negb P.
Proof.
  intros HD Hb HT.
  assert (includes (toLowerCase (rest_of D T P)) (lit "(break)") = false) as ->.
  { unfold rest_of. rewrite lower_join.
    rewrite includes_join by (apply break_no_space || done).
    rewrite fmap_app, existsb_app.
    assert (existsb (λ s, includes s (lit "(break)")) (toLowerCase <$> first_seg D)
            = false) as ->.
    { destruct D; [done|]. cbn [first_seg fmap list_fmap existsb]. by rewrite Hb. }
    apply existsb_none, Forall_fmap. unfold segments. apply Forall_app. split.
    - apply Forall_fmap. apply tags_ok_spec in HT.
      eapply Forall_impl; [exact HT|]. intros t [_ Hw].
      by apply tag_seg_lower_no_paren.
    - destruct P; repeat constructor. }
  rewrite orb_false_r, trim_lower.
  assert (trim (rest_of D T P) = rest_of D T P) as ->.
  { destruct (rest_of_shape D T P HD HT) as [->|Hs]; [done|by apply solid_trim]. }
  destruct T as [|t T].
  - destruct P.
    + rewrite andb_false_r. apply bool_decide_eq_false.
      apply (lower_not_break _ "("); [|done|apply (bool_decide_unpack _); vm_compute; exact I].
      apply (elem_join _ (lit "(pomodoro)")); [|by left].
      unfold rest_of, segments. apply elem_of_app. right. by left.
    + rewrite !andb_true_r. unfold rest_of, segments. cbn [fmap list_fmap app pom_seg].
      rewrite app_nil_r. by destruct D.
  - rewrite andb_false_r. cbn [andb]. apply bool_decide_eq_false.
    apply (lower_not_break _ "#"); [|done|apply (bool_decide_unpack _); vm_compute; exact I].
    apply (elem_join _ ("#" :: t)); [|by left].
    unfold rest_of, segments. apply elem_of_app. right. by left.
Qed.

Lemma re_char_head c r : re_char c (c :: r) = Some r.
Proof. cbn. by rewrite decide_True. Qed.

(** The grammar on a line in the layout of [formatEntry]. *)
Lemma ENTRY_REGEX_line d s e Y :
  is_date d → is_time s → is_time e → one_line (trimStart Y) →
  ENTRY_REGEX (d ++ " " :: s ++ " " :: "-" :: " " :: e ++ " " :: "|" :: Y)
  = Some (d, s, e, trimStart Y).
Proof.
  intros Hd Hs He HY. unfold ENTRY_REGEX.
  rewrite is_date_app by done. cbn [mbind option_bind].
  change (re_spaces1 (" " :: ?r)) with (Some (trimStart r)). cbn [mbind option_bind].
  rewrite is_time_head, is_time_app by done. cbn [mbind option_bind].
  change (trimStart (" " :: "-" :: ?r)) with ("-" :: r).
  rewrite re_char_head. cbn [mbind option_bind].
  change (trimStart (" " :: ?r)) with (trimStart r).
  rewrite is_time_head, is_time_app by done. cbn [mbind option_bind].
  change (trimStart (" " :: "|" :: ?r)) with ("|" :: r).
  rewrite re_char_head. cbn [mbind option_bind].
  unfold re_rest. unfold one_line in HY. by rewrite HY.
Qed.

Lemma trim_line_shape A c0 A0 X :
  A = c0 :: A0 → is_space c0 = false → trimEnd X = X →
  trim (A ++ "|" :: " " :: X)
  = A ++ "|" :: match X with [] => [] | _ => " " :: X end.
Proof.
  intros -> H0 HX. unfold trim. cbn [app]. rewrite trimStart_head by done.
  rewrite app_comm_cons.
  replace ((c0 :: A0) ++ "|" :: " " :: X) with (((c0 :: A0) ++ ["|"]) ++ " " :: X)
    by (by rewrite <- app_assoc).
  rewrite trimEnd_app. destruct X as [|x X].
  - cbn [trimEnd]. change (is_space " ") with true. cbn iota.
    by rewrite trimEnd_snoc.
  - rewrite trimEnd_cons by (by rewrite HX). rewrite HX.
    by rewrite <- app_assoc.
Qed.

Lemma parseLine_line d s e X :
  is_date d → is_time s → is_time e → trimEnd X = X → one_line X →
  parseLine (d ++ " " :: s ++ " " :: "-" :: " " :: e ++ " " :: "|" :: " " :: X)
  = let pd := parseDescription (trimStart X) in
    Some (mkParsed
            (mkTimeEntry (generateStableId d s e) d s e
                         (d_description pd) (d_tags pd) (d_isPomodoro pd) (d_isBreak pd))
            (trim (d ++ " " :: s ++ " " :: "-" :: " " :: e ++ " " :: "|" :: " " :: X))).
Proof.
  intros Hd Hs He HX Hone.
  pose proof (is_date_visible d Hd) as Hv.
  assert (∃ c0 d0, d = c0 :: d0) as (c0 & d0 & Ed).
  { apply re_date_Some in Hd as (_ & y & m & dd & -> & [Hy _] & _).
    destruct y; [done|]. eauto. }
  assert (H0 : is_space c0 = false) by (rewrite Ed in Hv; by apply Forall_cons in Hv as [? _]).
  set (line := d ++ " " :: s ++ " " :: "-" :: " " :: e ++ " " :: "|" :: " " :: X).
  assert (Hline : line = (d ++ " " :: s ++ " " :: "-" :: " " :: e ++ [" "])
                         ++ "|" :: " " :: X).
  { unfold line. by repeat (rewrite <- app_assoc; cbn [app]). }
  assert (Htrim : trim line
                  = d ++ " " :: s ++ " " :: "-" :: " " :: e ++ " " :: "|" ::
                    match X with [] => [] | _ => " " :: X end).
  { rewrite Hline, (trim_line_shape _ c0 (d0 ++ " " :: s ++ " " :: "-" :: " " :: e ++ [" "]));
      [|by rewrite Ed|done..].
    by repeat (rewrite <- app_assoc; cbn [app]). }
  unfold parseLine. fold line. rewrite Htrim.
  rewrite ENTRY_REGEX_line; [|done..|].
  - assert (trimStart (match X with [] => [] | _ => " " :: X end) = trimStart X) as ->
      by (by destruct X).
    rewrite Ed. reflexivity.
  - assert (trimStart (match X with [] => [] | _ => " " :: X end) = trimStart X) as ->
      by (by destruct X).
    by apply one_line_trimStart.
Qed.

Lemma formatEntry_plain e :
  plain_entry e →
  formatEntry e
  = date e ++ " " :: startTime e ++ " " :: "-" :: " " :: endTime e
      ++ " " :: "|" :: " " :: encoded (description e) (tags e) (isPomodoro e).
Proof.
  intros He. unfold formatEntry. cbn zeta.
  pose proof (encoded_eq (description e) (tags e) (isPomodoro e)) as Henc.
  cbn zeta in Henc. rewrite Henc.
  assert (isBreak e
          && negb (includes (toLowerCase (encoded (description e) (tags e) (isPomodoro e)))
                            (lit "break")) = false) as ->; [|reflexivity].
  rewrite (pe_isBreak e He).
  case_bool_decide as HD; [|done].
  case_bool_decide as HT; [|done].
  destruct (isPomodoro e); [done|]. cbn [negb andb].
  rewrite HT. unfold encoded, segments. cbn [fmap list_fmap app pom_seg join].
  by rewrite HD.
Qed.




(** Outside the plain records the fields move: a blank before the
    description is trimmed away, a tag written in the description
    becomes a tag, and a tag that is no word is cut at its first
    character that is not of a word. *)
Lemma fields_move_outside_plain_entries :
  let back (e : TimeEntry) :=
    (λ p : ParsedEntry, (description p, tags p, isPomodoro p, isBreak p))
      <$> parseContent (formatEntry e) in
  back (mkTimeEntry [] (lit "2025-01-21") (lit "12:00") (lit "13:00")
                    (lit " Lunch") [] false false)
    = [(lit "Lunch", [], false, false)] ∧
  back (mkTimeEntry [] (lit "2025-01-21") (lit "12:00") (lit "13:00")
                    (lit "Fix #42") [] false false)
    = [(lit "Fix", [lit "42"], false, false)] ∧
  back (mkTimeEntry [] (lit "2025-01-21") (lit "12:00") (lit "13:00")
                    (lit "Call") [lit "follow-up"] false false)
    = [(lit "Call -up", [lit "follow"], false, false)] ∧
  back (mkTimeEntry [] (lit "2025-01-21") (lit "12:00") (lit "13:00")
                    (lit "break") [lit "rest"] false true)
    = [(lit "break", [lit "rest"], false, false)].
Proof. vm_compute. split_and!; reflexivity. Qed.

End RoundTrip.

(* ================================================================== *)
(** * Times, slots and clocks *)
(* ================================================================== *)
Section TimeFacts.
Import Js Time Storage.
Local Open Scope Z_scope.

Lemma pad2_table :
  forallb (λ n : nat,
             let d := pad2 (Z.of_nat n) in
             (length d =? 2)%nat && forallb is_digit d
             && bool_decide (Number d = Some (Z.of_nat n)))
          (seq 0 100) = true.
Proof. vm_compute. reflexivity. Qed.

Lemma pad2_spec n :
  0 <= n < 100 → digits 2 (pad2 n) ∧ Number (pad2 n) = Some n.
Proof.
  intros Hn. pose proof pad2_table as H. rewrite forallb_forall in H.
  assert (Hin : In (Z.to_nat n) (seq 0 100)) by (apply in_seq; lia).
  apply H in Hin. cbn zeta in Hin. rewrite Z2Nat.id in Hin by lia.
  apply andb_prop in Hin as [[H1 H2]%andb_prop H3].
  split; [split|].
  - by apply Nat.eqb_eq.
  - apply Forall_forall. intros c Hc. rewrite forallb_forall in H2.
    apply H2. by apply list_elem_of_In.
  - by apply bool_decide_eq_true in H3.
Qed.

Lemma digits_no_colon n d : digits n d → ":"%char ∉ d.
Proof.
  intros [_ H] Hin. rewrite Forall_forall in H.
  apply H, digit_not_sep in Hin. tauto.
Qed.

Lemma split_two a b :
  ":"%char ∉ a → ":"%char ∉ b → split ":" (a ++ ":"%char :: b) = [a; b].
Proof. intros Ha Hb. by rewrite split_app_sep, split_free. Qed.

Lemma split_three a b c :
  ":"%char ∉ a → ":"%char ∉ b → ":"%char ∉ c →
  split ":" (a ++ ":"%char :: b ++ ":"%char :: c) = [a; b; c].
Proof. intros Ha Hb Hc. by rewrite split_app_sep, split_two. Qed.

(** A time written from two numbers below 100. *)
Lemma time_of_fields h m :
  0 <= h < 100 → 0 <= m < 100 →
  is_time (pad2 h ++ ":"%char :: pad2 m) ∧
  parseTimeToMinutes (pad2 h ++ ":"%char :: pad2 m) = Some (h * 60 + m).
Proof.
  intros Hh Hm.
  destruct (pad2_spec h Hh) as [Dh Nh], (pad2_spec m Hm) as [Dm Nm].
  split.
  - unfold is_time. rewrite <- (app_nil_r (pad2 h ++ _)) at 1.
    by apply re_time_app.
  - unfold parseTimeToMinutes.
    rewrite split_two by (by eapply digits_no_colon).
    rewrite Nh, Nm. reflexivity.
Qed.

Lemma minutesToTime_fields m :
  0 <= m < 2 ^ 31 →
  minutesToTime m = pad2 (m / 60 mod 24) ++ ":"%char :: pad2 (m mod 60).
Proof.
  intros [Hm _]. unfold minutesToTime. cbn zeta.
  rewrite !Z.rem_mod_nonneg by (try apply Z.div_pos; lia).
  reflexivity.
Qed.

(** The time written for a number of minutes reads back as the minute
    of the day. *)
Lemma minutesToTime_parse m :
  0 <= m < 2 ^ 31 →
  is_time (minutesToTime m) ∧
  parseTimeToMinutes (minutesToTime m) = Some (m mod 1440).
Proof.
  intros Hm. rewrite minutesToTime_fields by done. destruct Hm as [Hm _].
  assert (Hh : 0 <= m / 60 mod 24 < 24) by (apply Z.mod_pos_bound; lia).
  assert (Hmi : 0 <= m mod 60 < 60) by (apply Z.mod_pos_bound; lia).
  destruct (time_of_fields (m / 60 mod 24) (m mod 60)) as [H1 H2]; [lia..|].
  split; [done|]. rewrite H2. f_equal.
  Z.div_mod_to_equations. lia.
Qed.

(** X1. Every number of minutes from 0 to below [2 ^ 31] is written as
    a well-formed time, which reads back as that number within the
    day: the minutes modulo 1440. *)
Theorem minutesToTime_reads_back (m : Z) :
  0 <= m < 2 ^ 31 →
  is_time (minutesToTime m) ∧
  parseTimeToMinutes (minutesToTime m) = Some (m mod 1440).
Proof. apply minutesToTime_parse. Qed.

Lemma minutesToTime_reads_back_witness :
  parseTimeToMinutes (minutesToTime 1500) = Some 60.
Proof.
  destruct (minutesToTime_reads_back 1500) as [_ H]; [lia|exact H].
Defined.

(** X2. Inside the day, a slot is found again from the time it is
    written as. *)
Theorem timeToSlot_slotToTime (slot : Z) :
  0 <= slot < 96 → timeToSlot (slotToTime slot) = Some slot.
Proof.
  intros Hs. unfold timeToSlot, slotToTime.
  destruct (minutesToTime_parse (slot * 15)) as [_ H]; [lia|].
  rewrite H. cbn. f_equal. Z.div_mod_to_equations. lia.
Qed.

Lemma timeToSlot_slotToTime_witness : timeToSlot (slotToTime 37) = Some 37.
Proof. apply timeToSlot_slotToTime. lia. Defined.

Lemma digit_cases c : is_digit c = true → c ∈ digit_chars.
Proof.
  destruct c as [[] [] [] [] [] [] [] []]; vm_compute; try discriminate;
    intros _; repeat first [apply list_elem_of_here | apply list_elem_of_further].
Qed.

Lemma two_digits_table :
  forallb (λ a, forallb (λ b,
      let n := digit_val a * 10 + digit_val b in
      (0 <=? n) && (n <? 100) && bool_decide (pad2 n = [a; b])
      && bool_decide (Number [a; b] = Some n)) digit_chars) digit_chars = true.
Proof. vm_compute. reflexivity. Qed.

(** Two digits are the writing of the number they stand for. *)
Lemma two_digits d :
  digits 2 d → ∃ n, 0 <= n < 100 ∧ d = pad2 n ∧ Number d = Some n.
Proof.
  intros [Hlen Hd]. destruct d as [|a [|b [|? ?]]]; try done.
  apply Forall_cons in Hd as [Ha Hd]. apply Forall_cons in Hd as [Hb _].
  apply digit_cases, list_elem_of_In in Ha, Hb.
  pose proof two_digits_table as H. rewrite forallb_forall in H.
  specialize (H a Ha). rewrite forallb_forall in H. specialize (H b Hb).
  cbn zeta in H.
  apply andb_prop in H as [[[H1 H2]%andb_prop H3]%andb_prop H4].
  exists (digit_val a * 10 + digit_val b). split_and!.
  - by apply Z.leb_le.
  - by apply Z.ltb_lt.
  - symmetry. by apply bool_decide_eq_true in H3.
  - by apply bool_decide_eq_true in H4.
Qed.

Lemma is_time_fields t :
  is_time t →
  ∃ h m, 0 <= h < 100 ∧ 0 <= m < 100 ∧ t = pad2 h ++ ":"%char :: pad2 m.
Proof.
  intros (_ & dh & dm & -> & Hh & Hm)%re_time_Some.
  apply two_digits in Hh as (h & ? & -> & _), Hm as (m & ? & -> & _).
  by exists h, m.
Qed.

(** X3. A well-formed time always reads as a number of minutes: its
    first two characters read as a number of hours [h] and its last
    two as a number of minutes [m], both below 100, and the time reads
    as [h * 60 + m]; when it is a time of the day ([h] below 24, [m]
    below 60), writing that number gives the same text again. *)
Theorem parseTimeToMinutes_of_time (t : str) :
  is_time t →
  ∃ h m, Number (take 2 t) = Some h ∧ Number (drop 3 t) = Some m ∧
         0 <= h < 100 ∧ 0 <= m < 100 ∧
         parseTimeToMinutes t = Some (h * 60 + m) ∧
         (h < 24 → m < 60 → minutesToTime (h * 60 + m) = t).
Proof.
  intros (h & m & Hh & Hm & ->)%is_time_fields.
  exists h, m. destruct (time_of_fields h m Hh Hm) as [_ Hp].
  destruct (pad2_spec h Hh) as [[Lh _] Nh], (pad2_spec m Hm) as [_ Nm].
  assert (Htake : take 2 (pad2 h ++ ":"%char :: pad2 m) = pad2 h).
  { rewrite <- Lh. by rewrite take_app_length. }
  assert (Hdrop : drop 3 (pad2 h ++ ":"%char :: pad2 m) = pad2 m).
  { change 3%nat with (2 + 1)%nat. rewrite <- drop_drop, <- Lh.
    by rewrite drop_app_length. }
  rewrite Htake, Hdrop.
  split_and!; [done|done|lia..|done|].
  intros H24 H60. rewrite minutesToTime_fields by lia.
  f_equal; [|f_equal]; f_equal; Z.div_mod_to_equations; lia.
Qed.

Lemma parseTimeToMinutes_of_time_witness :
  ∃ h m, Number (lit "23") = Some h ∧ Number (lit "45") = Some m ∧
         parseTimeToMinutes (lit "23:45") = Some (h * 60 + m) ∧
         (h < 24 → m < 60 → minutesToTime (h * 60 + m) = lit "23:45").
Proof.
  destruct (parseTimeToMinutes_of_time (lit "23:45"))
    as (h & m & N1 & N2 & _ & _ & H1 & H2); [reflexivity|].
  by exists h, m.
Defined.

(** X4. For minutes between [- 2 ^ 31] and [2 ^ 31], [roundToSlot]
    yields the multiple of 15 that is nearest to the minutes, the
    upper one at equal distance, and keeps the multiples of 15. *)
Theorem roundToSlot_nearest (minutes : Z) :
  - 2 ^ 31 < minutes < 2 ^ 31 →
  roundToSlot minutes mod 15 = 0 ∧
  -15 < 2 * (roundToSlot minutes - minutes) <= 15 ∧
  (minutes mod 15 = 0 → roundToSlot minutes = minutes).
Proof. intros _. unfold roundToSlot. Z.div_mod_to_equations. lia. Qed.

Lemma roundToSlot_nearest_witness :
  -15 < 2 * (roundToSlot 52 - 52) <= 15 ∧ roundToSlot 45 = 45.
Proof.
  split.
  - destruct (roundToSlot_nearest 52) as (_ & H & _); [lia|exact H].
  - destruct (roundToSlot_nearest 45) as (_ & _ & H); [lia|]. apply H. reflexivity.
Defined.

(** X5. Below a hundred hours, the clock text of a number of seconds
    reads as that number; below one hour it has the two fields of a
    well-formed time. *)
Theorem formatSeconds_reads_back (seconds : Z) :
  0 <= seconds < 360000 →
  readClock (formatSeconds seconds) = Some seconds ∧
  (seconds < 3600 → is_time (formatSeconds seconds)).
Proof.
  intros Hs. unfold formatSeconds. cbn zeta.
  rewrite !Z.rem_mod_nonneg by lia.
  assert (Hh : 0 <= seconds / 3600 < 100) by (Z.div_mod_to_equations; lia).
  assert (Hm : 0 <= seconds mod 3600 / 60 < 60) by (Z.div_mod_to_equations; lia).
  assert (Hc : 0 <= seconds mod 60 < 60) by (Z.div_mod_to_equations; lia).
  fold (pad2 (seconds / 3600)) (pad2 (seconds mod 3600 / 60)) (pad2 (seconds mod 60)).
  destruct (pad2_spec _ Hh) as [Dh Nh].
  destruct (pad2_spec (seconds mod 3600 / 60)) as [Dm Nm]; [lia|].
  destruct (pad2_spec (seconds mod 60)) as [Dc Nc]; [lia|].
  cbn [lit list_ascii_of_string app].
  destruct (Z.ltb_spec 0 (seconds / 3600)) as [Hpos|Hzero].
  - split; [|intros Hlt; exfalso; Z.div_mod_to_equations; lia].
    unfold readClock. rewrite split_three by (by eapply digits_no_colon).
    cbn [fmap list_fmap]. rewrite Nh, Nm, Nc. f_equal.
    Z.div_mod_to_equations. lia.
  - split.
    + unfold readClock. rewrite split_two by (by eapply digits_no_colon).
      cbn [fmap list_fmap]. rewrite Nm, Nc. f_equal.
      Z.div_mod_to_equations. lia.
    + intros _. apply time_of_fields; lia.
Qed.

Lemma formatSeconds_reads_back_witness :
  readClock (formatSeconds 1500) = Some 1500 ∧ readClock (formatSeconds 3725) = Some 3725.
Proof.
  split.
  - destruct (formatSeconds_reads_back 1500) as [H _]; [lia|exact H].
  - destruct (formatSeconds_reads_back 3725) as [H _]; [lia|exact H].
Defined.

End TimeFacts.

(* ================================================================== *)
(** * Weeks *)
(* ================================================================== *)
Section WeekFacts.
Import Time.
Local Open Scope Z_scope.

Lemma getWeekStart_day (norm : Z → Z → Date) (d : Date) (weekStartDay : Z) :
  keeps_days norm → 0 <= weekStartDay < 7 →
  getWeekStart norm d weekStartDay
  = norm (dayNumber d - (dayNumber d + 4 - weekStartDay) mod 7) 0.
Proof.
  intros Hk Hw. unfold getWeekStart, setHours0, addDays, getDay. cbn zeta.
  rewrite Hk. f_equal.
  rewrite Z.rem_mod_nonneg by (Z.div_mod_to_equations; lia).
  Z.div_mod_to_equations. lia.
Qed.

(** X6. In a time zone that skips no day, and for a week start day
    0..6: the start of the week of a date falls on that day of the
    week, at most six days before the date, and is what the zone gives
    for midnight on its day; every date of the seven days from there
    has the same start of week; the week dates and the seven days from
    the start fall on these seven days, one after the other, the day
    of the date among them.  Where every day of the zone begins at
    midnight, the start of the week is a midnight and the week dates
    are the seven days from it. *)
Theorem getWeekStart_week (norm : Z → Z → Date) (date : Date) (weekStartDay : Z) :
  keeps_days norm → day_in_range date → 0 <= weekStartDay < 7 →
  let start := getWeekStart norm date weekStartDay in
  let days := (λ i, dayNumber start + i) <$> [0; 1; 2; 3; 4; 5; 6] in
  getDay start = weekStartDay ∧
  start = norm (dayNumber start) 0 ∧
  0 <= dayNumber date - dayNumber start < 7 ∧
  (∀ d : Date, 0 <= dayNumber d - dayNumber start < 7 →
               getWeekStart norm d weekStartDay = start) ∧
  dayNumber <$> getWeekDates norm date weekStartDay = days ∧
  dayNumber <$> get7DaysFrom norm start = days ∧
  dayNumber date ∈ days ∧
  (has_midnights norm →
     msOfDay start = 0 ∧
     getWeekDates norm date weekStartDay = get7DaysFrom norm start).
Proof.
  intros Hk _ Hw. cbn zeta.
  assert (Hstart : ∀ d : Date,
             dayNumber (getWeekStart norm d weekStartDay)
             = dayNumber d - (dayNumber d + 4 - weekStartDay) mod 7).
  { intros d. by rewrite getWeekStart_day, Hk. }
  split; [|split; [|split; [|split; [|split; [|split; [|split]]]]]].
  - unfold getDay. rewrite Hstart. Z.div_mod_to_equations. lia.
  - rewrite Hstart. by apply getWeekStart_day.
  - rewrite Hstart. Z.div_mod_to_equations. lia.
  - intros d Hd. rewrite !getWeekStart_day by done. f_equal.
    rewrite !Hstart in Hd. Z.div_mod_to_equations. lia.
  - unfold getWeekDates, addDays. rewrite <- list_fmap_compose.
    apply list_fmap_ext. intros i x _. cbn. by rewrite Hk.
  - unfold get7DaysFrom, setHours0, addDays. rewrite <- list_fmap_compose.
    apply list_fmap_ext. intros i x _. cbn. by rewrite !Hk.
  - pose proof (Hstart date) as Hs.
    assert (Hr : 0 <= (dayNumber date + 4 - weekStartDay) mod 7 < 7)
      by (apply Z.mod_pos_bound; lia).
    set (k := (dayNumber date + 4 - weekStartDay) mod 7) in *.
    apply list_elem_of_fmap. exists k. split; [lia|].
    assert (k = 0 ∨ k = 1 ∨ k = 2 ∨ k = 3 ∨ k = 4 ∨ k = 5 ∨ k = 6) as Hc by lia.
    repeat (destruct Hc as [->|Hc];
            [repeat first [apply list_elem_of_here | apply list_elem_of_further]|]).
    subst k. rewrite Hc.
    repeat first [apply list_elem_of_here | apply list_elem_of_further].
  - intros Hm.
    assert (Hs : getWeekStart norm date weekStartDay
                 = mkDate (dayNumber (getWeekStart norm date weekStartDay)) 0).
    { rewrite Hstart, getWeekStart_day by done. apply Hm. }
    split; [by rewrite Hs|].
    unfold getWeekDates, get7DaysFrom, setHours0, addDays.
    apply list_fmap_ext. intros i x _. rewrite Hk.
    rewrite Hs at 2. cbn [msOfDay]. done.
Qed.

Lemma skipped_midnight_zone_keeps_days : keeps_days skipped_midnight_zone.
Proof.
  intros day ms. unfold skipped_midnight_zone.
  by destruct (_ && _).
Qed.

Lemma getWeekStart_week_witness :
  getDay (getWeekStart skipped_midnight_zone (mkDate 19976 5000) 0) = 0 ∧
  getWeekStart skipped_midnight_zone (mkDate 19976 5000) 0
  = skipped_midnight_zone 19974 0 ∧
  dayNumber <$> getWeekDates skipped_midnight_zone (mkDate 19976 5000) 0
  = [19974; 19975; 19976; 19977; 19978; 19979; 19980].
Proof.
  destruct (getWeekStart_week skipped_midnight_zone (mkDate 19976 5000) 0)
    as (H1 & H2 & _ & _ & H3 & _);
    [apply skipped_midnight_zone_keeps_days | unfold day_in_range; cbn; lia | lia |].
  split; [exact H1|]. split; [exact H2|]. exact H3.
Defined.

(** Where a midnight is skipped the week starts an hour later, and the
    other days of the week are given at that hour too, not at their
    midnights. *)
Lemma week_of_skipped_midnight :
  getWeekStart skipped_midnight_zone (mkDate 19976 5000) 0 = mkDate 19974 3600000 ∧
  getWeekDates skipped_midnight_zone (mkDate 19976 5000) 0 !! 1%nat
  = Some (mkDate 19975 3600000) ∧
  get7DaysFrom skipped_midnight_zone (mkDate 19974 3600000) !! 1%nat
  = Some (mkDate 19975 0).
Proof. vm_compute. done. Qed.

End WeekFacts.

(* ================================================================== *)
(** * What parsing a file yields *)
(* ================================================================== *)
Section ParseFacts.
Import Js Storage.

Lemma split_app sep a b : split sep (a ++ sep :: b) = split sep a ++ split sep b.
Proof.
  induction a as [|c a IH]; cbn [app split].
  - by rewrite decide_True.
  - rewrite IH. case_decide; [done|].
    pose proof (split_nonempty sep a). by destruct (split sep a).
Qed.

Lemma parseContent_nil : parseContent [] = [].
Proof. reflexivity. Qed.

Lemma parseContent_lines (a b : str) :
  parseContent (a ++ LF :: b) = parseContent a ++ parseContent b.
Proof. unfold parseContent. by rewrite split_app, omap_app. Qed.

(** X7. The records of a file are the records of its part before a
    line feed followed by the records of its part after it. *)
Theorem parseContent_app (a b : str) :
  parseContent (a ++ LF :: b) = parseContent a ++ parseContent b.
Proof. apply parseContent_lines. Qed.

Lemma endsWith_char_true c s : endsWith_char c s = true → ∃ s', s = s' ++ [c].
Proof.
  induction s as [|x [|y s] IH]; [done| |].
  - cbn. intros ->%bool_decide_eq_true. by exists [].
  - intros H. destruct IH as [s' Hs']; [exact H|]. exists (x :: s').
    by rewrite Hs'.
Qed.

Lemma appendLineToContent_shape (content newLine : str) :
  (∃ sep, (sep = [] ∨ sep = [LF]) ∧
          appendLineToContent content newLine = content ++ sep ++ newLine) ∧
  parseContent (appendLineToContent content newLine)
  = parseContent content ++ parseContent newLine.
Proof.
  unfold appendLineToContent.
  destruct content as [|c content]; [split; [exists []; split; [by left|done]|done]|].
  set (s := c :: content).
  destruct (endsWith_char LF s) eqn:He.
  - split; [exists []; split; [by left|done]|].
    apply endsWith_char_true in He as [s' ->].
    rewrite <- !app_assoc. cbn [app]. rewrite !parseContent_lines.
    by rewrite parseContent_nil, app_nil_r.
  - split; [exists [LF]; split; [by right|by rewrite <- app_assoc]|].
    rewrite <- app_assoc. cbn [app]. apply parseContent_lines.
Qed.

(** X8. Appending a line keeps the content as it is, puts at most one
    line feed between it and the line, and adds the records of the line
    after the records of the content. *)
Theorem appendLineToContent_parse (content newLine : str) :
  (∃ sep, (sep = [] ∨ sep = [LF]) ∧
          appendLineToContent content newLine = content ++ sep ++ newLine) ∧
  parseContent (appendLineToContent content newLine)
  = parseContent content ++ parseContent newLine.
Proof. apply appendLineToContent_shape. Qed.

Lemma trimStart_visible s c u : trimStart s = c :: u → is_space c = false.
Proof.
  induction s as [|x s IH]; [done|]. cbn.
  destruct (is_space x) eqn:Hx; [done|]. by intros [= <- _].
Qed.

(** A trimmed text is empty or begins and ends with visible characters. *)
Lemma trim_shape s : trim s = [] ∨ solid (trim s).
Proof.
  unfold trim. destruct (trimStart s) as [|c u] eqn:Hu; [by left|right].
  pose proof (trimStart_visible _ _ _ Hu) as Hc.
  assert (∃ v, trimEnd (c :: u) = c :: v) as [v Hv].
  { cbn. destruct (trimEnd u); [rewrite Hc|]; eauto. }
  destruct (exists_last (l:=trimEnd (c :: u))) as (t1 & c1 & Ht); [by rewrite Hv|].
  exists c, v, c1, t1. split_and!; [done|done|done|].
  by eapply trimEnd_last.
Qed.

Lemma trim_idem s : trim (trim s) = trim s.
Proof. destruct (trim_shape s) as [->|H]; [done|by apply solid_trim]. Qed.

Lemma parseLine_trim l : parseLine (trim l) = parseLine l.
Proof. unfold parseLine. by rewrite trim_idem. Qed.

Lemma parseLine_same_trim l1 l2 : trim l1 = trim l2 → parseLine l1 = parseLine l2.
Proof. unfold parseLine. by intros ->. Qed.

Lemma parseLine_originalLine l e : parseLine l = Some e → originalLine e = trim l.
Proof.
  unfold parseLine. destruct (trim l) as [|c t] eqn:Ht; [done|].
  destruct (ENTRY_REGEX (c :: t)) as [[[[d s] en] rest]|]; [|done].
  cbn. by intros [= <-].
Qed.

Lemma re_date_is_date s d r : re_date s = Some (d, r) → is_date d.
Proof.
  intros (_ & y & m & dd & -> & ? & ? & ?)%re_date_Some. unfold is_date.
  rewrite <- (app_nil_r (y ++ _)) at 1. by apply re_date_app.
Qed.

Lemma re_time_is_time s t r : re_time s = Some (t, r) → is_time t.
Proof.
  intros (_ & h & m & -> & ? & ?)%re_time_Some. unfold is_time.
  rewrite <- (app_nil_r (h ++ _)) at 1. by apply re_time_app.
Qed.

Lemma ENTRY_REGEX_Some s d st en rest :
  ENTRY_REGEX s = Some (d, st, en, rest) →
  is_date d ∧ is_time st ∧ is_time en ∧ one_line rest.
Proof.
  unfold ENTRY_REGEX. intros H.
  destruct (re_date s) as [[d' s1]|] eqn:E1; [|done]. cbn in H.
  destruct (re_spaces1 s1) as [s2|] eqn:E2; [|done]. cbn in H.
  destruct (re_time s2) as [[st' s3]|] eqn:E3; [|done]. cbn in H.
  destruct (re_char "-" (trimStart s3)) as [s4|] eqn:E4; [|done]. cbn in H.
  destruct (re_time (trimStart s4)) as [[en' s5]|] eqn:E5; [|done]. cbn in H.
  destruct (re_char "|" (trimStart s5)) as [s6|] eqn:E6; [|done]. cbn in H.
  unfold re_rest in H.
  destruct (forallb _ (trimStart s6)) eqn:E7; [|done]. cbn in H.
  injection H as <- <- <- <-.
  split_and!; [by eapply re_date_is_date|by eapply re_time_is_time..|done].
Qed.

Lemma take_take_while (p : ascii → bool) s :
  take (length (take_while p s)) s = take_while p s.
Proof. induction s as [|c s IH]; [done|]. cbn. destruct (p c); cbn; by f_equal. Qed.

Lemma take_while_Forall (p : ascii → bool) s :
  Forall (λ c, p c = true) (take_while p s).
Proof.
  induction s as [|c s IH]; cbn; [constructor|].
  destruct (p c) eqn:Hc; by constructor.
Qed.

(** Every match of the tag expression is a hash and a non-empty word. *)
Lemma match_g_tag_words s k x :
  x ∈ match_g re_tag k s →
  ∃ w, x = "#"%char :: w ∧ w ≠ [] ∧ Forall (λ c, is_word c = true) w.
Proof.
  revert k. induction s as [|c s IH]; intros k; [by intros ?%elem_of_nil|].
  cbn [match_g]. destruct k as [|k]; [|apply IH].
  destruct (re_tag (c :: s)) as [[|n]|] eqn:E; [apply IH| |apply IH].
  intros [->|Hx]%elem_of_cons; [|by eapply IH].
  cbn in E. case_decide as Hc; [|done]. subst c.
  destruct (length (take_while is_word s)) as [|m] eqn:Hl; [done|].
  injection E as <-. exists (take (S m) s). split; [done|].
  rewrite <- Hl, take_take_while. split; [|apply take_while_Forall].
  intros H0. by rewrite H0 in Hl.
Qed.

Lemma tags_of_text_ok s : forallb tag_ok (drop 1 <$> match_g re_tag 0 s) = true.
Proof.
  apply tags_ok_spec, Forall_fmap, Forall_forall.
  intros x (w & -> & Hne & Hw)%match_g_tag_words. done.
Qed.

Lemma parseLine_ok l e : parseLine l = Some e → parsed_ok e.
Proof.
  intros H. pose proof (parseLine_originalLine _ _ H) as Ho.
  unfold parseLine in H. destruct (trim l) as [|c t] eqn:Ht; [done|].
  destruct (ENTRY_REGEX (c :: t)) as [[[[d s] en] rest]|] eqn:E; [|done].
  cbn in H. injection H as <-.
  apply ENTRY_REGEX_Some in E as Hf. destruct Hf as (Hd & Hs & He & _).
  unfold parsed_ok. cbn [te id date startTime endTime description tags originalLine].
  split_and!; [done..|apply trim_idem|apply tags_of_text_ok| |by rewrite E].
  rewrite <- Ht. apply trim_idem.
Qed.

(** X9. Every record read from a file has a well-formed date and
    well-formed times, the identifier generated from them, a trimmed
    description, tags that are non-empty words, and as its original
    line the trimmed text of a line of the file, which matches the
    grammar. *)
Theorem parseContent_entries_ok (content : str) (e : ParsedEntry) :
  e ∈ parseContent content →
  parsed_ok e ∧ ∃ line, line ∈ split LF content ∧ originalLine e = trim line.
Proof.
  intros (l & Hl & He)%list_elem_of_omap. split; [by eapply parseLine_ok|].
  exists l. split; [done|]. by apply parseLine_originalLine.
Qed.

Lemma parseContent_entries_ok_witness : parsed_ok deep_work.
Proof.
  apply (parseContent_entries_ok log_file deep_work).
  vm_compute. apply list_elem_of_here.
Defined.

Lemma trim_no_LF l : LF ∉ l → LF ∉ trim l.
Proof.
  intros Hl Hin. apply Hl.
  destruct (trimStart_split l) as (a & _ & Ha).
  destruct (trimEnd_split (trimStart l)) as (b & _ & Hb).
  rewrite Ha, Hb. apply elem_of_app. right. apply elem_of_app. by left.
Qed.

(** X10. The original line kept with a record read from a file is
    itself a file of exactly that record. *)
Theorem parseContent_originalLine (content : str) (e : ParsedEntry) :
  e ∈ parseContent content → parseContent (originalLine e) = [e].
Proof.
  intros (l & Hl & He)%list_elem_of_omap.
  rewrite (parseLine_originalLine _ _ He). unfold parseContent.
  rewrite split_free.
  - cbn. by rewrite parseLine_trim, He.
  - apply trim_no_LF.
    pose proof (split_lines_free LF content) as Hf. rewrite Forall_forall in Hf.
    by apply Hf.
Qed.

Lemma parseContent_originalLine_witness :
  parseContent (lit "2025-01-21 13:00-13:30|Deep work #dev (pomodoro)") = [deep_work].
Proof.
  apply (parseContent_originalLine log_file deep_work).
  vm_compute. apply list_elem_of_here.
Defined.

End ParseFacts.

(* ================================================================== *)
(** * The store and its file *)
(* ================================================================== *)
Section SyncFacts.
Import Js Storage.

Lemma parseLine_formatEntry e :
  plain_entry e →
  parseLine (formatEntry e) = Some (mkParsed e (trim (formatEntry e))) ∧
  LF ∉ formatEntry e.
Proof.
  intros He. pose proof He as [Hid Hd Hs Hen Htrim Hone Htag Hpom Hbrk HT HB].
  apply trim_fixed in Htrim as HD.
  destruct (encoded_trim (description e) (tags e) (isPomodoro e) HD HT) as [Hrest Hend].
  pose proof (encoded_one_line _ _ (isPomodoro e) Hone HT) as Hone'.
  rewrite (formatEntry_plain e He).
  set (line := date e ++ _).
  assert (Hline : one_line line).
  { unfold line.
    repeat first [ apply one_line_app; split | apply one_line_cons; split ];
      try done; apply one_line_visible;
      first [by apply is_date_visible | by apply is_time_visible]. }
  split; [|by apply one_line_no_LF].
  unfold line at 1. rewrite parseLine_line by done. cbn zeta. fold line.
  f_equal. f_equal.
  rewrite Hrest. unfold parseDescription.
  cbn [d_description d_tags d_isPomodoro d_isBreak].
  fold (strip (rest_of (description e) (tags e) (isPomodoro e))).
  rewrite description_back, tags_back, isPomodoro_back, isBreak_back by done.
  rewrite <- HB, <- Hid. by destruct e.
Qed.

Lemma encoded_nonempty D T P :
  D ≠ [] ∨ T ≠ [] ∨ P = true → encoded D T P ≠ [].
Proof.
  unfold encoded. intros H.
  destruct (segments T P) as [|q ps] eqn:Es.
  - destruct H as [H|[H|H]]; [done| |].
    + unfold segments in Es. by destruct T.
    + subst P. unfold segments in Es. by destruct T.
  - rewrite join_cons2. cbn [lit list_ascii_of_string]. by destruct D.
Qed.

Lemma formatEntry_trimmed e : writable_entry e → trim (formatEntry e) = formatEntry e.
Proof.
  intros [He Hne]. pose proof He as [Hid Hd Hs Hen Htrim Hone Htag Hpom Hbrk HT HB].
  apply trim_fixed in Htrim as HD.
  destruct (encoded_trim (description e) (tags e) (isPomodoro e) HD HT) as [_ Hend].
  pose proof (encoded_nonempty _ _ _ Hne) as HX.
  rewrite (formatEntry_plain e He).
  set (X := encoded _ _ _) in *.
  pose proof (is_date_visible _ Hd) as Hv.
  assert (∃ c0 d0, date e = c0 :: d0) as (c0 & d0 & Ed).
  { apply re_date_Some in Hd as (_ & y & m & dd & -> & [Hy _] & _).
    destruct y; [done|]. eauto. }
  assert (H0 : is_space c0 = false) by (rewrite Ed in Hv; by apply Forall_cons in Hv as [? _]).
  transitivity (trim ((date e ++ " "%char :: startTime e ++ " "%char :: "-"%char :: " "%char
                          :: endTime e ++ [" "%char]) ++ "|"%char :: " "%char :: X)).
  { f_equal. by repeat (rewrite <- app_assoc; cbn [app]). }
  rewrite (trim_line_shape _ c0 (d0 ++ " "%char :: startTime e ++ " "%char :: "-"%char
                                    :: " "%char :: endTime e ++ [" "%char]));
    [|by rewrite Ed|done..].
  destruct X; [done|]. by repeat (rewrite <- app_assoc; cbn [app]).
Qed.

Lemma parseContent_join ls :
  Forall (λ l, LF ∉ l) ls → parseContent (join [LF] ls) = omap parseLine ls.
Proof.
  intros H. destruct ls as [|l ls]; [done|].
  unfold parseContent. by rewrite split_join.
Qed.

Lemma findLine_middle t pre l post :
  (∀ x, x ∈ pre → trim x ≠ t) → trim l = t →
  findLine t (pre ++ l :: post) = Some (length pre).
Proof.
  intros Hpre Hl. unfold findLine.
  rewrite list_find_app_r by (apply list_find_None, Forall_forall; exact Hpre).
  cbn. by rewrite decide_True.
Qed.

(** The line of the first record with an identifier is the first line
    with the original line of that record. *)
Lemma locate_line lines i (old : ParsedEntry) :
  omap parseLine lines !! i = Some old →
  (∀ j (y : ParsedEntry), omap parseLine lines !! j = Some y → j < i → id y ≠ id old) →
  ∃ pre l post,
    lines = pre ++ l :: post ∧ parseLine l = Some old ∧
    (∀ x, x ∈ pre → trim x ≠ originalLine old) ∧
    omap parseLine pre = take i (omap parseLine lines) ∧
    omap parseLine post = drop (S i) (omap parseLine lines).
Proof.
  revert i. induction lines as [|l0 ls IH]; intros i Hi Hfirst; [done|].
  assert (Hne : ∀ pre l post,
             ls = pre ++ l :: post → parseLine l = Some old →
             parseLine l0 ≠ Some old → trim l0 ≠ originalLine old).
  { intros pre l post _ Hl H0 Ht. apply H0. rewrite <- Hl.
    apply parseLine_same_trim. by rewrite Ht, (parseLine_originalLine _ _ Hl). }
  cbn [omap list_omap] in *. destruct (parseLine l0) as [e0|] eqn:E0.
  - destruct i as [|i].
    + injection Hi as ->. exists [], l0, ls. split_and!; try done.
      intros x Hx. by apply elem_of_nil in Hx.
    + destruct (IH i) as (pre & l & post & -> & Hl & Hpre & Ht & Hd); [done| |].
      { intros j y Hj Hlt. apply (Hfirst (S j) y); [done|lia]. }
      exists (l0 :: pre), l, post. split_and!; try done.
      * intros x [->|Hx]%elem_of_cons; [|by apply Hpre].
        eapply Hne; [done..|]. intros [= ->].
        by apply (Hfirst 0%nat old); [|lia|].
      * cbn [omap list_omap]. rewrite E0. cbn. by f_equal.
  - destruct (IH i) as (pre & l & post & -> & Hl & Hpre & Ht & Hd); [done..|].
    exists (l0 :: pre), l, post. split_and!; try done.
    + intros x [->|Hx]%elem_of_cons; [|by apply Hpre].
      eapply Hne; [done..|]. done.
    + cbn [omap list_omap]. by rewrite E0.
Qed.

Lemma locate_in_file content i idx (old : ParsedEntry) :
  findIndex i (parseContent content) = Some (idx, old) →
  ∃ pre l post,
    split LF content = pre ++ l :: post ∧ parseLine l = Some old ∧
    findLine (originalLine old) (split LF content) = Some (length pre) ∧
    omap parseLine pre = take idx (parseContent content) ∧
    omap parseLine post = drop (S idx) (parseContent content) ∧
    Forall (λ l, LF ∉ l) pre ∧ Forall (λ l, LF ∉ l) post.
Proof.
  intros (Hl & Hid & Hfirst)%list_find_Some.
  destruct (locate_line (split LF content) idx old) as (pre & l & post & Hs & Hp & Hpre & Ht & Hd).
  { exact Hl. }
  { intros j y Hj Hlt. rewrite Hid. by eapply Hfirst. }
  pose proof (split_lines_free LF content) as Hfree. rewrite Hs in Hfree.
  apply Forall_app in Hfree as [Hf1 Hf2]. apply Forall_cons in Hf2 as [_ Hf2].
  exists pre, l, post. split_and!; try done.
  rewrite Hs. apply findLine_middle; [done|].
  symmetry. by apply parseLine_originalLine.
Qed.

(** X11. When the records in memory are those of the file and the
    write succeeds, they still are after [deleteEntry]: the line that
    is removed is the line of the record that is removed. *)
Theorem deleteEntry_keeps_sync (i : str) (st : Store) :
  in_sync st → write_fails st = false → in_sync (deleteEntry i st).
Proof.
  unfold in_sync. intros Hsync Hw. unfold deleteEntry.
  destruct (findIndex i (entries st)) as [[idx old]|] eqn:Hfind; [|done].
  unfold readFile. destruct (file st) as [content|] eqn:Hf.
  - change (entries st = parseContent content) in Hsync. rewrite Hsync in Hfind.
    destruct (locate_in_file _ _ _ _ Hfind) as (pre & l & post & Hs & Hp & Hline & Hpre & Hpost & F1 & F2).
    unfold writeFile. rewrite Hw. cbn [entries file set_entries default].
    unfold removeLineFromContent, Datatypes.id. cbn zeta.
    rewrite Hline, Hs, delete_middle.
    rewrite parseContent_join by (by apply Forall_app).
    rewrite omap_app, Hpre, Hpost, Hsync. apply delete_take_drop.
  - change (entries st = []) in Hsync. rewrite Hsync in Hfind. done.
Qed.

Lemma deleteEntry_keeps_sync_witness :
  in_sync (deleteEntry (lit "20250121_1300_1330") log_store).
Proof. apply deleteEntry_keeps_sync; reflexivity. Defined.

(** X12. When the records in memory are those of the file, the write
    succeeds and the record as updated is plain with a line that does
    not end in a blank, the records in memory still are those of the
    file after [updateEntry]. *)
Theorem updateEntry_keeps_sync (i : str) (updates : PartialEntry) (st : Store) :
  in_sync st → write_fails st = false →
  (∀ idx old, findIndex i (entries st) = Some (idx, old) →
              writable_entry (mergedEntry old updates)) →
  in_sync (updateEntry i updates st).
Proof.
  unfold in_sync. intros Hsync Hw Hplain. unfold updateEntry.
  destruct (findIndex i (entries st)) as [[idx old]|] eqn:Hfind; [|done].
  specialize (Hplain idx old eq_refl). fold (mergedEntry old updates).
  set (new := mergedEntry old updates) in *.
  destruct (parseLine_formatEntry new (proj1 Hplain)) as [Hparse HLF].
  rewrite (formatEntry_trimmed new Hplain) in Hparse.
  unfold readFile. destruct (file st) as [content|] eqn:Hf.
  - change (entries st = parseContent content) in Hsync. rewrite Hsync in Hfind.
    destruct (locate_in_file _ _ _ _ Hfind) as (pre & l & post & Hs & Hp & Hline & Hpre & Hpost & F1 & F2).
    unfold writeFile. rewrite Hw. cbn [entries file set_entries default].
    unfold replaceLineInContent, Datatypes.id. cbn zeta. rewrite Hline, Hs.
    rewrite insert_app_r_alt, Nat.sub_diag by done. cbn [insert list_insert].
    rewrite parseContent_join.
    + rewrite omap_app. cbn [omap list_omap]. rewrite Hparse, Hpre, Hpost, Hsync.
      apply insert_take_drop. rewrite <- Hsync.
      apply list_find_Some in Hfind as [Hl _]. rewrite <- Hsync in Hl.
      by eapply lookup_lt_Some.
    + apply Forall_app. split; [done|]. by constructor.
  - change (entries st = []) in Hsync. rewrite Hsync in Hfind. done.
Qed.

Lemma updateEntry_keeps_sync_witness :
  in_sync (updateEntry (lit "20250121_1300_1330")
             (mkPartial None None None (Some (lit "14:00")) (Some (lit "Reading"))
                        None None None)
             log_store).
Proof.
  apply updateEntry_keeps_sync; [reflexivity..|].
  intros idx old Hfind. vm_compute in Hfind. injection Hfind as <- <-.
  split; [constructor; vm_compute; reflexivity|left; discriminate].
Defined.

(** X13. When the records in memory are those of the file (none, when
    there is no file), the write succeeds and the record as added is
    plain with a line that does not end in a blank, the records in
    memory still are those of the file after [addEntry]. *)
Theorem addEntry_keeps_sync (e : TimeEntry) (st : Store) :
  in_sync st → write_fails st = false → writable_entry (addedEntry e) →
  in_sync (addEntry e st).1.
Proof.
  unfold in_sync. intros Hsync Hw Hplain. unfold addEntry. cbn zeta.
  fold (addedEntry e). set (new := addedEntry e) in *.
  destruct (parseLine_formatEntry new (proj1 Hplain)) as [Hparse HLF].
  rewrite (formatEntry_trimmed new Hplain) in Hparse.
  unfold writeFile, readFile. rewrite Hw.
  cbn [fst entries file set_entries from_option].
  destruct (appendLineToContent_shape (default [] (file st)) (formatEntry new))
    as [_ Happ].
  unfold Datatypes.id in *. rewrite Happ, <- Hsync. f_equal. unfold parseContent.
  rewrite split_free by done. cbn [omap list_omap]. by rewrite Hparse.
Qed.

Lemma addEntry_keeps_sync_witness :
  in_sync (addEntry (mkTimeEntry [] (lit "2025-01-22") (lit "09:00") (lit "09:30")
                                 (lit "Standup") [lit "team"] false false)
                    log_store).1.
Proof.
  apply addEntry_keeps_sync; [reflexivity..|].
  split; [constructor; vm_compute; reflexivity|left; discriminate].
Defined.

Lemma trim_not_blank_end l s : trim l ≠ s ++ [" "%char].
Proof.
  intros H. destruct (trim_shape l) as [H0|(c0 & s0 & c1 & s1 & _ & H1 & _ & Hc)].
  - rewrite H0 in H. by destruct s.
  - rewrite H1 in H. apply app_inj_tail in H as [_ ->]. done.
Qed.

(** X14. The line of a record without description, tags and flags ends
    in a blank, which no trimmed line of a file does: with the original
    line that [addEntry] keeps for such a record, replacing and removing
    leave every content as it is. *)
Theorem blank_description_line_unmatched (e : TimeEntry) (st : Store)
    (content newLine : str) :
  description e = [] → tags e = [] → isPomodoro e = false → isBreak e = false →
  let stored := (addEntry e st).2 in
  originalLine stored
  = date e ++ lit " " ++ startTime e ++ lit " - " ++ endTime e ++ lit " | " ∧
  replaceLineInContent content (originalLine stored) newLine = content ∧
  removeLineFromContent content (originalLine stored) = content.
Proof.
  intros HD HT HP HB. cbn zeta.
  assert (Ho : originalLine (addEntry e st).2
               = date e ++ lit " " ++ startTime e ++ lit " - " ++ endTime e ++ lit " | ").
  { unfold addEntry. cbn [snd originalLine]. unfold formatEntry.
    cbn [with_id description tags isPomodoro isBreak date startTime endTime].
    rewrite HD, HT, HP, HB. reflexivity. }
  split; [done|].
  assert (Hno : findLine (originalLine (addEntry e st).2) (split LF content) = None).
  { apply findLine_None. intros l _. rewrite Ho.
    replace (date e ++ lit " " ++ startTime e ++ lit " - " ++ endTime e ++ lit " | ")
      with ((date e ++ lit " " ++ startTime e ++ lit " - " ++ endTime e ++ lit " |")
              ++ [" "%char])
      by (by repeat (rewrite <- app_assoc; cbn [app lit list_ascii_of_string])).
    apply trim_not_blank_end. }
  unfold replaceLineInContent, removeLineFromContent. cbn zeta.
  rewrite Hno. by rewrite join_split.
Qed.

Lemma blank_description_line_unmatched_witness :
  replaceLineInContent (lit "2025-01-22 09:00 - 09:30 | ")
    (lit "2025-01-22 09:00 - 09:30 | ") (lit "2025-01-22 09:00 - 09:45 | ")
  = lit "2025-01-22 09:00 - 09:30 | ".
Proof.
  destruct (blank_description_line_unmatched
              (mkTimeEntry [] (lit "2025-01-22") (lit "09:00") (lit "09:30") [] [] false false)
              log_store (lit "2025-01-22 09:00 - 09:30 | ")
              (lit "2025-01-22 09:00 - 09:45 | ")) as (_ & H & _); [reflexivity..|].
  exact H.
Defined.

(** X15. When the vault refuses the write, [updateEntry] and
    [deleteEntry] of a known identifier and [addEntry] leave the file
    as it is and raise one notice, and change the records in memory
    all the same. *)
Theorem failed_write_keeps_memory_ahead
    (i : str) (updates : PartialEntry) (e : TimeEntry) (st : Store)
    (content : str) (idx : nat) (old : ParsedEntry) :
  write_fails st = true → file st = Some content →
  findIndex i (entries st) = Some (idx, old) →
  let notice := lit "Failed to save time entries" in
  (file (updateEntry i updates st) = Some content ∧
   notices (updateEntry i updates st) = notices st ++ [notice] ∧
   entries (updateEntry i updates st)
   = <[idx := mkParsed (mergedEntry old updates)
                       (formatEntry (mergedEntry old updates))]> (entries st)) ∧
  (file (deleteEntry i st) = Some content ∧
   notices (deleteEntry i st) = notices st ++ [notice] ∧
   entries (deleteEntry i st) = delete idx (entries st)) ∧
  (file (addEntry e st).1 = Some content ∧
   notices (addEntry e st).1 = notices st ++ [notice] ∧
   entries (addEntry e st).1
   = entries st ++ [mkParsed (addedEntry e) (formatEntry (addedEntry e))]).
Proof.
  intros Hw Hf Hfind. cbn zeta.
  unfold updateEntry, deleteEntry, addEntry. cbn zeta.
  rewrite Hfind. unfold readFile, writeFile. rewrite Hf, Hw.
  cbn [entries file notices set_entries fst]. done.
Qed.

Lemma failed_write_keeps_memory_ahead_witness :
  file (deleteEntry (lit "20250121_1300_1330")
          (mkStore [deep_work] (Some log_file) true false []))
  = Some log_file ∧
  entries (deleteEntry (lit "20250121_1300_1330")
             (mkStore [deep_work] (Some log_file) true false [])) = [].
Proof.
  destruct (failed_write_keeps_memory_ahead (lit "20250121_1300_1330")
              (mkPartial None None None None None None None None) deep_work
              (mkStore [deep_work] (Some log_file) true false [])
              log_file 0%nat deep_work) as (_ & (H1 & _ & H3) & _);
    [reflexivity..|].
  split; [exact H1|exact H3].
Defined.

End SyncFacts.

(* ================================================================== *)
(** * Queries of the store *)
(* ================================================================== *)
Section QueryFacts.
Import Js Time Storage.
Local Open Scope Z_scope.

Lemma code_inj a b : code a = code b → a = b.
Proof.
  unfold code. intros H.
  by rewrite <- (ascii_N_embedding a), <- (ascii_N_embedding b), H.
Qed.

Lemma str_lt_irrefl a : str_lt a a = false.
Proof. induction a as [|c a IH]; [done|]. cbn. by rewrite N.ltb_irrefl. Qed.

Lemma str_lt_total a b : str_lt a b = false → str_lt b a = false → a = b.
Proof.
  revert b. induction a as [|x a IH]; intros [|y b]; cbn; try done.
  destruct (N.ltb_spec (code x) (code y)), (N.ltb_spec (code y) (code x));
    try done; try lia.
  intros Ha Hb. f_equal; [apply code_inj; lia|by apply IH].
Qed.

(** X16. A range from a date to the same date holds the records of
    that date, in their order. *)
Theorem getEntriesForDateRange_one_day (d : str) (st : Store) :
  getEntriesForDateRange d d st = getEntriesForDate d st.
Proof.
  unfold getEntriesForDateRange, getEntriesForDate. apply list_filter_iff.
  intros e. unfold str_le. rewrite !negb_true_iff. split.
  - intros [H1 H2]. by apply str_lt_total.
  - intros ->. by rewrite str_lt_irrefl.
Qed.

Lemma digitsValue_acc s acc :
  fold_left (λ acc c, 10 * acc + digit_val c) s acc
  = acc * 10 ^ Z.of_nat (length s) + digitsValue s.
Proof.
  unfold digitsValue. revert acc. induction s as [|c s IH]; intros acc.
  - cbn. lia.
  - cbn [fold_left length]. rewrite IH, (IH (10 * 0 + digit_val c)).
    rewrite Nat2Z.inj_succ, Z.pow_succ_r by lia. lia.
Qed.

Lemma digitsValue_cons c s :
  digitsValue (c :: s) = digit_val c * 10 ^ Z.of_nat (length s) + digitsValue s.
Proof. unfold digitsValue at 1. cbn [fold_left]. rewrite digitsValue_acc. lia. Qed.

Lemma digit_val_bound c : is_digit c = true → 0 <= digit_val c < 10.
Proof.
  unfold is_digit, in_range, digit_val. intros [H1 H2]%andb_prop.
  apply N.leb_le in H1, H2. lia.
Qed.

Lemma digitsValue_bound n s :
  digits n s → 0 <= digitsValue s < 10 ^ Z.of_nat (length s).
Proof.
  intros [_ H]. induction H as [|c s Hc _ IH]; [cbn; lia|].
  rewrite digitsValue_cons. cbn [length]. rewrite Nat2Z.inj_succ, Z.pow_succ_r by lia.
  apply digit_val_bound in Hc. nia.
Qed.

Lemma Number_digits n s : digits n s → Number s = Some (digitsValue s).
Proof.
  intros [_ H]. unfold Number.
  replace (forallb is_digit s) with true; [done|].
  symmetry. apply forallb_forall. intros c Hc. rewrite Forall_forall in H.
  apply H. by apply list_elem_of_In.
Qed.

(** Runs of digits of one length are ordered as their numbers. *)
Lemma str_lt_digits n a b ra rb :
  digits n a → digits n b →
  str_lt (a ++ ra) (b ++ rb)
  = if digitsValue a <? digitsValue b then true
    else if digitsValue b <? digitsValue a then false
    else str_lt ra rb.
Proof.
  revert n b. induction a as [|x a IH]; intros n [|y b] [Ha Da] [Hb Db];
    cbn in Ha, Hb; try lia.
  - cbn. done.
  - apply Forall_cons in Da as [Hx Da], Db as [Hy Db].
    assert (Hla : length a = length b) by lia.
    pose proof (digitsValue_bound (length a) a (conj eq_refl Da)) as Ba.
    pose proof (digitsValue_bound (length b) b (conj eq_refl Db)) as Bb.
    rewrite Hla in Ba.
    pose proof (digit_val_bound x Hx) as Bx. pose proof (digit_val_bound y Hy) as By.
    rewrite !digitsValue_cons, Hla. cbn [app str_lt].
    rewrite (IH (length a) b) by done.
    set (p := 10 ^ Z.of_nat (length b)) in *.
    assert ((code x < code y)%N ↔ digit_val x < digit_val y) as Hxy
        by (unfold digit_val; lia).
    assert ((code y < code x)%N ↔ digit_val y < digit_val x) as Hyx
        by (unfold digit_val; lia).
    destruct (N.ltb_spec (code x) (code y)) as [H1|H1].
    + apply Hxy in H1.
      destruct (Z.ltb_spec (digit_val x * p + digitsValue a)
                           (digit_val y * p + digitsValue b)); [done|nia].
    + destruct (N.ltb_spec (code y) (code x)) as [H2|H2].
      * apply Hyx in H2.
        destruct (Z.ltb_spec (digit_val x * p + digitsValue a)
                             (digit_val y * p + digitsValue b)); [nia|].
        destruct (Z.ltb_spec (digit_val y * p + digitsValue b)
                             (digit_val x * p + digitsValue a)); [done|nia].
      * assert (digit_val x = digit_val y) as -> by (unfold digit_val; lia).
        repeat match goal with |- context [?u <? ?v] => destruct (Z.ltb_spec u v) end;
          try done; lia.
Qed.

Lemma digits_no_dash n d : digits n d → "-"%char ∉ d.
Proof.
  intros [_ H] Hin. rewrite Forall_forall in H.
  apply H, digit_not_sep in Hin. tauto.
Qed.

Lemma dateKey_of_fields y m dd :
  digits 4 y → digits 2 m → digits 2 dd →
  dateKey (y ++ "-"%char :: m ++ "-"%char :: dd)
  = Some (digitsValue y * 10000 + digitsValue m * 100 + digitsValue dd).
Proof.
  intros Hy Hm Hd. unfold dateKey.
  rewrite split_app_sep, split_app_sep, split_free by (by eapply digits_no_dash).
  by rewrite (Number_digits _ _ Hy), (Number_digits _ _ Hm), (Number_digits _ _ Hd).
Qed.

(** X17. Well-formed dates are ordered as strings the way they are
    ordered in time: each stands for a number, year, month and day side
    by side, and one is below the other as a string exactly when its
    number is smaller. *)
Theorem date_order_is_chronological (a b : str) :
  is_date a → is_date b →
  ∃ ka kb, dateKey a = Some ka ∧ dateKey b = Some kb ∧
           (str_lt a b = true ↔ ka < kb) ∧ (str_le a b = true ↔ ka <= kb).
Proof.
  intros (_ & ya & ma & da & -> & Hya & Hma & Hda)%re_date_Some
         (_ & yb & mb & db & -> & Hyb & Hmb & Hdb)%re_date_Some.
  rewrite !dateKey_of_fields by done.
  eexists _, _. split; [reflexivity|]. split; [reflexivity|].
  assert (Hlt : ∀ y1 m1 d1 y2 m2 d2,
             digits 4 y1 → digits 2 m1 → digits 2 d1 →
             digits 4 y2 → digits 2 m2 → digits 2 d2 →
             str_lt (y1 ++ "-"%char :: m1 ++ "-"%char :: d1)
                    (y2 ++ "-"%char :: m2 ++ "-"%char :: d2) = true
             ↔ digitsValue y1 * 10000 + digitsValue m1 * 100 + digitsValue d1
               < digitsValue y2 * 10000 + digitsValue m2 * 100 + digitsValue d2).
  { intros y1 m1 d1 y2 m2 d2 H1 H2 H3 H4 H5 H6.
    rewrite (str_lt_digits 4) by done. cbn [str_lt].
    rewrite N.ltb_irrefl. rewrite (str_lt_digits 2) by done. cbn [str_lt].
    rewrite N.ltb_irrefl.
    pose proof (str_lt_digits 2 d1 d2 [] [] H3 H6) as Hd.
    rewrite !app_nil_r in Hd. rewrite Hd. clear Hd.
    pose proof (digitsValue_bound _ _ H2) as B2. pose proof (digitsValue_bound _ _ H3) as B3.
    pose proof (digitsValue_bound _ _ H5) as B5. pose proof (digitsValue_bound _ _ H6) as B6.
    destruct H2 as [L2 _], H3 as [L3 _], H5 as [L5 _], H6 as [L6 _].
    rewrite L2 in B2. rewrite L3 in B3. rewrite L5 in B5. rewrite L6 in B6.
    change (10 ^ Z.of_nat 2) with 100 in *.
    repeat match goal with |- context [?u <? ?v] => destruct (Z.ltb_spec u v) end;
      cbn [str_lt]; split; intros; try done; try lia; exfalso; lia. }
  split; [by apply Hlt|].
  unfold str_le. rewrite negb_true_iff, <- not_true_iff_false, Hlt by done. lia.
Qed.

Lemma date_order_is_chronological_witness :
  ∃ ka kb, dateKey (lit "2024-12-31") = Some ka ∧ dateKey (lit "2025-01-02") = Some kb ∧
           (str_lt (lit "2024-12-31") (lit "2025-01-02") = true ↔ ka < kb).
Proof.
  destruct (date_order_is_chronological (lit "2024-12-31") (lit "2025-01-02"))
    as (ka & kb & H1 & H2 & H3 & _); [reflexivity..|].
  by exists ka, kb.
Defined.

Lemma is_time_minutes t : is_time t → is_Some (parseTimeToMinutes t).
Proof.
  intros (h & m & Hh & Hm & ->)%is_time_fields.
  destruct (time_of_fields h m Hh Hm) as [_ ->]. done.
Qed.

Lemma total_is_number (es : list ParsedEntry) z0 :
  Forall (λ e : ParsedEntry, is_Some (entryMinutes e)) es →
  is_Some (foldl (λ total (e : ParsedEntry),
                    t ← total; m ← entryMinutes e; Some (t + m)) (Some z0) es).
Proof.
  intros H. revert z0. induction H as [|e es [m Hm] _ IH]; intros z0; [done|].
  cbn [foldl]. rewrite Hm. cbn. apply IH.
Qed.

(** X18. When the records in memory are those of the file, the total
    of a date is a number: no stored time fails to read. *)
Theorem getTotalMinutesForDate_is_number (d : str) (st : Store) :
  in_sync st → is_Some (getTotalMinutesForDate d st).
Proof.
  intros Hsync. unfold getTotalMinutesForDate. apply total_is_number.
  apply Forall_forall. intros e [_ He]%list_elem_of_filter.
  rewrite Hsync in He. apply list_elem_of_omap in He as (l & _ & Hl).
  apply parseLine_ok in Hl as (_ & Hs & Hen & _).
  unfold entryMinutes.
  destruct (is_time_minutes _ Hs) as [a ->], (is_time_minutes _ Hen) as [b ->].
  done.
Qed.

Lemma getTotalMinutesForDate_is_number_witness :
  is_Some (getTotalMinutesForDate (lit "2025-01-21") log_store).
Proof. apply getTotalMinutesForDate_is_number. reflexivity. Defined.

End QueryFacts.

(* ================================================================== *)
(** * The timer over time *)
(* ================================================================== *)
Section TimerFacts.
Import Pomodoro.
Local Open Scope Z_scope.

Local Ltac timer_fields :=
  unfold timer_ok; cbn; repeat split; intros; try done; try congruence.

Lemma complete_ok now t : timer_ok (complete now t).1.
Proof.
  unfold complete.
  destruct (mode t); [destruct (_ >=? _)|..]; timer_fields.
Qed.

Lemma step_ok op t : timer_ok t → timer_ok (step op t).1.
Proof.
  intros Hok. pose proof Hok as (Hi & Hs & Hr).
  destruct op as [now| | | |now|p|now minutesAgo]; cbn [step fst].
  - unfold start. destruct (state t) eqn:E; [|done|]; timer_fields.
  - unfold pause. destruct (state t) eqn:E; [done| |done].
    timer_fields. apply Hs in H. congruence.
  - unfold stop. timer_fields.
  - unfold reset, stop. timer_fields.
  - destruct (intervalId t) eqn:Ei; [|done].
    unfold tick. cbn [remainingSeconds mode].
    destruct (_ <=? 0).
    + pose proof (complete_ok now
                    (mkTimer (options t) (state t) (mode t) (remainingSeconds t - 1)
                             (startTime t) (intervalId t) (completedPomodoros t))) as H.
      by destruct (complete now _).
    + unfold timer_ok. cbn [fst state intervalId startTime remainingSeconds options mode].
      split; [by rewrite Ei|split; [exact Hs|]].
      intros Hidle. destruct Hi as [Hi _]. specialize (Hi eq_refl). congruence.
  - unfold timer_ok, updateOptions.
    cbn [fst state intervalId startTime remainingSeconds options mode].
    split; [exact Hi|split; [exact Hs|]]. by intros ->.
  - unfold setStartTimeOffset.
    destruct (state t) eqn:E; [done| |done]. destruct (startTime t) eqn:E2; [|done].
    timer_fields. by apply Hi.
Qed.

Lemma run_cons op ops t :
  run (op :: ops) t = ((run ops (step op t).1).1, (step op t).2 ++ (run ops (step op t).1).2).
Proof.
  cbn [run]. destruct (step op t) as [t1 e1]. cbn [fst snd].
  by destruct (run ops t1).
Qed.

Lemma run_app a b t :
  run (a ++ b) t = ((run b (run a t).1).1, (run a t).2 ++ (run b (run a t).1).2).
Proof.
  revert t. induction a as [|op a IH]; intros t.
  - cbn [app]. cbn [run fst snd app]. by destruct (run b t).
  - rewrite <- app_comm_cons, !run_cons, IH. cbn [fst snd]. by rewrite app_assoc.
Qed.

(** X19. Whatever sequence of calls and ticks a new timer goes
    through, an interval is installed exactly while it runs, a start
    time is recorded exactly while it is not idle, and while idle it
    shows the full duration of its mode under its current options. *)
Theorem timer_always_ok (o : PomodoroTimerOptions) (ops : list Op) :
  timer_ok (run ops (new o)).1.
Proof.
  assert (H : ∀ t, timer_ok t → timer_ok (run ops t).1).
  { induction ops as [|op ops IH]; intros t Ht; [done|].
    rewrite run_cons. cbn [fst]. by apply IH, step_ok. }
  apply H. unfold new. timer_fields.
Qed.

Lemma step_count op t :
  keeps_count_setting (pomodorosBeforeLongBreak (options t)) op →
  1 <= pomodorosBeforeLongBreak (options t) →
  0 <= completedPomodoros t < pomodorosBeforeLongBreak (options t) →
  pomodorosBeforeLongBreak (options (step op t).1) = pomodorosBeforeLongBreak (options t) ∧
  0 <= completedPomodoros (step op t).1 < pomodorosBeforeLongBreak (options t).
Proof.
  intros Hop Hn Hc. destruct op as [now| | | |now|p|now minutesAgo]; cbn [step fst].
  - unfold start. destruct (state t); done.
  - unfold pause. destruct (state t); done.
  - done.
  - cbn. lia.
  - destruct (intervalId t); [|done]. unfold tick. cbn [remainingSeconds mode].
    destruct (_ <=? 0); [|done].
    unfold complete. cbn [mode completedPomodoros options startTime].
    destruct (mode t); [|done..].
    destruct (Z.geb_spec (completedPomodoros t + 1)
                         (pomodorosBeforeLongBreak (options t))); cbn; lia.
  - cbn in Hop. unfold updateOptions. cbn. by destruct Hop as [->| ->].
  - unfold setStartTimeOffset. destruct (state t), (startTime t); done.
Qed.

(** X20. With at least one pomodoro before the long break, and as long
    as no call of [updateOptions] changes that number (it may leave
    the number out, or give it again with other settings changed), the
    count of completed pomodoros of a new timer stays from 0 to below
    that number, and the number stays the configured one. *)
Theorem completedPomodoros_bounded (o : PomodoroTimerOptions) (ops : list Op) :
  1 <= pomodorosBeforeLongBreak o →
  Forall (keeps_count_setting (pomodorosBeforeLongBreak o)) ops →
  0 <= completedPomodoros (run ops (new o)).1 < pomodorosBeforeLongBreak o ∧
  pomodorosBeforeLongBreak (options (run ops (new o)).1) = pomodorosBeforeLongBreak o.
Proof.
  intros Hn Hops.
  assert (H : ∀ t, pomodorosBeforeLongBreak (options t) = pomodorosBeforeLongBreak o →
                   0 <= completedPomodoros t < pomodorosBeforeLongBreak o →
                   0 <= completedPomodoros (run ops t).1 < pomodorosBeforeLongBreak o ∧
                   pomodorosBeforeLongBreak (options (run ops t).1)
                   = pomodorosBeforeLongBreak o).
  { induction Hops as [|op ops Hop _ IH]; intros t Ho Hc; [done|].
    rewrite run_cons. cbn [fst]. rewrite <- Ho in Hop.
    destruct (step_count op t Hop) as [Ho' Hc']; [lia..|].
    apply IH; [congruence|lia]. }
  apply H; [done|]. cbn. lia.
Qed.

Lemma completedPomodoros_bounded_witness :
  0 <= completedPomodoros
         (run [OpStart 0; OpTick 1000;
               OpUpdateOptions (mkPartialOptions (Some 50) (Some 10) (Some 15) (Some 4));
               OpPause; OpStart 5000; OpStop; OpReset]
              (new (mkOptions 25 5 15 4))).1 < 4.
Proof.
  apply (completedPomodoros_bounded (mkOptions 25 5 15 4)); [cbn; lia|].
  repeat (apply List.Forall_cons; [first [exact I | by right]|]).
  apply List.Forall_nil.
Defined.

Lemma tick_before_end now t :
  1 < remainingSeconds t →
  tick now t = (set_remaining (remainingSeconds t - 1) t,
                [onTick (remainingSeconds t - 1) (mode t)]).
Proof.
  intros Hr. unfold tick. cbn [remainingSeconds mode].
  destruct (Z.leb_spec (remainingSeconds t - 1) 0); [lia|done].
Qed.

Lemma tick_at_end now t :
  remainingSeconds t = 1 →
  tick now t = ((complete now t).1, [onTick 0 (mode t); onComplete (mode t) (startTime t) now]).
Proof.
  intros Hr. unfold tick. cbn [remainingSeconds mode]. rewrite Hr. cbn [Z.sub Z.leb].
  cbn. unfold complete. cbn [mode options completedPomodoros startTime].
  by destruct (mode t); [destruct (_ >=? _)|..].
Qed.

Lemma tickEvents_S r m k :
  tickEvents r m (S k) = onTick (r - 1) m :: tickEvents (r - 1) m k.
Proof.
  unfold tickEvents. cbn [seq fmap list_fmap]. f_equal; [f_equal; lia|].
  rewrite <- fmap_S_seq, <- list_fmap_compose. apply list_fmap_ext.
  intros i x _. cbn. f_equal. lia.
Qed.

Lemma run_ticks now k t :
  intervalId t = true → Z.of_nat k < remainingSeconds t →
  run (replicate k (OpTick now)) t
  = (set_remaining (remainingSeconds t - Z.of_nat k) t,
     tickEvents (remainingSeconds t) (mode t) k).
Proof.
  revert t. induction k as [|k IH]; intros t Hi Hr.
  - cbn. f_equal. destruct t. unfold set_remaining. cbn. f_equal. lia.
  - cbn [replicate]. rewrite run_cons. cbn [step]. rewrite Hi.
    rewrite tick_before_end by lia. cbn [fst snd].
    rewrite IH; [|done|unfold set_remaining; cbn [remainingSeconds]; lia].
    cbn [fst snd app].
    rewrite tickEvents_S. f_equal.
    unfold set_remaining. cbn. f_equal. lia.
Qed.

(** X21. A timer with an installed interval and [r] seconds remaining,
    [r] at least 1, is still counting after fewer than [r] ticks, one
    second less each tick, and is completed by tick [r]: the listeners
    have then seen the ticks from [r - 1] down to 0 and one completion,
    with the mode and the start time of the session. *)
Theorem timer_runs_down (now : Z) (t : PomodoroTimer) :
  intervalId t = true → 0 < remainingSeconds t →
  let r := remainingSeconds t in
  (∀ k : nat, Z.of_nat k < r →
     (run (replicate k (OpTick now)) t).1 = set_remaining (r - Z.of_nat k) t) ∧
  run (replicate (Z.to_nat r) (OpTick now)) t
  = ((complete now t).1,
     tickEvents r (mode t) (Z.to_nat r) ++ [onComplete (mode t) (startTime t) now]).
Proof.
  intros Hi Hr. cbn zeta. split.
  - intros k Hk. by rewrite run_ticks.
  - replace (Z.to_nat (remainingSeconds t)) with (S (Z.to_nat (remainingSeconds t - 1))) by lia.
    assert (Hk : Z.of_nat (Z.to_nat (remainingSeconds t - 1)) = remainingSeconds t - 1) by lia.
    revert Hk. generalize (Z.to_nat (remainingSeconds t - 1)). intros k Hk.
    rewrite replicate_S_end, run_app, run_ticks; [|done|lia].
    cbn [fst snd run step].
    cbn [intervalId set_remaining]. rewrite Hi.
    rewrite tick_at_end by (unfold set_remaining; cbn [remainingSeconds]; lia).
    cbn [fst snd]. rewrite app_nil_r.
    change (complete now (set_remaining (remainingSeconds t - Z.of_nat k) t))
      with (complete now t).
    f_equal.
    unfold tickEvents. rewrite seq_S, fmap_app.
    cbn [fmap list_fmap mode set_remaining startTime Nat.add].
    rewrite <- app_assoc. f_equal. cbn [app]. f_equal. f_equal. lia.
Qed.

Lemma timer_runs_down_witness :
  (run (replicate 3 (OpTick 9000))
       (set_remaining 3 (start 0 (new (mkOptions 25 5 15 4))))).2
  = [onTick 2 work; onTick 1 work; onTick 0 work; onComplete work (Some 0) 9000].
Proof.
  destruct (timer_runs_down 9000 (set_remaining 3 (start 0 (new (mkOptions 25 5 15 4)))))
    as [_ H]; [reflexivity|cbn; lia|].
  cbn [remainingSeconds set_remaining] in H. change (Z.to_nat 3) with 3%nat in H.
  rewrite H. reflexivity.
Defined.

(** X22. Pausing a running timer and starting it again keeps the
    remaining seconds, the mode and the count, and, when no more than
    the full duration of the mode remains, records a start time that
    lies before the restart by the time already elapsed. *)
Theorem pause_then_start_continues (now : Z) (t : PomodoroTimer) :
  state t = running →
  let t' := start now (pause t) in
  let full := getDurationForMode (options t) (mode t) in
  state t' = running ∧ intervalId t' = true ∧
  remainingSeconds t' = remainingSeconds t ∧ mode t' = mode t ∧
  completedPomodoros t' = completedPomodoros t ∧
  (remainingSeconds t <= full →
   startTime t' = Some (now - (full - remainingSeconds t) * 1000)).
Proof.
  intros Hs. unfold pause. rewrite Hs. unfold start. cbn.
  split_and!; try done.
  intros Hle. destruct (Z.ltb_spec (remainingSeconds t)
                                   (getDurationForMode (options t) (mode t))); [done|].
  f_equal. lia.
Qed.

Lemma pause_then_start_continues_witness :
  startTime (start 70000 (pause (set_remaining 1440 (start 0 (new (mkOptions 25 5 15 4))))))
  = Some 10000.
Proof.
  destruct (pause_then_start_continues 70000
              (set_remaining 1440 (start 0 (new (mkOptions 25 5 15 4)))))
    as (_ & _ & _ & _ & _ & H); [reflexivity|].
  apply H. cbn. lia.
Defined.

End TimerFacts.

(* ================================================================== *)
(** * Numbers as decimal texts, and the text of a grid row *)
(* ================================================================== *)
Section DecimalFacts.
Import Js Time Storage WeekGrid.
Local Open Scope Z_scope.

Lemma uint_chars_digits (d : Decimal.uint) :
  forallb is_digit (lit (NilEmpty.string_of_uint d)) = true.
Proof. induction d; cbn [NilEmpty.string_of_uint lit list_ascii_of_string forallb]; done. Qed.

Lemma uint_chars_acc (d : Decimal.uint) (acc : positive) :
  fold_left (λ a c, 10 * a + digit_val c) (lit (NilEmpty.string_of_uint d)) (Z.pos acc)
  = Z.pos (Pos.of_uint_acc d acc).
Proof.
  revert acc.
  induction d as [|d IH|d IH|d IH|d IH|d IH|d IH|d IH|d IH|d IH|d IH]; intros acc;
    cbn [NilEmpty.string_of_uint lit list_ascii_of_string fold_left Pos.of_uint_acc];
    [done|rewrite <- IH; f_equal; vm_compute digit_val; lia..].
Qed.

Lemma uint_chars_value (d : Decimal.uint) :
  fold_left (λ a c, 10 * a + digit_val c) (lit (NilEmpty.string_of_uint d)) 0
  = Z.of_N (Pos.of_uint d).
Proof.
  induction d as [|d IH|d IH|d IH|d IH|d IH|d IH|d IH|d IH|d IH|d IH];
    cbn [NilEmpty.string_of_uint lit list_ascii_of_string fold_left Pos.of_uint];
    [done|exact IH|apply (uint_chars_acc d)..].
Qed.

Lemma String_of_Z_pos p :
  String_of_Z (Z.pos p) = lit (NilEmpty.string_of_uint (Pos.to_uint p)).
Proof.
  unfold String_of_Z. cbn [Z.to_int NilZero.string_of_int NilZero.string_of_uint].
  pose proof (DecimalPos.Unsigned.to_uint_nonnil p) as H.
  by destruct (Pos.to_uint p).
Qed.

(** The text of a number from 0 on is a non-empty run of digits that
    [Number] reads as the number. *)
Lemma String_of_Z_digits n :
  0 <= n →
  String_of_Z n ≠ [] ∧ forallb is_digit (String_of_Z n) = true ∧
  Number (String_of_Z n) = Some n.
Proof.
  intros Hn. destruct n as [|p|p]; [by vm_compute| |lia].
  rewrite String_of_Z_pos. split_and!.
  - pose proof (DecimalPos.Unsigned.to_uint_nonnil p) as H.
    by destruct (Pos.to_uint p).
  - apply uint_chars_digits.
  - unfold Number. rewrite uint_chars_digits, uint_chars_value.
    by rewrite DecimalPos.Unsigned.of_to.
Qed.

Lemma Number_nonneg s n : Number s = Some n → 0 <= n.
Proof.
  unfold Number. destruct (forallb is_digit s) eqn:Hd; [|done]. intros [= <-].
  assert (H : ∀ acc, 0 <= acc →
                     0 <= fold_left (λ a c, 10 * a + digit_val c) s acc); [|by apply H].
  induction s as [|c s IH]; intros acc Hacc; [done|].
  cbn [forallb] in Hd. apply andb_prop in Hd as [Hc Hs].
  cbn [fold_left]. apply IH; [done|].
  assert (0 <= digit_val c); [|lia].
  unfold digit_val, is_digit, in_range in *.
  apply andb_prop in Hc as [H1%N.leb_le _]. lia.
Qed.

Lemma take_while_run (p : ascii → bool) a c r :
  forallb p a = true → p c = false → take_while p (a ++ c :: r) = a.
Proof.
  intros Ha Hc. induction a as [|x a IH]; cbn [app take_while forallb] in *.
  - by rewrite Hc.
  - apply andb_prop in Ha as [-> Ha]. by rewrite IH.
Qed.

Lemma take_while_whole (p : ascii → bool) a :
  forallb p a = true → take_while p a = a.
Proof.
  intros Ha. induction a as [|x a IH]; cbn [take_while forallb] in *; [done|].
  apply andb_prop in Ha as [-> Ha]. by rewrite IH.
Qed.

Lemma re_gridRow_text a b :
  a ≠ [] → forallb is_digit a = true → b ≠ [] → forallb is_digit b = true →
  re_gridRow (a ++ lit " / " ++ b) = Some (a, b).
Proof.
  intros Ha Da Hb Db. unfold re_gridRow. cbn [lit list_ascii_of_string app].
  rewrite take_while_run by done. cbn zeta.
  destruct a as [|x a]; [done|].
  rewrite drop_app_length. cbn [trimStart]. vm_compute (is_space " ").
  cbn [trimStart]. vm_compute (is_space "/").
  destruct b as [|y b]; [done|]. cbn [trimStart].
  pose proof Db as Db'. cbn [forallb] in Db'. apply andb_prop in Db' as [Dy _].
  rewrite (digit_not_space y Dy).
  by rewrite take_while_whole.
Qed.

(** The rows written by the template are read back by the pattern. *)
Lemma match_gridRow_text a b :
  0 <= a → 0 <= b →
  match_gridRow (gridRowText a b) = Some (String_of_Z a, String_of_Z b) ∧
  Number (String_of_Z a) = Some a ∧ Number (String_of_Z b) = Some b.
Proof.
  intros Ha Hb.
  destruct (String_of_Z_digits a Ha) as (A1 & A2 & A3).
  destruct (String_of_Z_digits b Hb) as (B1 & B2 & B3).
  split; [|done]. unfold gridRowText.
  destruct (String_of_Z a ++ lit " / " ++ String_of_Z b) eqn:E;
    cbn [match_gridRow]; rewrite <- E; by rewrite re_gridRow_text.
Qed.

(** What [handleDragEnd] does with a row written by the template. *)
Lemma dragUpdate_text ds e a b :
  entry ds = Some e → 0 <= a → 0 <= b →
  dragUpdate ds (Some (gridRowText a b))
  = if negb (a - 2 =? initialStartSlot ds) || negb (b - 2 =? initialEndSlot ds)
    then Some (id e,
               mkPartial None None (Some (slotToTime (a - 2)))
                         (Some (slotToTime (b - 2))) None None None None)
    else None.
Proof.
  intros He Ha Hb. unfold dragUpdate. rewrite He.
  destruct (match_gridRow_text a b Ha Hb) as (-> & N1 & N2).
  cbn [mbind option_bind]. rewrite N1. cbn [mbind option_bind]. rewrite N2.
  reflexivity.
Qed.

End DecimalFacts.

(* ================================================================== *)
(** * What a reload reads from a written line *)
(* ================================================================== *)
Section ReloadFacts.
Import Js Time Storage WeekGrid.
Local Open Scope Z_scope.

Lemma replace_g_one_line m k s : one_line s → one_line (replace_g m k s).
Proof.
  revert k. induction s as [|c s IH]; intros k Hs; [done|].
  apply one_line_cons in Hs as [Hc Hs]. cbn [replace_g].
  destruct k as [|k]; [|by apply IH].
  destruct (m (c :: s)) as [[|n]|]; [|by apply IH|];
    apply one_line_cons; (split; [done|by apply IH]).
Qed.

Lemma one_line_trim s : one_line s → one_line (trim s).
Proof.
  intros Hs. unfold trim.
  destruct (trimStart_split s) as (l & _ & Hl).
  destruct (trimEnd_split (trimStart s)) as (r & _ & Hr).
  rewrite Hl in Hs. apply one_line_app in Hs as [_ Hs].
  rewrite Hr in Hs. by apply one_line_app in Hs as [Hs _].
Qed.

Lemma one_line_trimEnd s : one_line s → one_line (trimEnd s).
Proof.
  intros Hs. destruct (trimEnd_split s) as (r & _ & Hr).
  rewrite Hr in Hs. by apply one_line_app in Hs as [Hs _].
Qed.

Lemma trimEnd_idem s : trimEnd (trimEnd s) = trimEnd s.
Proof.
  induction s as [|c s IH]; [done|]. cbn [trimEnd].
  destruct (trimEnd s) as [|x t] eqn:Et.
  - destruct (is_space c) eqn:Hc; [done|]. cbn. by rewrite Hc.
  - rewrite trimEnd_cons; by rewrite IH.
Qed.


(** Every line [formatEntry] writes begins with the date and the two
    times, between their separators. *)
Lemma formatEntry_line e :
  ∃ rest,
    formatEntry e
    = date e ++ lit " " ++ startTime e ++ lit " - " ++ endTime e ++ lit " | " ++ rest ∧
    (one_line (description e) → forallb tag_ok (tags e) = true → one_line rest).
Proof.
  unfold formatEntry. cbn zeta.
  pose proof (encoded_eq (description e) (tags e) (isPomodoro e)) as Henc.
  cbn zeta in Henc. rewrite Henc.
  eexists. split; [reflexivity|]. intros HD HT.
  destruct (_ && _); [done|]. by apply encoded_one_line.
Qed.

(** A line of that shape, with a well-formed date and well-formed
    times, is read as a record of that date and these times. *)
Lemma parseLine_fields d s e X :
  is_date d → is_time s → is_time e → one_line X →
  let line := d ++ lit " " ++ s ++ lit " - " ++ e ++ lit " | " ++ X in
  (LF ∉ line) ∧
  ∃ r : ParsedEntry,
    parseLine line = Some r ∧ date r = d ∧ startTime r = s ∧ endTime r = e ∧
    id r = generateStableId d s e.
Proof.
  intros Hd Hs He HX. cbn zeta. cbn [lit list_ascii_of_string app]. split.
  - apply one_line_no_LF.
    repeat first [apply one_line_app; split | apply one_line_cons; split; [done|]];
      try done; apply one_line_visible;
      first [by apply is_date_visible | by apply is_time_visible].
  - destruct (trimEnd_split X) as (r & Hr & HXr).
    assert (∃ c0 d0, d = c0 :: d0 ∧ is_space c0 = false) as (c0 & d0 & Ed & H0).
    { pose proof (is_date_visible d Hd) as Hv.
      apply re_date_Some in Hd as (_ & y & m & dd & -> & [Hy _] & _).
      destruct y as [|c0 y]; [done|]. exists c0. eexists. split; [reflexivity|].
      cbn [app] in Hv. by apply Forall_cons in Hv as [? _]. }
    set (A := d ++ " " :: s ++ " " :: "-" :: " " :: e ++ " " :: "|" :: [" "]).
    assert (HL : ∀ Y, d ++ " " :: s ++ " " :: "-" :: " " :: e ++ " " :: "|" :: " " :: Y
                      = A ++ Y).
    { intros Y. unfold A. by repeat (rewrite <- app_assoc; cbn [app]). }
    assert (Htrim : ∀ Y, trim (A ++ Y) = trimEnd (A ++ Y)).
    { intros Y. unfold trim, A. rewrite Ed. cbn [app]. by rewrite trimStart_head. }
    rewrite (parseLine_same_trim _ (A ++ trimEnd X)).
    + rewrite <- HL, parseLine_line; [|done..|apply trimEnd_idem|by apply one_line_trimEnd].
      cbn zeta. eexists. split; [reflexivity|]. done.
    + rewrite HL, !Htrim. rewrite HXr at 1.
      rewrite app_assoc, trimEnd_app. by rewrite trimEnd_blank.
Qed.

Lemma is_time_slot a : 0 <= a <= 96 → is_time (slotToTime a).
Proof.
  intros Ha. unfold slotToTime.
  by destruct (minutesToTime_parse (a * 15)) as [H _]; [lia|].
Qed.

End ReloadFacts.

(* ================================================================== *)
(** * A drag to the end of the day *)
(* ================================================================== *)
Section DayEndFacts.
Import Js Time Storage WeekGrid.
Local Open Scope Z_scope.




End DayEndFacts.

(* ================================================================== *)
(** * Painting, dragging and editing in the week grid *)
(* ================================================================== *)
Section GridFacts.
Import Js Time Storage WeekGrid.
Local Open Scope Z_scope.

Lemma paintMoves_snoc ys y ps :
  paintMoves (ys ++ [y]) ps = handlePaintMove y (paintMoves ys ps).
Proof. unfold paintMoves. by rewrite foldl_app. Qed.

Lemma paintMoves_fields ys ps :
  0 <= endSlot ps <= 95 →
  p_dayIndex (paintMoves ys ps) = p_dayIndex ps ∧
  startSlot (paintMoves ys ps) = startSlot ps ∧
  0 <= endSlot (paintMoves ys ps) <= 95.
Proof.
  revert ps. induction ys as [|y ys IH]; intros ps Hps; [done|].
  change (paintMoves (y :: ys) ps) with (paintMoves ys (handlePaintMove y ps)).
  destruct (IH (handlePaintMove y ps)) as (H1 & H2 & H3).
  - unfold handlePaintMove. cbn [endSlot]. lia.
  - rewrite H1, H2. done.
Qed.

(** X23. A paint gesture that begins on a slot of the grid, whatever
    the pointer does before the button is released, hands the editor
    the day it began on and a span that lies inside the day, covers the
    slot it began on and is at least one slot long; without any move
    the span is that one slot. *)
Theorem paint_span_inside_day
    (d a : Z) (ds : DragState) (ps0 : PaintState) (ys : list Z) :
  isDragging ds = false → 0 <= a <= 95 →
  let r := handlePaintEnd (paintMoves ys (handleCellMouseDown 0 d a ds ps0)) in
  isPainting r.1 = false ∧
  r.2.1.1 = d ∧ 0 <= r.2.1.2 <= a ∧ a < r.2.2 <= 96 ∧
  (ys = [] → r.2.1.2 = a ∧ r.2.2 = a + 1).
Proof.
  intros Hd Ha. cbn zeta. unfold handleCellMouseDown. rewrite Hd. cbn [Z.eqb negb].
  destruct (paintMoves_fields ys (mkPaint true d a a)) as (H1 & H2 & H3); [done|].
  unfold handlePaintEnd. cbn [fst snd isPainting]. rewrite H1, H2.
  cbn [p_dayIndex startSlot].
  split; [done|]. split; [done|]. split; [lia|]. split; [lia|].
  intros ->. cbn. lia.
Qed.

Lemma paint_span_inside_day_witness :
  let r := handlePaintEnd
             (paintMoves [700; 130]
                (handleCellMouseDown 0 2 36 (mkDrag false None move 0 0 0 0)
                                     (mkPaint false 0 0 0))) in
  0 <= r.2.1.2 <= 36 ∧ 36 < r.2.2 <= 96.
Proof.
  destruct (paint_span_inside_day 2 36 (mkDrag false None move 0 0 0 0)
              (mkPaint false 0 0 0) [700; 130]) as (_ & _ & H1 & H2 & _);
    [reflexivity|lia|].
  exact (conj H1 H2).
Defined.

Lemma loadEntries_in_sync st : in_sync (loadEntries st).
Proof.
  unfold in_sync, loadEntries.
  destruct (file st) as [content|] eqn:E; cbn [entries file set_entries];
    by rewrite E.
Qed.

Lemma parseTimeToMinutes_nonneg t n : parseTimeToMinutes t = Some n → 0 <= n.
Proof.
  unfold parseTimeToMinutes. destruct (split ":" t) as [|h [|m r]]; [done..|].
  destruct (Number h) as [x|] eqn:Hx; [|done].
  destruct (Number m) as [y|] eqn:Hy; [|done].
  cbn. intros [= <-]. apply Number_nonneg in Hx, Hy. lia.
Qed.

(** X24. A paint gesture that begins on a slot after the first and ends
    with the pointer at or below the last slot hands the editor a span
    up to slot 96, and the record [createEntry] hands to the store for
    it ends at 00:00: its end lies before its start in the order of
    strings and its duration counts negative.  Afterwards the records
    in memory are those of the file.  When the write succeeds, the file
    is the old content with one line appended that holds the end time
    00:00; and for a well-formed date and a typed text of one line, the
    records are those of the old content followed by one record, read
    from that line, with that end time and negative duration. *)
Theorem paint_to_day_end_creates_midnight
    (d a y : Z) (ds : DragState) (ps0 : PaintState) (ys : list Z)
    (dateStr text : str) (st : Store) :
  isDragging ds = false → 0 < a <= 95 → 1465 <= y →
  (handlePaintEnd (paintMoves (ys ++ [y]) (handleCellMouseDown 0 d a ds ps0))).2
    = (d, a, 96) ∧
  let r := createEntry dateStr a 96 text st in
  (startTime r.2 = slotToTime a ∧ endTime r.2 = lit "00:00" ∧
   str_lt (endTime r.2) (startTime r.2) = true ∧
   entryMinutes r.2 = Some (- (15 * a)) ∧ - (15 * a) < 0) ∧
  in_sync r.1 ∧
  (write_fails st = false →
   ∃ rest,
     let newLine :=
       dateStr ++ lit " " ++ slotToTime a ++ lit " - " ++ lit "00:00" ++ lit " | " ++ rest in
     file r.1 = Some (appendLineToContent (default [] (file st)) newLine) ∧
     (is_date dateStr → one_line text →
      ∃ upd : ParsedEntry,
        parseLine newLine = Some upd ∧
        entries r.1 = parseContent (default [] (file st)) ++ [upd] ∧
        date upd = dateStr ∧ startTime upd = slotToTime a ∧ endTime upd = lit "00:00" ∧
        entryMinutes upd = Some (- (15 * a)))).
Proof.
  intros Hd Ha Hy. split.
  - unfold handleCellMouseDown. rewrite Hd. cbn [Z.eqb negb].
    rewrite paintMoves_snoc.
    destruct (paintMoves_fields ys (mkPaint true d a a)) as (H1 & H2 & _);
      [cbn [endSlot]; lia|].
    unfold handlePaintEnd, handlePaintMove. cbn [snd p_dayIndex startSlot endSlot].
    rewrite H1, H2. cbn [p_dayIndex startSlot].
    assert (95 <= (y - 40) / 15) by (apply Z.div_le_lower_bound; lia).
    repeat f_equal; lia.
  - cbn zeta. destruct (slotToTime_inside a) as [Hlt Hmin]; [lia|].
    assert (Hmins : ∀ x : TimeEntry,
              startTime x = slotToTime a → endTime x = lit "00:00" →
              entryMinutes x = Some (- (15 * a))).
    { intros x X1 X2. unfold entryMinutes. rewrite X1, X2, Hmin.
      change (parseTimeToMinutes (lit "00:00")) with (Some 0).
      cbn. f_equal; lia. }
    unfold createEntry.
    set (e := mkTimeEntry [] dateStr (slotToTime a) (slotToTime 96)
                          (textDescription text) (textTags text) false false).
    destruct (addEntry e st) as [st2 ne] eqn:Hadd. cbn [fst snd].
    assert (Hne : ne = mkParsed (addedEntry e) (formatEntry (addedEntry e))).
    { unfold addEntry in Hadd. by injection Hadd as _ <-. }
    assert (Hst2 : write_fails st = false →
              file st2 = Some (appendLineToContent (default [] (file st))
                                                   (formatEntry (addedEntry e)))).
    { intros Hw. unfold addEntry in Hadd. injection Hadd as <- _.
      unfold writeFile, readFile. rewrite Hw. reflexivity. }
    split; [|split; [apply loadEntries_in_sync|]].
    + rewrite Hne. split; [reflexivity|]. split; [by vm_compute|].
      split; [exact Hlt|]. split; [|lia]. by apply Hmins.
    + intros Hw. specialize (Hst2 Hw).
      destruct (formatEntry_line (addedEntry e)) as (rest & Hline & Hone).
      change (date (addedEntry e)) with dateStr in Hline.
      change (startTime (addedEntry e)) with (slotToTime a) in Hline.
      change (endTime (addedEntry e)) with (lit "00:00") in Hline.
      change (description (addedEntry e)) with (textDescription text) in Hone.
      change (tags (addedEntry e)) with (textTags text) in Hone.
      exists rest. cbn zeta. rewrite <- Hline.
      assert (Hfile : file (loadEntries st2) = file st2)
        by (unfold loadEntries; by destruct (file st2) eqn:E).
      split; [by rewrite Hfile|].
      intros Hdate Htext.
      assert (Hrest : one_line rest).
      { apply Hone; [|apply tags_of_text_ok].
        by apply one_line_trim, replace_g_one_line. }
      destruct (parseLine_fields dateStr (slotToTime a) (lit "00:00") rest)
        as (HLF & upd & Hparse & U1 & U2 & U3 & _);
        [done|apply is_time_slot; lia|reflexivity|done|].
      cbn zeta in HLF, Hparse. rewrite <- Hline in HLF, Hparse.
      exists upd. split; [done|]. split; [|split_and!; [done..|by apply Hmins]].
      unfold loadEntries. rewrite Hst2. cbn [entries set_entries].
      destruct (appendLineToContent_shape (default [] (file st))
                                          (formatEntry (addedEntry e))) as [_ ->].
      f_equal. unfold parseContent. rewrite split_free by done.
      cbn [omap list_omap]. by rewrite Hparse.
Qed.

Lemma paint_to_day_end_creates_midnight_witness :
  endTime (createEntry (lit "2025-01-21") 88 96 (lit "Late shift #ops") store1).2
  = lit "00:00" ∧
  in_sync (createEntry (lit "2025-01-21") 88 96 (lit "Late shift #ops") store1).1.
Proof.
  destruct (paint_to_day_end_creates_midnight 1 88 1500
              (mkDrag false None move 0 0 0 0) (mkPaint false 0 0 0) [1400]
              (lit "2025-01-21") (lit "Late shift #ops") store1)
    as (_ & (_ & H & _) & Hs & _); [reflexivity|lia|lia|].
  split; [exact H|exact Hs].
Defined.

(** X25. A drag of an entry whose span lies inside the day, released
    with the pointer less than half a slot from where it was pressed,
    writes nothing: the store is as it was, in every mode of the drag. *)
Theorem small_drag_writes_nothing
    (ds : DragState) (e : TimeEntry) (el : str) (clientY : Z) (st : Store) :
  entry ds = Some e →
  0 <= initialStartSlot ds < initialEndSlot ds ∧ initialEndSlot ds <= 96 →
  -15 <= 2 * (clientY - initialMouseY ds) < 15 →
  handleDragEnd ds (handleDragMove clientY ds (Some el)) st = (stop_dragging ds, st).
Proof.
  intros He [Hs Hend] Hy. unfold handleDragEnd, handleDragMove. rewrite He.
  assert (deltaSlotsOf (clientY - initialMouseY ds) = 0) as ->.
  { unfold deltaSlotsOf. apply Z.div_small. lia. }
  assert (dragSlots (mode ds) (initialStartSlot ds) (initialEndSlot ds) 0
          = (initialStartSlot ds, initialEndSlot ds)) as ->.
  { unfold dragSlots. destruct (mode ds); f_equal; lia. }
  rewrite (dragUpdate_text ds e) by (done || lia).
  replace (initialStartSlot ds + 2 - 2) with (initialStartSlot ds) by lia.
  replace (initialEndSlot ds + 2 - 2) with (initialEndSlot ds) by lia.
  by rewrite !Z.eqb_refl.
Qed.

Lemma small_drag_writes_nothing_witness :
  handleDragEnd drag1 (handleDragMove 7 drag1 (Some (gridRowText 46 52))) store1
  = (stop_dragging drag1, store1).
Proof.
  apply (small_drag_writes_nothing drag1 (te meeting)); [reflexivity|cbn; lia|cbn; lia].
Defined.

(** X26. Pressing and releasing the button on an entry with
    well-formed times, without any move, leaves the store alone exactly
    when the end time of the entry lies on a slot boundary.  Otherwise it commits an update that moves
    the start down to its slot and the end up to the next slot, and the
    grid loads the records from the file again. *)
Theorem press_and_release_snaps
    (m : DragMode) (e : TimeEntry) (clientY d sm em : Z) (st : Store) :
  is_time (startTime e) → is_time (endTime e) →
  parseTimeToMinutes (startTime e) = Some sm →
  parseTimeToMinutes (endTime e) = Some em →
  ∃ ds, startDrag m e clientY d = Some ds ∧
        handleDragEnd ds (entryGridRow e) st
        = (stop_dragging ds,
           if decide (em mod 15 = 0) then st
           else loadEntries (updateEntry (id e) (snapUpdate sm em) st)).
Proof.
  intros _ _ Hs He.
  pose proof (parseTimeToMinutes_nonneg _ _ Hs) as Hsm.
  pose proof (parseTimeToMinutes_nonneg _ _ He) as Hem.
  unfold startDrag, timeToSlot, entryGridRow. rewrite Hs, He.
  cbn [mbind option_bind]. eexists. split; [reflexivity|].
  unfold handleDragEnd.
  rewrite (dragUpdate_text _ e)
    by (first [done | Z.div_mod_to_equations; lia]).
  cbn [entry initialStartSlot initialEndSlot].
  replace (sm / 15 + 2 - 2) with (sm / 15) by lia.
  rewrite Z.eqb_refl. cbn [negb orb].
  case_decide as Hm.
  - replace (- (- em / 15) + 2 - 2) with (em / 15)
      by (revert Hm; Z.div_mod_to_equations; lia).
    by rewrite Z.eqb_refl.
  - replace (- (- em / 15) + 2 - 2) with (em / 15 + 1)
      by (revert Hm; Z.div_mod_to_equations; lia).
    destruct (Z.eqb_spec (em / 15 + 1) (em / 15)); [lia|]. done.
Qed.

Lemma press_and_release_snaps_witness :
  ∃ ds, startDrag move standup 300 1 = Some ds ∧
        handleDragEnd ds (entryGridRow standup) store1
        = (stop_dragging ds,
           loadEntries (updateEntry (id standup) (snapUpdate 545 590) store1)).
Proof.
  apply (press_and_release_snaps move standup 300 1 545 590 store1); reflexivity.
Defined.

Lemma existingText_join e :
  existingText e = join (lit " ") (description e :: ((λ t, "#" :: t) <$> tags e)).
Proof.
  unfold existingText. destruct (tags e) as [|t T]; [by rewrite app_nil_r|].
  by rewrite fmap_cons, join_cons2.
Qed.

Lemma replace_tag_words T :
  Forall (λ t, t ≠ [] ∧ Forall (λ c, is_word c = true) t) T →
  replace_g re_tag 0 <$> ((λ t, "#" :: t) <$> T) = replicate (length T) [].
Proof.
  induction 1 as [|t T [Hne Hw] _ IH]; [done|].
  rewrite !fmap_cons. cbn [length replicate]. by rewrite replace_tag_word, IH.
Qed.

Lemma match_tag_words T :
  Forall (λ t, t ≠ [] ∧ Forall (λ c, is_word c = true) t) T →
  drop 1 <$> concat (match_g re_tag 0 <$> ((λ t, "#" :: t) <$> T)) = T.
Proof.
  induction 1 as [|t T [Hne Hw] _ IH]; [done|].
  rewrite !fmap_cons. cbn [concat]. rewrite match_tag_word by done.
  cbn [app fmap list_fmap drop]. by f_equal.
Qed.

Lemma existingText_reads_back e :
  trim (description e) = description e →
  match_g re_tag 0 (description e) = [] →
  forallb tag_ok (tags e) = true →
  textTags (existingText e) = tags e ∧
  textDescription (existingText e) = description e.
Proof.
  intros Htrim Hno HT%tags_ok_spec. rewrite existingText_join.
  unfold textTags, textDescription.
  rewrite (match_g_join _ _ re_tag_local), (replace_g_join _ _ re_tag_local).
  rewrite !fmap_cons. cbn [concat]. rewrite Hno, app_nil_l.
  rewrite (match_nil_replace _ _ Hno), replace_tag_words by done.
  split; [by apply match_tag_words|].
  destruct (trim_fixed _ Htrim) as [HD|HD].
  - rewrite HD. apply trim_blank. apply (join_blanks (S (length (tags e)))).
  - destruct (length (tags e)) as [|k]; [exact Htrim|].
    change (replicate (S k) []) with (@nil ascii :: replicate k []).
    rewrite join_cons2. apply trim_solid_blank; [done|].
    apply Forall_app. split; [by repeat constructor|].
    apply (join_blanks (S k)).
Qed.

(** X27. The text the editor of an entry opens with reads back as the
    entry: for a trimmed description without tag and tags that are
    non-empty words, confirming the text unchanged gives the same tags
    and the same description. *)
Theorem edit_text_reads_back (e : TimeEntry) :
  trim (description e) = description e →
  match_g re_tag 0 (description e) = [] →
  forallb tag_ok (tags e) = true →
  textTags (existingText e) = tags e ∧
  textDescription (existingText e) = description e.
Proof. apply existingText_reads_back. Qed.

Lemma edit_text_reads_back_witness :
  textTags (existingText standup) = [lit "team"] ∧
  textDescription (existingText standup) = lit "Standup".
Proof.
  apply (edit_text_reads_back standup); reflexivity.
Defined.

End GridFacts.

(* ================================================================== *)
(** * Typed texts and shown durations *)
(* ================================================================== *)
Section TextFacts.
Import Js Time Storage WeekGrid.
Local Open Scope Z_scope.

Lemma re_tag_at_hash s :
  re_tag ("#"%char :: s)
  = match length (take_while is_word s) with
    | O => None
    | S n => Some (S (S n))
    end.
Proof. reflexivity. Qed.

Lemma re_tag_not_hash c s : c ≠ "#"%char → re_tag (c :: s) = None.
Proof. intros Hc. unfold re_tag. by rewrite decide_False. Qed.

Lemma starts_word_run s :
  starts_word s = negb (bool_decide (length (take_while is_word s) = 0%nat)).
Proof. destruct s as [|c s]; [done|]. cbn. by destruct (is_word c). Qed.

Lemma tagfree_no_match s : tagfree s = true → match_g re_tag 0 s = [].
Proof.
  induction s as [|c s IH]; [done|].
  cbn [tagfree]. intros [H1 H2]%andb_prop. cbn [match_g].
  assert (re_tag (c :: s) = None) as ->; [|by apply IH].
  destruct (decide (c = "#"%char)) as [->|Hc]; [|by apply re_tag_not_hash].
  rewrite re_tag_at_hash. rewrite starts_word_run in H1.
  rewrite bool_decide_eq_true_2 in H1 by done.
  destruct (length (take_while is_word s)); [done|]. done.
Qed.

Lemma replace_tagfree s k :
  k = 0%nat ∨ k = length (take_while is_word s) →
  tagfree (replace_g re_tag k s) = true ∧
  (starts_word (replace_g re_tag k s) = true → k = 0%nat ∧ starts_word s = true).
Proof.
  revert k. induction s as [|c s IH]; intros k Hk.
  - by destruct k.
  - destruct k as [|k].
    + cbn [replace_g]. destruct (decide (c = "#"%char)) as [->|Hc].
      * rewrite re_tag_at_hash.
        destruct (length (take_while is_word s)) as [|n] eqn:En.
        -- destruct (IH 0%nat) as [IH1 IH2]; [by left|].
           cbn [tagfree]. rewrite IH1, andb_true_r. split; [|done].
           destruct (starts_word (replace_g re_tag 0 s)) eqn:E; [|done].
           destruct (IH2 eq_refl) as [_ Hs]. rewrite starts_word_run, En in Hs. done.
        -- destruct (IH (S n)) as [IH1 IH2]; [by right|]. split; [done|].
           intros H. by destruct (IH2 H).
      * rewrite re_tag_not_hash by done.
        destruct (IH 0%nat) as [IH1 IH2]; [by left|].
        cbn [tagfree starts_word]. rewrite IH1, bool_decide_eq_false_2 by done. done.
    + destruct Hk as [|Hk]; [done|]. cbn [replace_g]. cbn [take_while] in Hk.
      destruct (is_word c) eqn:Ec; [|done]. cbn [length] in Hk. injection Hk as Hk.
      destruct (IH k) as [IH1 IH2]; [by right|]. split; [done|].
      intros H. destruct (IH2 H) as [-> Hs]. rewrite starts_word_run, <- Hk in Hs. done.
Qed.

Lemma tagfree_app_r a b : tagfree (a ++ b) = true → tagfree b = true.
Proof.
  induction a as [|c a IH]; [done|]. cbn [app tagfree].
  intros [_ H]%andb_prop. by apply IH.
Qed.

Lemma tagfree_app_l a b : tagfree (a ++ b) = true → tagfree a = true.
Proof.
  induction a as [|c a IH]; [done|]. cbn [app tagfree].
  intros [H1 H2]%andb_prop. rewrite (IH H2), andb_true_r.
  destruct a; [by rewrite andb_false_r|exact H1].
Qed.

Lemma tagfree_trim s : tagfree s = true → tagfree (trim s) = true.
Proof.
  intros H. unfold trim.
  destruct (trimStart_split s) as (l & _ & Hl).
  destruct (trimEnd_split (trimStart s)) as (r & _ & Hr).
  rewrite Hl in H. apply tagfree_app_r in H. rewrite Hr in H.
  by apply tagfree_app_l in H.
Qed.

Lemma textDescription_no_tag text : match_g re_tag 0 (textDescription text) = [].
Proof.
  apply tagfree_no_match, tagfree_trim.
  by destruct (replace_tagfree text 0%nat) as [H _]; [left|].
Qed.

(** X28. Whatever text is typed for a painted span, the entry that
    [createEntry] adds has a trimmed description with no tag left in
    it, and tags that are non-empty words; so the text the editor
    opens with for that entry reads back as its tags and its
    description. *)
Theorem created_entry_is_editable
    (date text : str) (startSlot endSlot : Z) (st : Store) :
  let e := (createEntry date startSlot endSlot text st).2 in
  trim (description e) = description e ∧
  match_g re_tag 0 (description e) = [] ∧
  forallb tag_ok (tags e) = true ∧
  textTags (existingText e) = tags e ∧
  textDescription (existingText e) = description e.
Proof.
  cbn zeta.
  assert (H1 : trim (textDescription text) = textDescription text) by apply trim_idem.
  pose proof (textDescription_no_tag text) as H2.
  pose proof (tags_of_text_ok text) as H3.
  unfold createEntry, addEntry. cbn [snd].
  set (e := te _).
  assert (Hd : description e = textDescription text) by reflexivity.
  assert (Ht : tags e = textTags text) by reflexivity.
  clearbody e.
  destruct (existingText_reads_back e) as [H4 H5]; [by rewrite Hd..| by rewrite Ht |].
  by rewrite Hd, Ht in *.
Qed.

Lemma formatDuration_table :
  forallb (λ n : nat,
             let minutes := Z.of_nat n - 10080 in
             bool_decide
               (readDuration (formatDuration minutes)
                = Some (if (minutes <? 0) && negb (minutes mod 60 =? 0)
                        then minutes - 60 else minutes)))
          (seq 0 (Z.to_nat 20161)) = true.
Proof. vm_compute. reflexivity. Qed.

(** X29. Within a week either way, the text shown for a duration
    stands for that duration when it is not negative or a whole
    number of hours; for any other negative duration the hours and
    minutes shown add up to an hour less than the duration. *)
Theorem formatDuration_reads_back (minutes : Z) :
  -10080 <= minutes <= 10080 →
  readDuration (formatDuration minutes)
  = Some (if (minutes <? 0) && negb (minutes mod 60 =? 0)
          then minutes - 60 else minutes).
Proof.
  intros Hm. pose proof formatDuration_table as H.
  rewrite forallb_forall in H.
  specialize (H (Z.to_nat (minutes + 10080))). cbn zeta in H.
  replace (Z.of_nat (Z.to_nat (minutes + 10080)) - 10080) with minutes in H by lia.
  apply bool_decide_eq_true in H; [done|].
  apply in_seq. lia.
Qed.

Lemma formatDuration_reads_back_witness :
  readDuration (formatDuration (-15)) = Some (-75).
Proof. apply (formatDuration_reads_back (-15)). lia. Defined.

End TextFacts.
